(** * EduVerse-USA: the SSE stream decoder and the chat transcript

    A shallow embedding of the chat hook of the web client
    ([useChat]: [streamChat], [sendMessage], [updateAssistant], the
    completion handler) and of the conversation hook
    ([useConversations]), together with the platform functions they
    call: JavaScript strings, [TextDecoder] in streaming mode and
    [JSON.parse]. *)

From Stdlib Require Import String Ascii List NArith ZArith Bool Lia.
From Stdlib Require Import Init.Byte Strings.Byte DecimalString.
Import ListNotations.

Set Warnings "-register-all".
Set Warnings "-automation".


(* ================================================================= *)
(** ** JavaScript strings *)

(** A JavaScript string is a sequence of UTF-16 code units.  The
    operations below are the [String.prototype] methods the hooks
    call. *)
Module JS.

Definition jsstring := list N.

(** An ASCII literal of the source text. *)
Definition lit (s : string) : jsstring :=
  map N_of_ascii (list_ascii_of_string s).

Definition LF : N := 10.
Definition CR : N := 13.

(** [a === b] on strings. *)
Fixpoint eqb (a b : jsstring) : bool :=
  match a, b with
  | [], [] => true
  | x :: a', y :: b' => N.eqb x y && eqb a' b'
  | _, _ => false
  end.

(** [s.indexOf(c)] for a one-character needle; [None] stands for -1. *)
Fixpoint indexOf (c : N) (s : jsstring) : option nat :=
  match s with
  | [] => None
  | x :: r => if N.eqb x c then Some 0%nat else option_map S (indexOf c r)
  end.

(** [s.slice(0, i)] and [s.slice(i)] for [0 <= i]. *)
Definition slice_to (i : nat) (s : jsstring) : jsstring := firstn i s.
Definition slice_from (i : nat) (s : jsstring) : jsstring := skipn i s.

(** [s.startsWith(p)]. *)
Fixpoint startsWith (p s : jsstring) : bool :=
  match p, s with
  | [], _ => true
  | x :: p', y :: s' => N.eqb x y && startsWith p' s'
  | _ :: _, [] => false
  end.

(** [s.endsWith(c)] for a one-character suffix. *)
Fixpoint endsWith (c : N) (s : jsstring) : bool :=
  match s with
  | [] => false
  | [x] => N.eqb x c
  | _ :: r => endsWith c r
  end.

(** [s.slice(0, -1)]. *)
Definition drop_last (s : jsstring) : jsstring := removelast s.

(** The code units [String.prototype.trim] strips: WhiteSpace and
    LineTerminator of ECMA-262. *)
Definition is_space (c : N) : bool :=
  ((9 <=? c) && (c <=? 13) || (c =? 32) || (c =? 160) || (c =? 5760)
   || ((8192 <=? c) && (c <=? 8202)) || (c =? 8232) || (c =? 8233)
   || (c =? 8239) || (c =? 8287) || (c =? 12288) || (c =? 65279))%N.

Fixpoint trimStart (s : jsstring) : jsstring :=
  match s with
  | [] => []
  | c :: r => if is_space c then trimStart r else s
  end.

Definition trimEnd (s : jsstring) : jsstring := rev (trimStart (rev s)).

Definition trim (s : jsstring) : jsstring := trimEnd (trimStart s).

(** A string is truthy when it is not empty. *)
Definition nonempty (s : jsstring) : bool :=
  match s with [] => false | _ => true end.

(** [s.split(c)] for a one-character separator. *)
Fixpoint split (c : N) (s : jsstring) : list jsstring :=
  match s with
  | [] => [[]]
  | x :: r =>
      if N.eqb x c then [] :: split c r
      else match split c r with
           | [] => [[x]]
           | h :: t => (x :: h) :: t
           end
  end.

End JS.

(* ================================================================= *)
(** ** TextDecoder *)

(** [new TextDecoder()] is the UTF-8 decoder of the Encoding standard
    with error mode replacement and BOM stripping;
    [decode(value, {stream: true})] keeps its state between calls and
    never flushes.  The decoder is a state machine that handles one
    byte at a time. *)
Module TextDecoder.
Import JS.

Record state := mk_state {
  code_point   : N;
  bytes_seen   : N;
  bytes_needed : N;
  lower        : N;
  upper        : N;
  bom_seen     : bool
}.

Definition init : state := mk_state 0 0 0 128 191 false.

Definition reset (st : state) : state :=
  mk_state 0 0 0 128 191 (bom_seen st).

(** A scalar value as UTF-16 code units. *)
Definition utf16 (cp : N) : jsstring :=
  (if cp <? 65536 then [cp]
   else [55296 + (cp - 65536) / 1024; 56320 + (cp - 65536) mod 1024])%N.

(** Output of one code point: the first code point of the stream is
    dropped when it is the byte order mark. *)
Definition emit (st : state) (cp : N) : state * jsstring :=
  if bom_seen st then (st, utf16 cp)
  else (mk_state (code_point st) (bytes_seen st) (bytes_needed st)
          (lower st) (upper st) true,
        if (cp =? 65279)%N then [] else utf16 cp).

(** A byte met when no sequence is open. *)
Definition lead (st : state) (b : N) : state * jsstring :=
  (if b <=? 127 then emit st b
   else if (194 <=? b) && (b <=? 223) then
     (mk_state (N.land b 31) 0 1 128 191 (bom_seen st), [])
   else if (224 <=? b) && (b <=? 239) then
     (mk_state (N.land b 15) 0 2
        (if b =? 224 then 160 else 128)
        (if b =? 237 then 159 else 191) (bom_seen st), [])
   else if (240 <=? b) && (b <=? 244) then
     (mk_state (N.land b 7) 0 3
        (if b =? 240 then 144 else 128)
        (if b =? 244 then 143 else 191) (bom_seen st), [])
   else emit st 65533)%N.

(** The handler of the UTF-8 decoder for one byte. *)
Definition handler (st : state) (b : N) : state * jsstring :=
  (if bytes_needed st =? 0 then lead st b
   else if (b <? lower st) || (upper st <? b) then
     let (st1, o1) := emit (reset st) 65533 in
     let (st2, o2) := lead st1 b in
     (st2, o1 ++ o2)
   else
     let cp := N.lor (N.shiftl (code_point st) 6) (N.land b 63) in
     let seen := bytes_seen st + 1 in
     if seen =? bytes_needed st then emit (reset st) cp
     else (mk_state cp seen (bytes_needed st) 128 191 (bom_seen st), []))%N.

(** [decoder.decode(value, { stream: true })]. *)
Fixpoint decode (st : state) (value : list byte) : state * jsstring :=
  match value with
  | [] => (st, [])
  | b :: r =>
      let (st1, o1) := handler st (Byte.to_N b) in
      let (st2, o2) := decode st1 r in
      (st2, o1 ++ o2)
  end.

End TextDecoder.

(* ================================================================= *)
(** ** JSON.parse *)

(** Exceptions of the platform functions, caught by the [try] blocks
    of [streamChat]. *)
Inductive exn := SyntaxError | TypeError.

Inductive completion (A : Type) :=
| Normal (a : A)
| Throw (e : exn).

Arguments Normal {A} a.
Arguments Throw {A} e.

Module JSON.
Import JS.

(** The values [JSON.parse] returns.  A number keeps the exact
    decimal value [m * 10^e] of its literal. *)
Inductive value :=
| Null
| Bool (b : bool)
| Number (m e : Z)
| Str (s : jsstring)
| Arr (l : list value)
| Obj (l : list (jsstring * value)).

Inductive result (A : Type) :=
| Ok (a : A)
| Bad
| OutOfFuel.

Arguments Ok {A} a.
Arguments Bad {A}.
Arguments OutOfFuel {A}.

(** JSON white space: tab, line feed, carriage return, space. *)
Definition is_ws (c : N) : bool :=
  ((c =? 9) || (c =? 10) || (c =? 13) || (c =? 32))%N.

Fixpoint skip_ws (s : jsstring) : jsstring :=
  match s with
  | [] => []
  | c :: r => if is_ws c then skip_ws r else s
  end.

Definition is_digit (c : N) : bool := ((48 <=? c) && (c <=? 57))%N.

Definition hex (c : N) : option N :=
  (if (48 <=? c) && (c <=? 57) then Some (c - 48)
   else if (97 <=? c) && (c <=? 102) then Some (c - 87)
   else if (65 <=? c) && (c <=? 70) then Some (c - 55)
   else None)%N.

(** The character an escape letter stands for. *)
Definition escape (e : N) : option N :=
  (if e =? 34 then Some 34
   else if e =? 92 then Some 92
   else if e =? 47 then Some 47
   else if e =? 98 then Some 8
   else if e =? 102 then Some 12
   else if e =? 110 then Some 10
   else if e =? 114 then Some 13
   else if e =? 116 then Some 9
   else None)%N.

(** The characters of a string after its opening quote, up to and
    including the closing quote. *)
Fixpoint string_body (s : jsstring) : option (jsstring * jsstring) :=
  match s with
  | [] => None
  | c :: r =>
      if (c =? 34)%N then Some ([], r)
      else if (c =? 92)%N then
        match r with
        | [] => None
        | e :: r1 =>
            if (e =? 117)%N then
              match r1 with
              | h1 :: h2 :: h3 :: h4 :: r2 =>
                  match hex h1, hex h2, hex h3, hex h4 with
                  | Some a, Some b, Some c', Some d =>
                      match string_body r2 with
                      | Some (t, rest) =>
                          Some ((a * 4096 + b * 256 + c' * 16 + d)%N :: t, rest)
                      | None => None
                      end
                  | _, _, _, _ => None
                  end
              | _ => None
              end
            else
              match escape e with
              | Some x =>
                  match string_body r1 with
                  | Some (t, rest) => Some (x :: t, rest)
                  | None => None
                  end
              | None => None
              end
        end
      else if (c <? 32)%N then None
      else
        match string_body r with
        | Some (t, rest) => Some (c :: t, rest)
        | None => None
        end
  end.

Fixpoint digits (s : jsstring) : list N * jsstring :=
  match s with
  | [] => ([], [])
  | c :: r =>
      if is_digit c then
        let (d, rest) := digits r in ((c - 48)%N :: d, rest)
      else ([], s)
  end.

Definition digits_value (ds : list N) : Z :=
  fold_left (fun acc d => acc * 10 + Z.of_N d)%Z ds 0%Z.

(** The fraction of a number: a point and at least one digit. *)
Definition fraction (s : jsstring) : option (list N * jsstring) :=
  match s with
  | c :: r =>
      if (c =? 46)%N then
        match digits r with
        | ([], _) => None
        | (ds, rest) => Some (ds, rest)
        end
      else Some ([], s)
  | [] => Some ([], [])
  end.

(** The exponent of a number: [e] or [E], a sign, at least one digit. *)
Definition exponent (s : jsstring) : option (Z * jsstring) :=
  match s with
  | c :: r =>
      if ((c =? 101) || (c =? 69))%N then
        let (neg, r1) :=
          match r with
          | sg :: r' =>
              if (sg =? 45)%N then (true, r')
              else if (sg =? 43)%N then (false, r')
              else (false, r)
          | [] => (false, r)
          end in
        match digits r1 with
        | ([], _) => None
        | (ds, rest) =>
            Some (if neg then (- digits_value ds)%Z else digits_value ds, rest)
        end
      else Some (0%Z, s)
  | [] => Some (0%Z, [])
  end.

Definition number (s : jsstring) : option (value * jsstring) :=
  let (neg, s1) :=
    match s with
    | c :: r => if (c =? 45)%N then (true, r) else (false, s)
    | [] => (false, s)
    end in
  match digits s1 with
  | ([], _) => None
  | (d :: ds, s2) =>
      if (d =? 0)%N && nonempty ds then None
      else
        match fraction s2 with
        | None => None
        | Some (fs, s3) =>
            match exponent s3 with
            | None => None
            | Some (ex, s4) =>
                let m := digits_value ((d :: ds) ++ fs) in
                Some (Number (if neg then (- m)%Z else m)
                        (ex - Z.of_nat (length fs))%Z, s4)
            end
        end
  end.

(** A literal name. *)
Definition keyword (k : string) (v : value) (s : jsstring)
  : result (value * jsstring) :=
  if startsWith (lit k) s then Ok (v, skipn (String.length k) s) else Bad.

(** Recursive descent over values, array elements and object
    members. *)
Fixpoint parse_value (fuel : nat) (s : jsstring) {struct fuel}
  : result (value * jsstring) :=
  match fuel with
  | O => OutOfFuel
  | S f =>
      match skip_ws s with
      | [] => Bad
      | c :: r =>
          if (c =? 123)%N then
            match skip_ws r with
            | [] => Bad
            | c1 :: r1 =>
                if (c1 =? 125)%N then Ok (Obj [], r1)
                else
                  match parse_members f (c1 :: r1) with
                  | Ok (ms, rest) => Ok (Obj ms, rest)
                  | Bad => Bad
                  | OutOfFuel => OutOfFuel
                  end
            end
          else if (c =? 91)%N then
            match skip_ws r with
            | [] => Bad
            | c1 :: r1 =>
                if (c1 =? 93)%N then Ok (Arr [], r1)
                else
                  match parse_elements f (c1 :: r1) with
                  | Ok (vs, rest) => Ok (Arr vs, rest)
                  | Bad => Bad
                  | OutOfFuel => OutOfFuel
                  end
            end
          else if (c =? 34)%N then
            match string_body r with
            | Some (t, rest) => Ok (Str t, rest)
            | None => Bad
            end
          else if (c =? 116)%N then keyword "true" (Bool true) (c :: r)
          else if (c =? 102)%N then keyword "false" (Bool false) (c :: r)
          else if (c =? 110)%N then keyword "null" Null (c :: r)
          else
            match number (c :: r) with
            | Some p => Ok p
            | None => Bad
            end
      end
  end

with parse_elements (fuel : nat) (s : jsstring) {struct fuel}
  : result (list value * jsstring) :=
  match fuel with
  | O => OutOfFuel
  | S f =>
      match parse_value f s with
      | Ok (v, rest) =>
          match skip_ws rest with
          | [] => Bad
          | c :: r =>
              if (c =? 44)%N then
                match parse_elements f r with
                | Ok (vs, rest') => Ok (v :: vs, rest')
                | Bad => Bad
                | OutOfFuel => OutOfFuel
                end
              else if (c =? 93)%N then Ok ([v], r)
              else Bad
          end
      | Bad => Bad
      | OutOfFuel => OutOfFuel
      end
  end

with parse_members (fuel : nat) (s : jsstring) {struct fuel}
  : result (list (jsstring * value) * jsstring) :=
  match fuel with
  | O => OutOfFuel
  | S f =>
      match skip_ws s with
      | [] => Bad
      | q :: r0 =>
          if negb (q =? 34)%N then Bad
          else
            match string_body r0 with
            | None => Bad
            | Some (k, r1) =>
                match skip_ws r1 with
                | [] => Bad
                | c :: r2 =>
                    if negb (c =? 58)%N then Bad
                    else
                      match parse_value f r2 with
                      | Ok (v, rest) =>
                          match skip_ws rest with
                          | [] => Bad
                          | c' :: r3 =>
                              if (c' =? 44)%N then
                                match parse_members f r3 with
                                | Ok (ms, rest') => Ok ((k, v) :: ms, rest')
                                | Bad => Bad
                                | OutOfFuel => OutOfFuel
                                end
                              else if (c' =? 125)%N then Ok ([(k, v)], r3)
                              else Bad
                          end
                      | Bad => Bad
                      | OutOfFuel => OutOfFuel
                      end
                end
            end
      end
  end.

(** [JSON.parse(text)]: one value, white space around it, nothing
    else; otherwise a [SyntaxError] is thrown.  Every recursive call
    of the descent is made at most two levels deeper per character
    read. *)
Definition parse (text : jsstring) : completion value :=
  match parse_value (2 * length text + 2) text with
  | Ok (v, rest) =>
      match skip_ws rest with
      | [] => Normal v
      | _ :: _ => Throw SyntaxError
      end
  | Bad => Throw SyntaxError
  | OutOfFuel => Throw SyntaxError
  end.

(** *** Reading a parsed value *)

(** [o[k]] for a property name [k] that no prototype defines: the
    last member of that name wins. *)
Fixpoint lookup (k : jsstring) (ms : list (jsstring * value)) : option value :=
  match ms with
  | [] => None
  | (k', v) :: r =>
      match lookup k r with
      | Some w => Some w
      | None => if eqb k' k then Some v else None
      end
  end.

(** [v.name] where [name] is one of [choices], [delta], [content]:
    only an object can have it; [None] is [undefined]. *)
Definition get (name : string) (v : value) : option value :=
  match v with
  | Obj ms => lookup (lit name) ms
  | _ => None
  end.

(** [v[0]]: the first element of an array, the first code unit of a
    string, the member ["0"] of an object. *)
Definition get0 (v : value) : option value :=
  match v with
  | Obj ms => lookup (lit "0") ms
  | Arr (x :: _) => Some x
  | Str (c :: _) => Some (Str [c])
  | _ => None
  end.

(** Optional chaining [x?.p]: [undefined] when [x] is [undefined] or
    [null]. *)
Definition chain (x : option value) (p : value -> option value) : option value :=
  match x with
  | None => None
  | Some Null => None
  | Some v => p v
  end.

(** The number a literal denotes is [0] (or [-0]) when its exact
    value rounds to zero as a double: at most half the least
    subnormal, [2^-1075]. *)
Definition number_is_zero (m e : Z) : bool :=
  ((m =? 0) || ((e <? 0) && (Z.abs m * 2 ^ 1075 <=? 10 ^ (- e))))%Z.

(** [if (v)]: the truthiness of a parsed value. *)
Definition truthy (v : value) : bool :=
  match v with
  | Null => false
  | Bool b => b
  | Number m e => negb (number_is_zero m e)
  | Str s => nonempty s
  | Arr _ => true
  | Obj _ => true
  end.

End JSON.

(* ================================================================= *)
(** ** streamChat: the SSE decoder *)

Module StreamDecoder.
Import JS.

(** [JSON.parse(jsonStr)] followed by
    [parsed.choices?.[0]?.delta?.content].  Reading [choices] from
    [null] throws a [TypeError]; [None] is [undefined]. *)
Definition delta_content (jsonStr : jsstring) : completion (option JSON.value) :=
  match JSON.parse jsonStr with
  | Throw e => Throw e
  | Normal JSON.Null => Throw TypeError
  | Normal parsed =>
      Normal (JSON.chain
                (JSON.chain
                   (JSON.chain (JSON.get "choices" parsed) JSON.get0)
                   (JSON.get "delta"))
                (JSON.get "content"))
  end.

(** [if (content) onDelta(content)]: the calls of [onDelta] made for
    one content value. *)
Definition deliver (content : option JSON.value) : list JSON.value :=
  match content with
  | Some c => if JSON.truthy c then [c] else []
  | None => []
  end.

(** The inner [while] loop of the read loop: extract the complete
    lines of [textBuffer].  The result is the arguments of the
    [onDelta] calls in order, the buffer left, and [streamDone].
    The [catch] covers [JSON.parse], the read of [content] and the
    call of [onDelta]; here every call of [onDelta] returns, and
    [extract_lines_with] below is the loop for a callback that
    throws.
    Every iteration that continues removes a line feed from the
    buffer, so [fuel] bounds the iterations by the buffer length. *)
Fixpoint extract_lines (fuel : nat) (textBuffer : jsstring)
  : list JSON.value * jsstring * bool :=
  match fuel with
  | O => ([], textBuffer, false)
  | S fuel' =>
      match indexOf LF textBuffer with
      | None => ([], textBuffer, false)
      | Some newlineIndex =>
          let line := slice_to newlineIndex textBuffer in
          let textBuffer := slice_from (newlineIndex + 1) textBuffer in
          let line := if endsWith CR line then drop_last line else line in
          if startsWith (lit ":") line || eqb (trim line) [] then
            extract_lines fuel' textBuffer
          else if negb (startsWith (lit "data: ") line) then
            extract_lines fuel' textBuffer
          else
            let jsonStr := trim (slice_from 6 line) in
            if eqb jsonStr (lit "[DONE]") then ([], textBuffer, true)
            else
              match delta_content jsonStr with
              | Normal content =>
                  let '(calls, buffer, done) := extract_lines fuel' textBuffer in
                  (deliver content ++ calls, buffer, done)
              | Throw _ => ([], line ++ [LF] ++ textBuffer, false)
              end
      end
  end.

(** The state of the read loop between two [reader.read()]. *)
Record reader_state := mk_reader {
  decoder    : TextDecoder.state;
  textBuffer : jsstring;
  streamDone : bool
}.

Definition start : reader_state := mk_reader TextDecoder.init [] false.

(** One iteration of the outer loop for a chunk [value]: decode,
    append, extract lines. *)
Definition feed (st : reader_state) (value : list byte)
  : list JSON.value * reader_state :=
  let (d, text) := TextDecoder.decode (decoder st) value in
  let buffer := textBuffer st ++ text in
  let '(calls, buffer', done) := extract_lines (length buffer) buffer in
  (calls, mk_reader d buffer' done).

(** The outer loop over the chunks the reader yields before it
    reports [done]. *)
Fixpoint read_loop (st : reader_state) (chunks : list (list byte))
  : list JSON.value * reader_state :=
  match chunks with
  | [] => ([], st)
  | value :: rest =>
      let (calls, st1) := feed st value in
      if streamDone st1 then (calls, st1)
      else
        let (calls', st2) := read_loop st1 rest in
        (calls ++ calls', st2)
  end.

(** One line of the final flush. *)
Definition flush_line (raw : jsstring) : list JSON.value :=
  if negb (nonempty raw) || startsWith (lit ":") raw || eqb (trim raw) [] then []
  else if negb (startsWith (lit "data: ") raw) then []
  else
    let jsonStr := trim (slice_from 6 raw) in
    if eqb jsonStr (lit "[DONE]") then []
    else
      match delta_content jsonStr with
      | Normal content => deliver content
      | Throw _ => []
      end.

(** "Flush remaining content". *)
Definition flush (textBuffer : jsstring) : list JSON.value :=
  if nonempty (trim textBuffer) then flat_map flush_line (split LF textBuffer)
  else [].

(** The calls [streamChat] makes on its callbacks. *)
Inductive callback :=
| onDelta (content : JSON.value)
| onDone.

(** [streamChat] from [resp.body.getReader()] on, for a body whose
    reader yields [chunks] and then reports [done]: the read loop, the
    final flush and [onDone()].  The result is the calls made on the
    two callbacks, in order. *)
Definition streamChat (chunks : list (list byte)) : list callback :=
  let (calls, st) := read_loop start chunks in
  map onDelta (calls ++ flush (textBuffer st)) ++ [onDone].

(** The arguments of the [onDelta] calls of a run. *)
Fixpoint deltas (cs : list callback) : list JSON.value :=
  match cs with
  | [] => []
  | onDelta c :: r => c :: deltas r
  | onDone :: r => deltas r
  end.

(** *** A callback that throws *)

(** The inner [while] loop for an [onDelta] that throws on the
    contents [throws] tells: the call sits in the [try] block, so the
    [catch] block pushes the line back and ends the loop, as it does
    when [JSON.parse] throws.  The calls listed are those that
    returned. *)
Fixpoint extract_lines_with (throws : JSON.value -> bool)
         (fuel : nat) (textBuffer : jsstring)
  : list JSON.value * jsstring * bool :=
  match fuel with
  | O => ([], textBuffer, false)
  | S fuel' =>
      match indexOf LF textBuffer with
      | None => ([], textBuffer, false)
      | Some newlineIndex =>
          let line := slice_to newlineIndex textBuffer in
          let textBuffer := slice_from (newlineIndex + 1) textBuffer in
          let line := if endsWith CR line then drop_last line else line in
          if startsWith (lit ":") line || eqb (trim line) [] then
            extract_lines_with throws fuel' textBuffer
          else if negb (startsWith (lit "data: ") line) then
            extract_lines_with throws fuel' textBuffer
          else
            let jsonStr := trim (slice_from 6 line) in
            if eqb jsonStr (lit "[DONE]") then ([], textBuffer, true)
            else
              match delta_content jsonStr with
              | Normal content =>
                  if existsb throws (deliver content)
                  then ([], line ++ [LF] ++ textBuffer, false)
                  else
                    let '(calls, buffer, done) :=
                      extract_lines_with throws fuel' textBuffer in
                    (deliver content ++ calls, buffer, done)
              | Throw _ => ([], line ++ [LF] ++ textBuffer, false)
              end
      end
  end.

(** One iteration of the outer loop for such a callback. *)
Definition feed_with (throws : JSON.value -> bool)
           (st : reader_state) (value : list byte)
  : list JSON.value * reader_state :=
  let (d, text) := TextDecoder.decode (decoder st) value in
  let buffer := textBuffer st ++ text in
  let '(calls, buffer', done) :=
    extract_lines_with throws (length buffer) buffer in
  (calls, mk_reader d buffer' done).

(** The final flush for such a callback: every line has a [try]
    block of its own, whose [catch] block ignores what is thrown, so
    the calls that returned are those of the contents on which the
    callback does not throw. *)
Definition flush_with (throws : JSON.value -> bool) (textBuffer : jsstring)
  : list JSON.value :=
  filter (fun c => negb (throws c)) (flush textBuffer).

End StreamDecoder.

(* ================================================================= *)
(** ** The transcript *)

Module Transcript.
Import JS.

Inductive Role := user | assistant.

Definition Role_eqb (a b : Role) : bool :=
  match a, b with
  | user, user => true
  | assistant, assistant => true
  | _, _ => false
  end.

Record Message := mkMessage {
  id      : jsstring;
  role    : Role;
  content : jsstring
}.

(** The welcome message shown at the start of every chat. *)
Definition INITIAL_MESSAGE : Message :=
  mkMessage (lit "welcome") assistant
    (lit "Hello! I'm your EduVerse USA study assistant. I can help you with U.S. university admissions, Statement of Purpose guidance, scholarship opportunities, and test preparation for GRE, TOEFL, and IELTS."
     ++ [LF; LF] ++ lit "How can I assist you today?").

(** [m.id === "streaming"]. *)
Definition is_streaming (m : Message) : bool := eqb (id m) (lit "streaming").

(** [last?.role === "assistant" && last.id === "streaming"] for
    [last = prev[prev.length - 1]]. *)
Fixpoint last_message (prev : list Message) : option Message :=
  match prev with
  | [] => None
  | [m] => Some m
  | _ :: r => last_message r
  end.

Definition last_is_streaming (prev : list Message) : bool :=
  match last_message prev with
  | Some l => Role_eqb (role l) assistant && is_streaming l
  | None => false
  end.

(** [prev.map((m, i) => f(m, i))], from index [i]. *)
Fixpoint mapi (f : Message -> nat -> Message) (i : nat) (l : list Message)
  : list Message :=
  match l with
  | [] => []
  | m :: r => f m i :: mapi f (S i) r
  end.

(** The updater [updateAssistant] hands to [setMessages], for the
    value of [assistantContent] after [+=]. *)
Definition show_assistant (assistantContent : jsstring) (prev : list Message)
  : list Message :=
  if last_is_streaming prev then
    mapi (fun m i =>
            if Nat.eqb i (length prev - 1)
            then mkMessage (id m) (role m) assistantContent
            else m) 0 prev
  else prev ++ [mkMessage (lit "streaming") assistant assistantContent].

(** [updateAssistant(chunk)] on the closure variable
    [assistantContent] and the [messages] state. *)
Definition updateAssistant (chunk : jsstring)
           (assistantContent : jsstring) (prev : list Message)
  : jsstring * list Message :=
  let assistantContent := assistantContent ++ chunk in
  (assistantContent, show_assistant assistantContent prev).

(** [Date.now().toString()]: the decimal digits of an integer. *)
Definition Date_now_toString (now : Z) : jsstring :=
  lit (NilZero.string_of_int (Z.to_int now)).

(** "Finalize message with real ID": the updater of the completion
    handler. *)
Definition finalize (now : Z) (prev : list Message) : list Message :=
  map (fun m =>
         if is_streaming m
         then mkMessage (Date_now_toString now) (role m) (content m)
         else m) prev.

(** The number of messages that carry the placeholder id. *)
Definition streaming_count (l : list Message) : nat :=
  length (filter is_streaming l).

End Transcript.

(* ================================================================= *)
(** ** The chat session *)

(** The state of [useChat] and [useConversations], the calls they make
    on the outside world, and the [sendMessage] call in flight.

    The hooks run on one thread.  An event is a handler the interface
    calls, or the continuation of an [await]: it runs against the
    latest state up to the next [await].  [sendMessage] is suspended
    at [createConversation], at [fetch] and at every [reader.read()];
    what it captured when it was called ([user], [messages], the
    conversation id, [assistantContent]) is kept with the call.  The
    queries of [deleteConversation] and [clearAllHistory] are taken to
    settle at once.  The effects of [useConversations] run with the
    event that changes what they depend on; the query of
    [loadMessages] settles as an event of its own.  State updaters
    passed to [setMessages] are applied in the order of the calls. *)
Module Session.
Import JS Transcript.

Record Conversation := mkConversation {
  conv_id   : jsstring;
  title     : jsstring;
  updatedAt : Z
}.

Inductive toast :=
| toast_error (message : jsstring)
| toast_success (message : jsstring).

(** A value thrown by [fetch] or [reader.read()]: an [Error] with its
    message, or something else. *)
Inductive thrown :=
| Error (message : jsstring)
| NotAnError.

(** How [fetch] settles: it rejects, or resolves to a response with
    a status, the message [errorData.error || "Failed to connect to
    AI"] of its error body, and a body or none. *)
Inductive fetched :=
| Rejected (e : thrown)
| Resp (status : N) (error_message : jsstring) (has_body : bool).

(** Where the [sendMessage] call in flight is suspended. *)
Inductive stage :=
| AwaitCreate (title : jsstring)
| AwaitFetch
| Reading (r : StreamDecoder.reader_state).

(** The variables of the [sendMessage] call in flight; [user] and
    [messages] are the values its closure captured. *)
Record call := mkCall {
  c_user           : option jsstring;
  c_messages       : list Message;
  input            : jsstring;
  userMessage      : Message;
  convId           : option jsstring;
  assistantContent : jsstring;
  at_stage         : stage
}.

Record state := mkState {
  user                 : option jsstring;
  conversations        : list Conversation;
  activeConversationId : option jsstring;
  messages             : list Message;
  isLoading            : bool;
  toasts               : list toast;
  (** rows [saveMessage] inserts: role, content, conversation id *)
  saved                : list (Role * jsstring * jsstring);
  (** the [messages] bodies posted to [CHAT_URL] *)
  requests             : list (list (Role * jsstring));
  (** conversations whose [loadMessages] query is in flight *)
  loads                : list jsstring;
  pending              : option call
}.

Definition initial : state :=
  mkState None [] None [INITIAL_MESSAGE] false [] [] [] [] None.

Definition setMessages (m : list Message) (st : state) : state :=
  mkState (user st) (conversations st) (activeConversationId st) m
    (isLoading st) (toasts st) (saved st) (requests st) (loads st) (pending st).

Definition setIsLoading (b : bool) (st : state) : state :=
  mkState (user st) (conversations st) (activeConversationId st) (messages st)
    b (toasts st) (saved st) (requests st) (loads st) (pending st).

Definition setConversations (c : list Conversation) (st : state) : state :=
  mkState (user st) c (activeConversationId st) (messages st)
    (isLoading st) (toasts st) (saved st) (requests st) (loads st) (pending st).

Definition setActiveConversationId (a : option jsstring) (st : state) : state :=
  mkState (user st) (conversations st) a (messages st)
    (isLoading st) (toasts st) (saved st) (requests st) (loads st) (pending st).

Definition setUser (u : option jsstring) (st : state) : state :=
  mkState u (conversations st) (activeConversationId st) (messages st)
    (isLoading st) (toasts st) (saved st) (requests st) (loads st) (pending st).

Definition add_toast (t : toast) (st : state) : state :=
  mkState (user st) (conversations st) (activeConversationId st) (messages st)
    (isLoading st) (toasts st ++ [t]) (saved st) (requests st) (loads st) (pending st).

Definition add_saved (r : Role * jsstring * jsstring) (st : state) : state :=
  mkState (user st) (conversations st) (activeConversationId st) (messages st)
    (isLoading st) (toasts st) (saved st ++ [r]) (requests st) (loads st) (pending st).

Definition add_request (r : list (Role * jsstring)) (st : state) : state :=
  mkState (user st) (conversations st) (activeConversationId st) (messages st)
    (isLoading st) (toasts st) (saved st) (requests st ++ [r]) (loads st) (pending st).

Definition set_loads (l : list jsstring) (st : state) : state :=
  mkState (user st) (conversations st) (activeConversationId st) (messages st)
    (isLoading st) (toasts st) (saved st) (requests st) l (pending st).

Definition set_pending (c : option call) (st : state) : state :=
  mkState (user st) (conversations st) (activeConversationId st) (messages st)
    (isLoading st) (toasts st) (saved st) (requests st) (loads st) c.

Definition set_stage (s : stage) (c : call) : call :=
  mkCall (c_user c) (c_messages c) (input c) (userMessage c) (convId c)
    (assistantContent c) s.

(** The truthiness of a value of type [string | null]: an id is given. *)
Definition given (a : option jsstring) : bool :=
  match a with
  | Some s => nonempty s
  | None => false
  end.

(** The truthiness of [user]: an object or [null]. *)
Definition is_some (u : option jsstring) : bool :=
  match u with
  | Some _ => true
  | None => false
  end.

Definition opt_eqb (a b : option jsstring) : bool :=
  match a, b with
  | None, None => true
  | Some x, Some y => eqb x y
  | _, _ => false
  end.

(** "Load messages when switching conversations": the effect on
    [user] and [activeConversationId], up to its query. *)
Definition messages_effect (st : state) : state :=
  match user st, activeConversationId st with
  | Some _, Some c =>
      if nonempty c then set_loads (loads st ++ [c]) st
      else setMessages [INITIAL_MESSAGE] st
  | _, _ => setMessages [INITIAL_MESSAGE] st
  end.

(** [setActiveConversationId(a)] and the effect it triggers when the
    value changes. *)
Definition activate (a : option jsstring) (st : state) : state :=
  if opt_eqb a (activeConversationId st) then st
  else messages_effect (setActiveConversationId a st).

(** [saveMessage(role, content, conversationId)], with the [user]
    its closure captured. *)
Definition saveMessage (u : option jsstring) (r : Role)
           (content conversationId : jsstring) (st : state) : state :=
  match u with
  | Some _ => add_saved (r, content, conversationId) st
  | None => st
  end.

(** [sendMessage] from "Save user message to database" to the
    [fetch] call. *)
Definition post (c : call) (convId' : option jsstring) (st : state) : state :=
  let st1 :=
    match c_user c, convId' with
    | Some _, Some cid =>
        if nonempty cid
        then saveMessage (c_user c) Transcript.user (trim (input c)) cid st
        else st
    | _, _ => st
    end in
  let chatHistory :=
    map (fun m => (role m, content m)) (c_messages c ++ [userMessage c]) in
  set_pending
    (Some (mkCall (c_user c) (c_messages c) (input c) (userMessage c) convId'
             (assistantContent c) AwaitFetch))
    (add_request chatHistory st1).

(** The [catch] block of [sendMessage]. *)
Definition catch (e : thrown) (st : state) : state :=
  let message :=
    match e with
    | Error m => m
    | NotAnError => lit "Failed to send message"
    end in
  set_pending None (setIsLoading false (add_toast (toast_error message) st)).

(** The completion handler passed to [streamChat]. *)
Definition completed (now : Z) (c : call) (st : state) : state :=
  let st1 := setIsLoading false (setMessages (finalize now (messages st)) st) in
  let st2 :=
    match c_user c, convId c with
    | Some _, Some cid =>
        if nonempty cid && nonempty (assistantContent c)
        then saveMessage (c_user c) assistant (assistantContent c) cid st1
        else st1
    | _, _ => st1
    end in
  set_pending None st2.

(** [sendMessage(input)] up to its first [await]: the guard, the
    optimistic user message, and either [createConversation] or the
    request. *)
Definition sendMessage (input : jsstring) (now : Z) (st : state) : state :=
  if negb (nonempty (trim input)) || isLoading st then st
  else
    let userMessage :=
      mkMessage (Date_now_toString now) Transcript.user (trim input) in
    let st1 := setIsLoading true
                 (setMessages (messages st ++ [userMessage]) st) in
    let c := mkCall (user st) (messages st) input userMessage
               (activeConversationId st) [] AwaitFetch in
    if is_some (user st) && negb (given (activeConversationId st)) then
      let title :=
        slice_to 40 (trim input)
        ++ (if Nat.ltb 40 (length input) then lit "..." else []) in
      set_pending (Some (set_stage (AwaitCreate title) c)) st1
    else post c (activeConversationId st) st1.

(** [createConversation] once its insert has settled with an error
    ([None]) or the new row, and [sendMessage] behind it. *)
Definition createConversation (row : option Conversation) (c : call)
           (st : state) : state :=
  match row with
  | None =>
      post c None
        (add_toast (toast_error (lit "Failed to create conversation")) st)
  | Some newConv =>
      let st1 := setConversations (newConv :: conversations st) st in
      let st2 := activate (Some (conv_id newConv)) st1 in
      let st3 := setMessages [INITIAL_MESSAGE] st2 in
      post c (Some (conv_id newConv)) st3
  end.

(** [streamChat] once [fetch] has settled, up to
    [resp.body.getReader()]; what it throws ends [sendMessage] in its
    [catch] block. *)
Definition streamChat_response (r : fetched) (c : call) (st : state) : state :=
  match r with
  | Rejected e => catch e st
  | Resp status error_message has_body =>
      if negb ((200 <=? status) && (status <=? 299))%N then
        if (status =? 429)%N then
          catch (Error (lit "Rate limit exceeded. Please wait a moment and try again.")) st
        else if (status =? 402)%N then
          catch (Error (lit "AI usage limit reached. Please add credits to continue.")) st
        else catch (Error error_message) st
      else if negb has_body then catch (Error (lit "No response body")) st
      else set_pending (Some (set_stage (Reading StreamDecoder.start) c)) st
  end.

(** [selectConversation(conversationId)]. *)
Definition selectConversation (conversationId : jsstring) (st : state) : state :=
  activate (Some conversationId) st.

(** [loadMessages] once its query has settled with an error ([None])
    or the rows. *)
Definition loadMessages (rows : option (list Message)) (st : state) : state :=
  match rows with
  | None => st
  | Some data => setMessages (INITIAL_MESSAGE :: data) st
  end.

(** [startNewChat()]. *)
Definition startNewChat (st : state) : state :=
  setMessages [INITIAL_MESSAGE] (activate None st).

(** [deleteConversation(conversationId)]; [ok] says whether the
    delete succeeded. *)
Definition deleteConversation (conversationId : jsstring) (ok : bool)
           (st : state) : state :=
  if negb ok then
    add_toast (toast_error (lit "Failed to delete conversation")) st
  else
    let st1 :=
      setConversations
        (filter (fun c => negb (eqb (conv_id c) conversationId))
           (conversations st)) st in
    let st2 :=
      if opt_eqb (activeConversationId st) (Some conversationId)
      then setMessages [INITIAL_MESSAGE] (activate None st1)
      else st1 in
    add_toast (toast_success (lit "Conversation deleted")) st2.

(** [clearAllHistory()]; [ok] says whether the delete succeeded. *)
Definition clearAllHistory (ok : bool) (st : state) : state :=
  match user st with
  | None => st
  | Some _ =>
      if negb ok then
        add_toast (toast_error (lit "Failed to clear history")) st
      else
        add_toast (toast_success (lit "All conversations deleted"))
          (setMessages [INITIAL_MESSAGE]
             (activate None (setConversations [] st)))
  end.

(** [setUser(u)] and the two effects of [useConversations] that
    depend on [user]. *)
Definition auth_changed (u : option jsstring) (st : state) : state :=
  let st1 := setUser u st in
  match u with
  | None =>
      setMessages [INITIAL_MESSAGE]
        (setActiveConversationId None (setConversations [] st1))
  | Some _ => messages_effect st1
  end.

(** [loadConversations] once its query has settled. *)
Definition loadConversations (rows : option (list Conversation)) (st : state)
  : state :=
  match rows with
  | Some convs => setConversations convs st
  | None => st
  end.

Inductive event :=
| Send (input : jsstring) (now : Z)
| Created (row : option Conversation)
| Fetched (r : fetched)
| Chunk (value : list byte) (now : Z)
| EndOfStream (now : Z)
| ReadFailed (e : thrown)
| Select (conversationId : jsstring)
| Loaded (conversationId : jsstring) (rows : option (list Message))
| NewChat
| Delete (conversationId : jsstring) (ok : bool)
| ClearAll (ok : bool)
| Auth (u : option jsstring)
| ConversationsLoaded (rows : option (list Conversation)).

(** Removes the first occurrence of [c]; [None] when there is none. *)
Fixpoint take_load (c : jsstring) (l : list jsstring) : option (list jsstring) :=
  match l with
  | [] => None
  | x :: r =>
      if eqb x c then Some r
      else option_map (cons x) (take_load c r)
  end.

Section Platform.

(** [Number.prototype.toString] of the number [m * 10^e] denotes;
    the hooks do not depend on what it prints. *)
Variable Number_toString : Z -> Z -> jsstring.

(** [ToString] of a parsed value, as [assistantContent += chunk] and
    [new Error(message)] apply it.  An object is converted by its
    [toString] method.  A member [toString] of an object parsed from
    JSON text is an own property that is not callable, so neither it
    nor [Object.prototype.valueOf], which returns the object, gives a
    primitive, and the conversion throws a [TypeError]; without such
    a member [Object.prototype.toString] gives ["[object Object]"].
    An array is converted by [Array.prototype.join], which converts
    its elements, [null] to the empty string, and throws when one of
    them throws. *)
Fixpoint ToString (v : JSON.value) : completion jsstring :=
  match v with
  | JSON.Null => Normal (lit "null")
  | JSON.Bool true => Normal (lit "true")
  | JSON.Bool false => Normal (lit "false")
  | JSON.Number m e => Normal (Number_toString m e)
  | JSON.Str s => Normal s
  | JSON.Arr l =>
      (fix join (l : list JSON.value) : completion jsstring :=
         match l with
         | [] => Normal []
         | x :: r =>
             match match x with
                   | JSON.Null => Normal []
                   | _ => ToString x
                   end with
             | Throw e => Throw e
             | Normal sx =>
                 match r with
                 | [] => Normal sx
                 | _ :: _ =>
                     match join r with
                     | Throw e => Throw e
                     | Normal sr => Normal (sx ++ lit "," ++ sr)
                     end
                 end
             end
         end) l
  | JSON.Obj ms =>
      match JSON.lookup (lit "toString") ms with
      | Some _ => Throw TypeError
      | None => Normal (lit "[object Object]")
      end
  end.

(** [updateAssistant(chunk)] throws: [assistantContent += chunk]
    converts [chunk] before anything is assigned, so a call that
    throws has changed nothing. *)
Definition throws (chunk : JSON.value) : bool :=
  match ToString chunk with
  | Normal _ => false
  | Throw _ => true
  end.

(** The texts appended by the calls that returned. *)
Fixpoint applied_texts (calls : list JSON.value) : list jsstring :=
  match calls with
  | [] => []
  | chunk :: r =>
      match ToString chunk with
      | Normal text => text :: applied_texts r
      | Throw _ => applied_texts r
      end
  end.

(** The [onDelta] calls of one loop iteration that returned, applied
    in order to [assistantContent] and the transcript. *)
Fixpoint apply_deltas (calls : list JSON.value)
         (assistantContent : jsstring) (prev : list Message)
  : jsstring * list Message :=
  match calls with
  | [] => (assistantContent, prev)
  | chunk :: r =>
      match ToString chunk with
      | Normal text =>
          let (a, m) := updateAssistant text assistantContent prev in
          apply_deltas r a m
      | Throw _ => apply_deltas r assistantContent prev
      end
  end.

Definition deliver_all (calls : list JSON.value) (c : call) (st : state)
  : call * state :=
  let (a, m) := apply_deltas calls (assistantContent c) (messages st) in
  (mkCall (c_user c) (c_messages c) (input c) (userMessage c) (convId c)
     a (at_stage c),
   setMessages m st).

(** The end of [streamChat]: the final flush and [onDone()]. *)
Definition streamChat_flush (now : Z) (r : StreamDecoder.reader_state)
           (c : call) (st : state) : state :=
  let (c1, st1) :=
    deliver_all (StreamDecoder.flush_with throws (StreamDecoder.textBuffer r))
      c st in
  completed now c1 st1.

(** [streamChat] once [reader.read()] has yielded the chunk [value]:
    one iteration of the read loop with [updateAssistant] as
    [onDelta], and the end of [streamChat] when the sentinel was
    met. *)
Definition streamChat_chunk (value : list byte) (now : Z)
           (r : StreamDecoder.reader_state) (c : call) (st : state) : state :=
  let (calls, r1) := StreamDecoder.feed_with throws r value in
  let (c1, st1) := deliver_all calls c st in
  if StreamDecoder.streamDone r1 then streamChat_flush now r1 c1 st1
  else set_pending (Some (set_stage (Reading r1) c1)) st1.

(** One event.  [None]: the event cannot happen in this state. *)
Definition step (e : event) (st : state) : option state :=
  match e with
  | Send input now => Some (sendMessage input now st)
  | Created row =>
      match pending st with
      | Some c =>
          match at_stage c with
          | AwaitCreate _ => Some (createConversation row c st)
          | _ => None
          end
      | None => None
      end
  | Fetched r =>
      match pending st with
      | Some c =>
          match at_stage c with
          | AwaitFetch => Some (streamChat_response r c st)
          | _ => None
          end
      | None => None
      end
  | Chunk value now =>
      match pending st with
      | Some c =>
          match at_stage c with
          | Reading r => Some (streamChat_chunk value now r c st)
          | _ => None
          end
      | None => None
      end
  | EndOfStream now =>
      match pending st with
      | Some c =>
          match at_stage c with
          | Reading r => Some (streamChat_flush now r c st)
          | _ => None
          end
      | None => None
      end
  | ReadFailed e =>
      match pending st with
      | Some c =>
          match at_stage c with
          | Reading _ => Some (catch e st)
          | _ => None
          end
      | None => None
      end
  | Select conversationId => Some (selectConversation conversationId st)
  | Loaded conversationId rows =>
      match take_load conversationId (loads st) with
      | None => None
      | Some l => Some (loadMessages rows (set_loads l st))
      end
  | NewChat => Some (startNewChat st)
  | Delete conversationId ok => Some (deleteConversation conversationId ok st)
  | ClearAll ok => Some (clearAllHistory ok st)
  | Auth u => Some (auth_changed u st)
  | ConversationsLoaded rows => Some (loadConversations rows st)
  end.

End Platform.

End Session.

(* ================================================================= *)
(** ** Runs, and notions used to state the properties *)

Module Props.
Import JS Transcript.

(** A line as the read loop sees it after [endsWith("\r")]. *)
Definition strip_cr (line : jsstring) : jsstring :=
  if endsWith CR line then drop_last line else line.

(** What one iteration of the inner loop does with an extracted
    line: go on to the next line after the given [onDelta] calls,
    stop at the sentinel, or push the line back. *)
Inductive verdict :=
| Go (calls : list JSON.value)
| Stop
| Retry.

Definition line_verdict (line0 : jsstring) : verdict :=
  let line := strip_cr line0 in
  if startsWith (lit ":") line || eqb (trim line) [] then Go []
  else if negb (startsWith (lit "data: ") line) then Go []
  else
    let jsonStr := trim (slice_from 6 line) in
    if eqb jsonStr (lit "[DONE]") then Stop
    else
      match StreamDecoder.delta_content jsonStr with
      | Normal content => Go (StreamDecoder.deliver content)
      | Throw _ => Retry
      end.

(** The text of a stream of complete lines. *)
Definition unlines (ls : list jsstring) : jsstring :=
  flat_map (fun l => l ++ [LF]) ls.

(** A delta line of the stream: the prefix and a payload. *)
Definition data_line (payload : jsstring) : jsstring := lit "data: " ++ payload.

(** The strings among the arguments of [onDelta]. *)
Fixpoint texts (cs : list JSON.value) : list jsstring :=
  match cs with
  | [] => []
  | JSON.Str s :: r => s :: texts r
  | _ :: r => texts r
  end.

(** The lines of a well-formed delta stream, [payload] and the
    string its [choices[0].delta.content] holds: the payload is on
    one line and parses to that content. *)
Definition well_formed (p : jsstring * jsstring) : Prop :=
  ~ In LF (fst p) /\
  StreamDecoder.delta_content (trim (fst p)) = Normal (Some (JSON.Str (snd p))).

(** The sentinel line that ends the stream. *)
Definition sentinel : jsstring := lit "data: [DONE]".

(** A complete line the inner loop passes over after making the
    given [onDelta] calls. *)
Definition passes (lc : jsstring * list JSON.value) : Prop :=
  ~ In LF (fst lc) /\ line_verdict (fst lc) = Go (snd lc).

(** The line the loop sees for a well-formed payload, with the
    [onDelta] calls it makes. *)
Definition delta_line (p : jsstring * jsstring)
  : jsstring * list JSON.value :=
  (data_line (fst p), StreamDecoder.deliver (Some (JSON.Str (snd p)))).

(** Source text in which ['] stands for the double quote. *)
Definition js (s : string) : jsstring :=
  map (fun c => if (c =? 39)%N then 34%N else c) (lit s).

(** The bytes of an ASCII text. *)
Definition ascii_bytes (s : jsstring) : list byte :=
  map (fun c => match Byte.of_N c with Some b => b | None => x00 end) s.

(** Two delta lines, one with a two-byte character and one with an
    escape, and a segmentation that cuts through the character, the
    escape and the sentinel. *)
Definition sample_lines : list (jsstring * jsstring) :=
  [ (js "{'choices':[{'delta':{'content':'caf" ++ [233%N] ++ js "'}}]}",
     lit "caf" ++ [233%N]);
    (js "{'choices':[{'delta':{'content':'a\nb'}}]}", [97%N; 10%N; 98%N]) ].

Definition sample_chunks : list (list byte) :=
  [ ascii_bytes (lit "data: " ++ js "{'choices':[{'delta':{'content':'caf") ++ [xc3];
    [xa9] ++ ascii_bytes (js "'}}]}" ++ [LF] ++ lit "data: " ++ js "{'choices':[{'delta':{'content':'a\");
    ascii_bytes (js "nb'}}]}" ++ [LF] ++ lit "data: [DO");
    ascii_bytes (lit "NE]" ++ [LF]) ].

(** A transcript that starts with the welcome message. *)
Definition head_welcome (l : list Message) : Prop :=
  exists rest, l = INITIAL_MESSAGE :: rest.

(** A request body that starts with the welcome message. *)
Definition sends_welcome (req : list (Role * jsstring)) : Prop :=
  exists rest, req = (assistant, content INITIAL_MESSAGE) :: rest.

(** The welcome message heads the transcript, the transcript the call
    in flight captured, and every request posted. *)
Definition welcome_first (st : Session.state) : Prop :=
  head_welcome (Session.messages st)
  /\ (forall c, Session.pending st = Some c -> head_welcome (Session.c_messages c))
  /\ Forall sends_welcome (Session.requests st).

(** [Number.prototype.toString] on the integers of modest size, for
    the concrete runs below; none of them delivers a number. *)
Definition integer_toString (m e : Z) : jsstring :=
  lit (NilZero.string_of_int (Z.to_int (m * 10 ^ e))).

(** The payload of a delta line with the given content. *)
Definition delta_payload (text : string) : jsstring :=
  js "{'choices':[{'delta':{'content':'" ++ lit text ++ js "'}}]}".

(** A chunk that carries one delta line. *)
Definition delta_chunk (text : string) : list byte :=
  ascii_bytes (data_line (delta_payload text) ++ [LF]).

(** [fetch] resolves to a streamed response. *)
Definition streaming_response : Session.event :=
  Session.Fetched (Session.Resp 200 [] true).

(** A chunk that carries the sentinel line. *)
Definition sentinel_chunk : list byte := ascii_bytes (sentinel ++ [LF]).

(** A send whose stream delivers a delta and then fails, followed by
    a second send whose stream delivers a delta. *)
Definition resend_after_failure : list Session.event :=
  [ Session.Send (lit "hi") 1;
    streaming_response;
    Session.Chunk (delta_chunk "a") 2;
    Session.ReadFailed (Session.Error (lit "network error"));
    Session.Send (lit "again") 3;
    streaming_response;
    Session.Chunk (delta_chunk "b") 4 ].

(** A message of another conversation, as the database returns it. *)
Definition stored_message : Message :=
  mkMessage (lit "0b0e7c2a-5d1f-4a3b-9c6e-2f8d1a4b7c90") user (lit "old question").


(** A chunk with two delta lines: the content of the first is an
    object with a member [toString], on which [updateAssistant]
    throws. *)
Definition throwing_chunk : list byte :=
  ascii_bytes
    (data_line (js "{'choices':[{'delta':{'content':{'toString':1}}}]}")
     ++ [LF] ++ data_line (delta_payload "b") ++ [LF]).

(** A payload cut by the end of a chunk, and a complete delta line
    behind it. *)
Definition cut_payload : jsstring := js "{'choi".

Definition next_line : jsstring := data_line (delta_payload "x") ++ [LF].

(** [isLoading] says whether a [sendMessage] call is in flight. *)
Definition loading_iff_pending (st : Session.state) : Prop :=
  Session.isLoading st
  = match Session.pending st with Some _ => true | None => false end.

(** The placeholder is under control: no message has the id
    ["streaming"] unless a call is reading its stream, and then at
    most the last message has it, as an assistant message. *)
Definition placeholder_last (l : list Message) : Prop :=
  streaming_count l = 0
  \/ exists pre m,
      l = pre ++ [m] /\ streaming_count pre = 0
      /\ is_streaming m = true /\ role m = assistant.

Definition placeholder_ok (st : Session.state) : Prop :=
  match Session.pending st with
  | Some c =>
      match Session.at_stage c with
      | Session.Reading _ => placeholder_last (Session.messages st)
      | _ => streaming_count (Session.messages st) = 0
      end
  | None => streaming_count (Session.messages st) = 0
  end.

(** The events of a run in which no stream fails and the database
    returns rows under ids of its own. *)
Definition quiet (e : Session.event) : Prop :=
  match e with
  | Session.ReadFailed _ => False
  | Session.Loaded _ (Some data) => streaming_count data = 0
  | _ => True
  end.

(** A run of the session from a state. *)
Fixpoint run (Number_toString : Z -> Z -> jsstring)
         (evs : list (Session.event)) (st : Session.state)
  : option Session.state :=
  match evs with
  | [] => Some st
  | e :: r =>
      match Session.step Number_toString e st with
      | Some st' => run Number_toString r st'
      | None => None
      end
  end.

(** The end-to-end scenario of the specification: a signed-in user
    with the conversation [c1], whose history is one user message,
    sends a question and receives three deltas and the sentinel. *)
Definition end_to_end : list Session.event :=
  [ Session.Auth (Some (lit "u"));
    Session.Select (lit "c1");
    Session.Loaded (lit "c1")
      (Some [mkMessage (lit "6f1c2d3e-0a4b-4c5d-8e9f-a1b2c3d4e5f6") user (lit "Hi")]);
    Session.Send (lit "What tests do I need?") 1000;
    streaming_response;
    Session.Chunk (delta_chunk "GRE") 1001;
    Session.Chunk (delta_chunk ", TOEFL") 1002;
    Session.Chunk (delta_chunk ", IELTS.") 1003;
    Session.Chunk sentinel_chunk 1004 ].

(** The state a run from the initial state ends in. *)
Definition state_after (evs : list Session.event) : Session.state :=
  match run integer_toString evs Session.initial with
  | Some st => st
  | None => Session.initial
  end.

(** The states a session can be in. *)
Definition reachable (Number_toString : Z -> Z -> jsstring)
           (st : Session.state) : Prop :=
  exists evs, run Number_toString evs Session.initial = Some st.




End Props.

(* ================================================================= *)
(** ** [JSON.stringify] of a string *)

Module Stringify.
Import JS.

(** A hexadecimal digit, in lower case. *)
Definition hex_digit (n : N) : N :=
  if (n <? 10)%N then (48 + n)%N else (87 + n)%N.

(** UnicodeEscape: [\uXXXX] for a code unit. *)
Definition unicode_escape (c : N) : jsstring :=
  [92; 117; hex_digit (c / 4096); hex_digit ((c / 256) mod 16);
   hex_digit ((c / 16) mod 16); hex_digit (c mod 16)]%N.

Definition is_lead (c : N) : bool := ((55296 <=? c) && (c <=? 56319))%N.
Definition is_trail (c : N) : bool := ((56320 <=? c) && (c <=? 57343))%N.

(** QuoteJSONString of ECMA-262 without the two quotes: the short
    escapes, [\uXXXX] for the other control characters and for a
    surrogate that is not part of a pair, and every other code unit
    as it is. *)
Fixpoint quote_body (s : jsstring) : jsstring :=
  match s with
  | [] => []
  | c :: r =>
      if (c =? 8)%N then [92; 98]%N ++ quote_body r
      else if (c =? 9)%N then [92; 116]%N ++ quote_body r
      else if (c =? 10)%N then [92; 110]%N ++ quote_body r
      else if (c =? 12)%N then [92; 102]%N ++ quote_body r
      else if (c =? 13)%N then [92; 114]%N ++ quote_body r
      else if (c =? 34)%N then [92; 34]%N ++ quote_body r
      else if (c =? 92)%N then [92; 92]%N ++ quote_body r
      else if (c <? 32)%N then unicode_escape c ++ quote_body r
      else if is_lead c then
        match r with
        | d :: r' =>
            if is_trail d then c :: d :: quote_body r'
            else unicode_escape c ++ quote_body r
        | [] => unicode_escape c
        end
      else if is_trail c then unicode_escape c ++ quote_body r
      else c :: quote_body r
  end.

Definition quote (s : jsstring) : jsstring := [34%N] ++ quote_body s ++ [34%N].

End Stringify.

(* ================================================================= *)
(** ** Further notions about streams and sessions *)

Module Notions.
Import JS Transcript Props Stringify.

(** A line both loops pass over: blank, a comment, or without the
    data prefix. *)
Definition ignored (line : jsstring) : bool :=
  let l := strip_cr line in
  startsWith (lit ":") l || eqb (trim l) []
  || negb (startsWith (lit "data: ") l).

(** What a stream is made of: delta lines, with payload and content;
    data lines whose payload parses and holds no content to deliver,
    as those that carry the role, the finish reason or the usage;
    and other lines. *)
Inductive item :=
| Delta (payload content : jsstring)
| Silent (payload : jsstring)
| Other (line : jsstring).

Definition item_ok (i : item) : Prop :=
  match i with
  | Delta p c => well_formed (p, c)
  | Silent p =>
      ~ In LF p
      /\ exists content,
          StreamDecoder.delta_content (trim p) = Normal content
          /\ StreamDecoder.deliver content = []
  | Other l => ~ In LF l /\ ignored l = true
  end.

Definition item_line (i : item) : jsstring :=
  match i with
  | Delta p _ => data_line p
  | Silent p => data_line p
  | Other l => l
  end.

Definition item_content (i : item) : list jsstring :=
  match i with
  | Delta _ c => [c]
  | Silent _ => []
  | Other _ => []
  end.

(** The line of an item with the [onDelta] calls the loop makes for it. *)
Definition item_calls (i : item) : jsstring * list JSON.value :=
  match i with
  | Delta p c => delta_line (p, c)
  | Silent p => (data_line p, [])
  | Other l => (l, [])
  end.

(** A stream as a server sends it: behind a comment line, a line
    with the role, delta lines with CR LF ends, each followed by a
    blank line, a line with the finish reason and a line with the
    usage. *)
Definition role_payload : jsstring :=
  js "{'choices':[{'index':0,'delta':{'role':'assistant'}}]}".

Definition finish_payload : jsstring :=
  js "{'choices':[{'index':0,'delta':{},'finish_reason':'stop'}]}".

Definition usage_payload : jsstring :=
  js "{'choices':[],'usage':{'total_tokens':7}}".

Definition sample_items : list item :=
  [ Other (lit ": keep-alive" ++ [CR]);
    Silent role_payload;
    Delta (delta_payload "GRE" ++ [CR]) (lit "GRE");
    Other [CR];
    Other (lit "event: message");
    Delta (delta_payload ", TOEFL" ++ [CR]) (lit ", TOEFL");
    Other [];
    Silent finish_payload;
    Silent usage_payload ].

Definition sample_item_chunks : list (list byte) :=
  [ ascii_bytes (lit ": keep-alive" ++ [CR; LF] ++ lit "data: ");
    ascii_bytes (role_payload ++ [LF] ++ lit "da");
    ascii_bytes (lit "ta: " ++ delta_payload "GRE" ++ [CR; LF; CR; LF]
                 ++ lit "event: mess");
    ascii_bytes (lit "age" ++ [LF] ++ data_line (delta_payload ", TOEFL")
                 ++ [CR; LF; LF]);
    ascii_bytes (data_line finish_payload ++ [LF] ++ data_line usage_payload
                 ++ [LF]);
    ascii_bytes (sentinel ++ [CR; LF; CR; LF]) ].

(** The last line of a stream that ends without the sentinel, when
    the stream stops before its line feed. *)
Definition open_line (last : option (jsstring * jsstring)) : jsstring :=
  match last with
  | Some l => data_line (fst l)
  | None => []
  end.

Definition open_content (last : option (jsstring * jsstring)) : list jsstring :=
  match last with
  | Some l => [snd l]
  | None => []
  end.

(** A stream the server closes in the middle: one complete delta
    line and one without its line feed, cut inside the second. *)
Definition open_lines : list (jsstring * jsstring) :=
  [ (delta_payload "GRE", lit "GRE") ].

Definition open_last : jsstring * jsstring :=
  (delta_payload ", TOEFL", lit ", TOEFL").

Definition open_chunks : list (list byte) :=
  [ ascii_bytes (data_line (delta_payload "GRE") ++ [LF] ++ lit "data: ");
    ascii_bytes (delta_payload ", TOEFL") ].




(** *** Contents of any kind *)

(** The payload of a delta whose content is [content], as
    [JSON.stringify] writes it, and the value it denotes. *)
Definition stringify_delta (content : jsstring) : jsstring :=
  js "{'choices':[{'delta':{'content':" ++ quote content ++ js "}}]}".

Definition delta_value (content : jsstring) : JSON.value :=
  JSON.Obj
    [(lit "choices",
      JSON.Arr
        [JSON.Obj
           [(lit "delta", JSON.Obj [(lit "content", JSON.Str content)])]])].

(** Contents with a quote, a backslash, a line feed, a tab and a
    control character; a surrogate pair; a surrogate alone; nothing.
    The chunks cut the four bytes of the pair. *)
Definition awkward_contents : list jsstring :=
  [ lit "say " ++ [34; 92; 10; 9; 1]%N ++ lit "hi";
    [55357; 56832]%N;
    [55296]%N;
    [] ].

Definition awkward_chunks : list (list byte) :=
  [ ascii_bytes
      (data_line (stringify_delta (lit "say " ++ [34; 92; 10; 9; 1]%N ++ lit "hi"))
       ++ [LF] ++ lit "data: " ++ js "{'choices':[{'delta':{'content':'")
    ++ [xf0; x9f];
    [x98; x80]
    ++ ascii_bytes
         (js "'}}]}" ++ [LF]
          ++ data_line (stringify_delta [55296%N]) ++ [LF]
          ++ data_line (stringify_delta []) ++ [LF]
          ++ sentinel ++ [LF]) ].

(** *** Sessions *)

(** The events in which the body of a response arrives, for a read
    loop in the state [r] whose callback returns: a chunk at a time
    up to the chunk that completes the sentinel line, or else to the
    end of the stream. *)
Fixpoint stream_events (now : Z) (r : StreamDecoder.reader_state)
         (chunks : list (list byte)) : list Session.event :=
  match chunks with
  | [] => [Session.EndOfStream now]
  | value :: rest =>
      Session.Chunk value now
      :: (if StreamDecoder.streamDone (snd (StreamDecoder.feed r value)) then []
          else stream_events now (snd (StreamDecoder.feed r value)) rest)
  end.

(** The row saved for a reply: one for a signed-in user with a
    conversation. *)
Definition reply_row (c : Session.call) (reply : jsstring)
  : list (Role * jsstring * jsstring) :=
  match Session.c_user c, Session.convId c with
  | Some _, Some cid => if nonempty cid then [(assistant, reply, cid)] else []
  | _, _ => []
  end.

(** The events in which a call fails: [fetch] rejects, the response
    is not ok or has no body, reading the stream fails. *)
Definition failure (e : Session.event) : bool :=
  match e with
  | Session.ReadFailed _ => true
  | Session.Fetched (Session.Rejected _) => true
  | Session.Fetched (Session.Resp status _ has_body) =>
      negb ((200 <=? status) && (status <=? 299))%N || negb has_body
  | _ => false
  end.

(** The event in which a user signs in. *)
Definition signs_in (e : Session.event) : bool :=
  match e with
  | Session.Auth (Some _) => true
  | _ => false
  end.

(** Nobody is signed in: nothing was saved, and the call in flight
    captured no user and does not wait for a conversation. *)
Definition signed_out (st : Session.state) : Prop :=
  Session.user st = None /\ Session.saved st = []
  /\ forall c, Session.pending st = Some c ->
               Session.c_user c = None
               /\ forall t, Session.at_stage c <> Session.AwaitCreate t.

(** A request ends with the turn of the user, whose text is neither
    blank nor padded. *)
Definition user_turn (text : jsstring) : Prop :=
  nonempty text = true /\ trim text = text.

Definition user_turn_last (req : list (Role * jsstring)) : Prop :=
  exists pre text, req = pre ++ [(user, text)] /\ user_turn text.

Definition asks (st : Session.state) : Prop :=
  Forall user_turn_last (Session.requests st)
  /\ forall c, Session.pending st = Some c ->
               role (Session.userMessage c) = user
               /\ user_turn (content (Session.userMessage c)).

(** The rows saved up to a reply belong to a question: a row of the
    user with the same conversation was saved before it. *)
Definition answers_a_question (rows : list (Role * jsstring * jsstring)) : Prop :=
  forall pre text cid post,
    rows = pre ++ (assistant, text, cid) :: post ->
    exists question, In (user, question, cid) pre.

(** The call in flight of a signed-in user with a conversation has
    saved its question. *)
Definition question_saved (st : Session.state) : Prop :=
  forall c u cid,
    Session.pending st = Some c -> Session.c_user c = Some u -> Session.convId c = Some cid ->
    nonempty cid = true ->
    exists question, In (user, question, cid) (Session.saved st).

Definition no_orphans (st : Session.state) : Prop :=
  answers_a_question (Session.saved st) /\ question_saved st.

(** A session that waits for the response to a padded input. *)
Definition waiting_state : Session.state :=
  state_after [Session.Send (lit "  hi ") 1].

(** A signed-in user with the conversation [c1], whose question was
    posted and whose response starts to stream. *)
Definition reading_state : Session.state :=
  state_after
    [ Session.Auth (Some (lit "u"));
      Session.Select (lit "c1");
      Session.Loaded (lit "c1") (Some []);
      Session.Send (lit "What tests do I need?") 1000;
      streaming_response ].

Definition reading_call : Session.call :=
  match Session.pending reading_state with
  | Some c => c
  | None =>
      Session.mkCall None [] [] INITIAL_MESSAGE None [] Session.AwaitFetch
  end.

(** A user who has just signed in, and the row the database returns
    for a new conversation. *)
Definition signed_in_state : Session.state :=
  state_after [Session.Auth (Some (lit "u"))].

Definition new_conversation : Session.Conversation :=
  Session.mkConversation (lit "c9") (lit "hello") 5.

(** A whole call of a session in which nobody signs in. *)
Definition signed_out_run : list Session.event :=
  [ Session.Send (lit "hi") 1;
    streaming_response;
    Session.Chunk (delta_chunk "a") 2;
    Session.Chunk sentinel_chunk 3 ].

(** *** The body of an error response *)

(** The text [JSON.stringify({ error: message })] of the chat function. *)
Definition stringify_error (message : jsstring) : jsstring :=
  js "{'error':" ++ quote message ++ js "}".

Section ErrorBody.

Variable Number_toString : Z -> Z -> jsstring.

(** The message of the [TypeError] that reading [error] from [null]
    throws. *)
Variable null_message : jsstring.

(** The message of the [TypeError] that converting an object to a
    primitive value throws. *)
Variable primitive_message : jsstring.

(** The message of the error [streamChat] throws for a response that
    is not ok, with a status other than 429 and 402, whose body text
    is [body]: [resp.json().catch(() => ({}))] and
    [new Error(errorData.error || "Failed to connect to AI")], which
    converts its argument to a string. *)
Definition error_message (body : jsstring) : jsstring :=
  match JSON.parse body with
  | Throw _ => lit "Failed to connect to AI"
  | Normal JSON.Null => null_message
  | Normal errorData =>
      match JSON.get "error" errorData with
      | Some e =>
          if JSON.truthy e then
            match Session.ToString Number_toString e with
            | Normal message => message
            | Throw _ => primitive_message
            end
          else lit "Failed to connect to AI"
      | None => lit "Failed to connect to AI"
      end
  end.

End ErrorBody.

Definition waiting_call : Session.call :=
  match Session.pending waiting_state with
  | Some c => c
  | None =>
      Session.mkCall None [] [] INITIAL_MESSAGE None [] Session.AwaitFetch
  end.

End Notions.

(* ================================================================= *)
(** ** The components that render the session *)

Module ChatInterface.
Import JS Transcript.

(** [messages.length === 1]: the quick actions are shown. *)
Definition quick_actions (st : Session.state) : bool :=
  Nat.eqb (length (Session.messages st)) 1.

(** [isLoading && messages[messages.length - 1]?.role !== "assistant"]:
    the typing indicator is shown. *)
Definition typing_indicator (st : Session.state) : bool :=
  Session.isLoading st
  && negb match last_message (Session.messages st) with
          | Some m => Role_eqb (role m) assistant
          | None => false
          end.

End ChatInterface.

Module ChatSidebar.
Import JS.

Section Locale.

(** [date.toLocaleDateString()], which depends on the locale. *)
Variable toLocaleDateString : Z -> jsstring.

(** [1000 * 60 * 60 * 24]: the milliseconds of a day. *)
Definition day : Z := 1000 * 60 * 60 * 24.

(** [formatDate(date)] when [new Date()] is [now]; both are time
    values, integers of milliseconds.  For time values less than
    [2^53] apart, as those of two dates of this era are,
    [Math.floor(diff / (1000 * 60 * 60 * 24))] is the floor of the
    exact quotient, and the template writes the integer [days] in
    decimal digits. *)
Definition formatDate (now date : Z) : jsstring :=
  let diff := (now - date)%Z in
  let days := (diff / day)%Z in
  if (days =? 0)%Z then lit "Today"
  else if (days =? 1)%Z then lit "Yesterday"
  else if (days <? 7)%Z then
    lit (NilZero.string_of_int (Z.to_int days)) ++ lit " days ago"
  else toLocaleDateString date.

End Locale.

End ChatSidebar.


(* ================================================================= *)
(** ** Facts about strings *)

Module JSFacts.
Import JS.

Lemma eqb_eq (a b : jsstring) : eqb a b = true <-> a = b.
Proof.
  revert b; induction a as [|x a IH]; intros [|y b]; simpl; split;
    try congruence; try reflexivity.
  - intros H. apply andb_true_iff in H as [H1 H2].
    apply N.eqb_eq in H1. apply IH in H2. congruence.
  - intros H. injection H as -> ->. rewrite N.eqb_refl. simpl. now apply IH.
Qed.

Lemma eqb_refl (a : jsstring) : eqb a a = true.
Proof. now apply eqb_eq. Qed.

Lemma eqb_neq (a b : jsstring) : eqb a b = false <-> a <> b.
Proof.
  split.
  - intros H E. apply eqb_eq in E. congruence.
  - intros H. destruct (eqb a b) eqn:E; [|reflexivity].
    apply eqb_eq in E. contradiction.
Qed.

Lemma indexOf_None (c : N) (s : jsstring) : ~ In c s -> indexOf c s = None.
Proof.
  induction s as [|x s IH]; simpl; [reflexivity|].
  intros H. destruct (N.eqb_spec x c) as [->|_].
  - exfalso. apply H. now left.
  - rewrite IH; [reflexivity|]. intros Hin. apply H. now right.
Qed.

Lemma indexOf_app (c : N) (l r : jsstring) :
  ~ In c l -> indexOf c (l ++ c :: r) = Some (length l).
Proof.
  induction l as [|x l IH]; simpl; intros H.
  - now rewrite N.eqb_refl.
  - destruct (N.eqb_spec x c) as [->|_].
    + exfalso. apply H. now left.
    + rewrite IH; [reflexivity|]. intros Hin. apply H. now right.
Qed.

Lemma slice_to_app (l r : jsstring) : slice_to (length l) (l ++ r) = l.
Proof.
  unfold slice_to. rewrite firstn_app, Nat.sub_diag, firstn_all. simpl.
  apply app_nil_r.
Qed.

Lemma slice_from_app (l : jsstring) (c : N) (r : jsstring) :
  slice_from (length l + 1) (l ++ c :: r) = r.
Proof.
  unfold slice_from. induction l as [|x l IH]; simpl; [reflexivity|]. exact IH.
Qed.

Lemma startsWith_app (p s : jsstring) : startsWith p (p ++ s) = true.
Proof.
  induction p as [|x p IH]; simpl; [reflexivity|].
  now rewrite N.eqb_refl, IH.
Qed.

Lemma endsWith_snoc (c : N) (s : jsstring) :
  endsWith c s = true -> exists q, s = q ++ [c].
Proof.
  induction s as [|x s IH]; simpl; [discriminate|].
  destruct s as [|y s].
  - intros H. apply N.eqb_eq in H. subst. now exists [].
  - intros H. destruct (IH H) as [q Hq]. exists (x :: q). simpl. now rewrite Hq.
Qed.

Lemma endsWith_app (c : N) (l p : jsstring) :
  p <> [] -> endsWith c (l ++ p) = endsWith c p.
Proof.
  intros Hp. induction l as [|x l IH]; [reflexivity|].
  simpl app. simpl endsWith. destruct (l ++ p) eqn:E.
  - destruct l; destruct p; simpl in E; congruence.
  - exact IH.
Qed.

Lemma trimStart_snoc (l : jsstring) (c : N) :
  trimStart (l ++ [c]) =
  match trimStart l with
  | [] => if is_space c then [] else [c]
  | x => x ++ [c]
  end.
Proof.
  induction l as [|x l IH]; simpl; [reflexivity|].
  destruct (is_space x); [exact IH|reflexivity].
Qed.

Lemma trimEnd_snoc_space (s : jsstring) (c : N) :
  is_space c = true -> trimEnd (s ++ [c]) = trimEnd s.
Proof.
  intros H. unfold trimEnd. rewrite rev_app_distr. simpl. now rewrite H.
Qed.

Lemma trim_snoc_space (s : jsstring) (c : N) :
  is_space c = true -> trim (s ++ [c]) = trim s.
Proof.
  intros H. unfold trim. rewrite trimStart_snoc.
  destruct (trimStart s) as [|x r] eqn:E.
  - now rewrite H.
  - now apply trimEnd_snoc_space.
Qed.

Lemma trim_app_space (s w : jsstring) :
  forallb is_space w = true -> trim (s ++ w) = trim s.
Proof.
  induction w as [|c w IH] using rev_ind; intros H.
  - now rewrite app_nil_r.
  - rewrite forallb_app in H. apply andb_true_iff in H as [H1 H2].
    simpl in H2. apply andb_true_iff in H2 as [H2 _].
    rewrite app_assoc, trim_snoc_space by exact H2. now apply IH.
Qed.

Lemma trimEnd_cons (c : N) (r : jsstring) :
  trimEnd (c :: r) =
  match trimEnd r with
  | [] => if is_space c then [] else [c]
  | x => c :: x
  end.
Proof.
  unfold trimEnd. simpl rev. rewrite trimStart_snoc.
  destruct (trimStart (rev r)) as [|y t] eqn:E.
  - simpl. now destruct (is_space c).
  - rewrite rev_app_distr. simpl.
    destruct (rev t ++ [y]) eqn:E2; [|reflexivity].
    destruct (rev t); discriminate.
Qed.

Lemma trim_cons_nonspace (c : N) (r : jsstring) :
  is_space c = false -> exists t, trim (c :: r) = c :: t.
Proof.
  intros H. unfold trim. simpl. rewrite H, trimEnd_cons, H.
  destruct (trimEnd r); eauto.
Qed.

End JSFacts.

(* ================================================================= *)
(** ** Facts about JSON.parse *)

Module JSONFacts.
Import JS JSFacts JSON.

Lemma skip_ws_length (s : jsstring) : length (skip_ws s) <= length s.
Proof.
  induction s as [|c s IH]; cbn [skip_ws]; [lia|].
  destruct (is_ws c); cbn [length]; lia.
Qed.

Lemma string_body_length (n : nat) :
  forall s t rest,
    length s <= n -> string_body s = Some (t, rest) -> length rest < length s.
Proof.
  induction n as [|n IH]; intros s t rest Hn H.
  - destruct s; [discriminate|cbn in Hn; lia].
  - destruct s as [|c r]; [discriminate|]. cbn [string_body] in H.
    cbn [length] in *.
    destruct (c =? 34)%N. { injection H as _ <-. lia. }
    destruct (c =? 92)%N.
    + destruct r as [|e r1]; [discriminate|]. cbn [length] in *.
      destruct (e =? 117)%N.
      * destruct r1 as [|h1 [|h2 [|h3 [|h4 r2]]]]; try discriminate.
        cbn [length] in *.
        destruct (hex h1), (hex h2), (hex h3), (hex h4); try discriminate.
        destruct (string_body r2) as [[t' rest']|] eqn:E; [|discriminate].
        injection H as _ <-. apply IH in E; lia.
      * destruct (escape e); [|discriminate].
        destruct (string_body r1) as [[t' rest']|] eqn:E; [|discriminate].
        injection H as _ <-. apply IH in E; lia.
    + destruct (c <? 32)%N; [discriminate|].
      destruct (string_body r) as [[t' rest']|] eqn:E; [|discriminate].
      injection H as _ <-. apply IH in E; lia.
Qed.

Lemma digits_length (s : jsstring) :
  forall ds rest, digits s = (ds, rest) -> length rest + length ds = length s.
Proof.
  induction s as [|c s IH]; intros ds rest H; cbn [digits] in H.
  - injection H as <- <-. reflexivity.
  - destruct (is_digit c).
    + destruct (digits s) as [d r] eqn:E. injection H as <- <-.
      specialize (IH d r eq_refl). cbn [length]. lia.
    + injection H as <- <-. cbn [length]. lia.
Qed.

Lemma fraction_length (s : jsstring) :
  forall fs rest, fraction s = Some (fs, rest) -> length rest <= length s.
Proof.
  intros fs rest H. unfold fraction in H. destruct s as [|c r].
  - injection H as _ <-. lia.
  - destruct (c =? 46)%N.
    + destruct (digits r) as [ds r'] eqn:E. apply digits_length in E.
      destruct ds; [discriminate|]. injection H as _ <-. cbn [length] in *. lia.
    + injection H as _ <-. lia.
Qed.

Lemma exponent_length (s : jsstring) :
  forall ex rest, exponent s = Some (ex, rest) -> length rest <= length s.
Proof.
  intros ex rest H. unfold exponent in H. destruct s as [|c r].
  - injection H as _ <-. lia.
  - destruct ((c =? 101) || (c =? 69))%N; [|injection H as _ <-; lia].
    destruct r as [|sg r'];
      [|destruct (sg =? 45)%N; [|destruct (sg =? 43)%N]];
      match type of H with
      | context [digits ?x] =>
          destruct (digits x) as [ds r0] eqn:E; apply digits_length in E;
          destruct ds; [discriminate|]; injection H as _ <-;
          cbn [length] in *; lia
      end.
Qed.

Lemma number_length (s : jsstring) :
  forall v rest, number s = Some (v, rest) -> length rest < length s.
Proof.
  intros v rest H. unfold number in H.
  set (p := match s with
            | [] => (false, s)
            | c :: r => if (c =? 45)%N then (true, r) else (false, s)
            end) in H.
  assert (Hp : length (snd p) <= length s).
  { subst p. destruct s as [|c r]; [cbn; lia|].
    destruct (c =? 45)%N; cbn; lia. }
  destruct p as [neg s1]. cbn [snd] in Hp.
  destruct (digits s1) as [ds s2] eqn:E. apply digits_length in E.
  destruct ds as [|d ds]; [discriminate|].
  destruct ((d =? 0)%N && nonempty ds); [discriminate|].
  destruct (fraction s2) as [[fs s3]|] eqn:Ef; [|discriminate].
  apply fraction_length in Ef.
  destruct (exponent s3) as [[ex s4]|] eqn:Ee; [|discriminate].
  apply exponent_length in Ee.
  injection H as _ <-. cbn [length] in *. lia.
Qed.

Lemma startsWith_length (p s : jsstring) :
  startsWith p s = true -> length p <= length s.
Proof.
  revert s. induction p as [|x p IH]; intros s H; [cbn; lia|].
  destruct s as [|y s]; [discriminate|]. cbn in H.
  apply andb_true_iff in H as [_ H]. apply IH in H. cbn. lia.
Qed.

Lemma keyword_length (k : string) (v : value) (s : jsstring) :
  forall v' rest,
    (0 < String.length k)%nat ->
    length (lit k) = String.length k ->
    keyword k v s = Ok (v', rest) -> length rest < length s.
Proof.
  intros v' rest Hk Hl H. unfold keyword in H.
  destruct (startsWith (lit k) s) eqn:E; [|discriminate].
  apply startsWith_length in E. injection H as _ <-.
  rewrite length_skipn. lia.
Qed.

Lemma parse_value_S (f : nat) (s : jsstring) :
  parse_value (S f) s =
  match skip_ws s with
  | [] => Bad
  | c :: r =>
      if (c =? 123)%N then
        match skip_ws r with
        | [] => Bad
        | c1 :: r1 =>
            if (c1 =? 125)%N then Ok (Obj [], r1)
            else
              match parse_members f (c1 :: r1) with
              | Ok (ms, rest) => Ok (Obj ms, rest)
              | Bad => Bad
              | OutOfFuel => OutOfFuel
              end
        end
      else if (c =? 91)%N then
        match skip_ws r with
        | [] => Bad
        | c1 :: r1 =>
            if (c1 =? 93)%N then Ok (Arr [], r1)
            else
              match parse_elements f (c1 :: r1) with
              | Ok (vs, rest) => Ok (Arr vs, rest)
              | Bad => Bad
              | OutOfFuel => OutOfFuel
              end
        end
      else if (c =? 34)%N then
        match string_body r with
        | Some (t, rest) => Ok (Str t, rest)
        | None => Bad
        end
      else if (c =? 116)%N then keyword "true" (Bool true) (c :: r)
      else if (c =? 102)%N then keyword "false" (Bool false) (c :: r)
      else if (c =? 110)%N then keyword "null" Null (c :: r)
      else
        match number (c :: r) with
        | Some p => Ok p
        | None => Bad
        end
  end.
Proof. reflexivity. Qed.

Lemma parse_elements_S (f : nat) (s : jsstring) :
  parse_elements (S f) s =
  match parse_value f s with
  | Ok (v, rest) =>
      match skip_ws rest with
      | [] => Bad
      | c :: r =>
          if (c =? 44)%N then
            match parse_elements f r with
            | Ok (vs, rest') => Ok (v :: vs, rest')
            | Bad => Bad
            | OutOfFuel => OutOfFuel
            end
          else if (c =? 93)%N then Ok ([v], r)
          else Bad
      end
  | Bad => Bad
  | OutOfFuel => OutOfFuel
  end.
Proof. reflexivity. Qed.

Lemma parse_members_S (f : nat) (s : jsstring) :
  parse_members (S f) s =
  match skip_ws s with
  | [] => Bad
  | q :: r0 =>
      if negb (q =? 34)%N then Bad
      else
        match string_body r0 with
        | None => Bad
        | Some (k, r1) =>
            match skip_ws r1 with
            | [] => Bad
            | c :: r2 =>
                if negb (c =? 58)%N then Bad
                else
                  match parse_value f r2 with
                  | Ok (v, rest) =>
                      match skip_ws rest with
                      | [] => Bad
                      | c' :: r3 =>
                          if (c' =? 44)%N then
                            match parse_members f r3 with
                            | Ok (ms, rest') => Ok ((k, v) :: ms, rest')
                            | Bad => Bad
                            | OutOfFuel => OutOfFuel
                            end
                          else if (c' =? 125)%N then Ok ([(k, v)], r3)
                          else Bad
                      end
                  | Bad => Bad
                  | OutOfFuel => OutOfFuel
                  end
            end
        end
  end.
Proof. reflexivity. Qed.

(** What a successful parse leaves is shorter than what it was given. *)
Lemma parse_length (fuel : nat) :
  (forall s v rest, parse_value fuel s = Ok (v, rest) -> length rest < length s)
  /\ (forall s vs rest,
         parse_elements fuel s = Ok (vs, rest) -> length rest < length s)
  /\ (forall s ms rest,
         parse_members fuel s = Ok (ms, rest) -> length rest < length s).
Proof.
  induction fuel as [|f (IHv & IHe & IHm)]; [repeat split; discriminate|].
  split; [|split].
  - intros s v rest H. rewrite parse_value_S in H.
    pose proof (skip_ws_length s) as Hs.
    destruct (skip_ws s) as [|c r]; [discriminate|]. cbn [length] in Hs.
    destruct (c =? 123)%N.
    { pose proof (skip_ws_length r) as Hr.
      destruct (skip_ws r) as [|c1 r1]; [discriminate|]. cbn [length] in Hr.
      destruct (c1 =? 125)%N; [injection H as _ <-; lia|].
      destruct (parse_members f (c1 :: r1)) as [[ms rest']| |] eqn:E;
        try discriminate.
      injection H as _ <-. apply IHm in E. cbn [length] in E. lia. }
    destruct (c =? 91)%N.
    { pose proof (skip_ws_length r) as Hr.
      destruct (skip_ws r) as [|c1 r1]; [discriminate|]. cbn [length] in Hr.
      destruct (c1 =? 93)%N; [injection H as _ <-; lia|].
      destruct (parse_elements f (c1 :: r1)) as [[vs rest']| |] eqn:E;
        try discriminate.
      injection H as _ <-. apply IHe in E. cbn [length] in E. lia. }
    destruct (c =? 34)%N.
    { destruct (string_body r) as [[t rest']|] eqn:E; [|discriminate].
      injection H as _ <-. apply (string_body_length (length r)) in E; lia. }
    destruct (c =? 116)%N.
    { apply keyword_length in H; cbn [length] in *; cbn; lia. }
    destruct (c =? 102)%N.
    { apply keyword_length in H; cbn [length] in *; cbn; lia. }
    destruct (c =? 110)%N.
    { apply keyword_length in H; cbn [length] in *; cbn; lia. }
    destruct (number (c :: r)) as [[v' rest']|] eqn:E; [|discriminate].
    injection H as _ <-. apply number_length in E. cbn [length] in E. lia.
  - intros s vs rest H. rewrite parse_elements_S in H.
    destruct (parse_value f s) as [[v rest0]| |] eqn:E; try discriminate.
    apply IHv in E. pose proof (skip_ws_length rest0) as Hs.
    destruct (skip_ws rest0) as [|c r]; [discriminate|]. cbn [length] in Hs.
    destruct (c =? 44)%N.
    { destruct (parse_elements f r) as [[vs' rest']| |] eqn:E2; try discriminate.
      injection H as _ <-. apply IHe in E2. lia. }
    destruct (c =? 93)%N; [|discriminate]. injection H as _ <-. lia.
  - intros s ms rest H. rewrite parse_members_S in H.
    pose proof (skip_ws_length s) as Hs.
    destruct (skip_ws s) as [|q r0]; [discriminate|]. cbn [length] in Hs.
    destruct (negb (q =? 34)%N); [discriminate|].
    destruct (string_body r0) as [[k r1]|] eqn:Ek; [|discriminate].
    apply (string_body_length (length r0)) in Ek; [|lia].
    pose proof (skip_ws_length r1) as Hr1.
    destruct (skip_ws r1) as [|c r2]; [discriminate|]. cbn [length] in Hr1.
    destruct (negb (c =? 58)%N); [discriminate|].
    destruct (parse_value f r2) as [[v rest0]| |] eqn:E; try discriminate.
    apply IHv in E. pose proof (skip_ws_length rest0) as Hs0.
    destruct (skip_ws rest0) as [|c' r3]; [discriminate|]. cbn [length] in Hs0.
    destruct (c' =? 44)%N.
    { destruct (parse_members f r3) as [[ms' rest']| |] eqn:E2; try discriminate.
      injection H as _ <-. apply IHm in E2. lia. }
    destruct (c' =? 125)%N; [|discriminate]. injection H as _ <-. lia.
Qed.

(** The fuel [JSON.parse] gives the descent is never used up. *)
Lemma parse_fuel (fuel : nat) :
  (forall s, 2 * length s + 1 <= fuel -> parse_value fuel s <> OutOfFuel)
  /\ (forall s, 2 * length s + 2 <= fuel -> parse_elements fuel s <> OutOfFuel)
  /\ (forall s, 2 * length s + 2 <= fuel -> parse_members fuel s <> OutOfFuel).
Proof.
  induction fuel as [|f (IHv & IHe & IHm)]; [repeat split; intros; lia|].
  split; [|split].
  - intros s Hf. rewrite parse_value_S.
    pose proof (skip_ws_length s) as Hs.
    destruct (skip_ws s) as [|c r]; [discriminate|]. cbn [length] in Hs.
    destruct (c =? 123)%N.
    { pose proof (skip_ws_length r) as Hr.
      destruct (skip_ws r) as [|c1 r1]; [discriminate|]. cbn [length] in Hr.
      destruct (c1 =? 125)%N; [discriminate|].
      destruct (parse_members f (c1 :: r1)) as [[ms rest']| |] eqn:E;
        try discriminate.
      exfalso. revert E. apply IHm. cbn [length]. lia. }
    destruct (c =? 91)%N.
    { pose proof (skip_ws_length r) as Hr.
      destruct (skip_ws r) as [|c1 r1]; [discriminate|]. cbn [length] in Hr.
      destruct (c1 =? 93)%N; [discriminate|].
      destruct (parse_elements f (c1 :: r1)) as [[vs rest']| |] eqn:E;
        try discriminate.
      exfalso. revert E. apply IHe. cbn [length]. lia. }
    destruct (c =? 34)%N.
    { destruct (string_body r) as [[t rest']|]; discriminate. }
    unfold keyword.
    repeat match goal with
           | |- context [if ?b then _ else _] => destruct b
           end; try discriminate.
    destruct (number (c :: r)); discriminate.
  - intros s Hf. rewrite parse_elements_S.
    destruct (parse_value f s) as [[v rest0]| |] eqn:E; try discriminate.
    2:{ exfalso. revert E. apply IHv. lia. }
    apply (proj1 (parse_length f)) in E.
    pose proof (skip_ws_length rest0) as Hs.
    destruct (skip_ws rest0) as [|c r]; [discriminate|]. cbn [length] in Hs.
    destruct (c =? 44)%N.
    { destruct (parse_elements f r) as [[vs' rest']| |] eqn:E2; try discriminate.
      exfalso. revert E2. apply IHe. lia. }
    destruct (c =? 93)%N; discriminate.
  - intros s Hf. rewrite parse_members_S.
    pose proof (skip_ws_length s) as Hs.
    destruct (skip_ws s) as [|q r0]; [discriminate|]. cbn [length] in Hs.
    destruct (negb (q =? 34)%N); [discriminate|].
    destruct (string_body r0) as [[k r1]|] eqn:Ek; [|discriminate].
    apply (string_body_length (length r0)) in Ek; [|lia].
    pose proof (skip_ws_length r1) as Hr1.
    destruct (skip_ws r1) as [|c r2]; [discriminate|]. cbn [length] in Hr1.
    destruct (negb (c =? 58)%N); [discriminate|].
    destruct (parse_value f r2) as [[v rest0]| |] eqn:E; try discriminate.
    2:{ exfalso. revert E. apply IHv. lia. }
    apply (proj1 (parse_length f)) in E.
    pose proof (skip_ws_length rest0) as Hs0.
    destruct (skip_ws rest0) as [|c' r3]; [discriminate|]. cbn [length] in Hs0.
    destruct (c' =? 44)%N.
    { destruct (parse_members f r3) as [[ms' rest']| |] eqn:E2; try discriminate.
      exfalso. revert E2. apply IHm. lia. }
    destruct (c' =? 125)%N; discriminate.
Qed.

(** [JSON.parse] throws only on text that is not one JSON value. *)
Lemma parse_never_out_of_fuel (text : jsstring) :
  parse_value (2 * length text + 2) text <> OutOfFuel.
Proof. apply (proj1 (parse_fuel _)). lia. Qed.

End JSONFacts.

(* ================================================================= *)
(** ** Facts about the decoder *)

Module DecoderFacts.
Import JS JSFacts StreamDecoder Props.

Lemma decode_app (st : TextDecoder.state) (a b : list byte) :
  TextDecoder.decode st (a ++ b) =
  let (st1, o1) := TextDecoder.decode st a in
  let (st2, o2) := TextDecoder.decode st1 b in
  (st2, o1 ++ o2).
Proof.
  revert st. induction a as [|x a IH]; intros st; simpl.
  - now destruct (TextDecoder.decode st b).
  - destruct (TextDecoder.handler st (Byte.to_N x)) as [st1 o1].
    rewrite IH. destruct (TextDecoder.decode st1 a) as [st2 o2].
    destruct (TextDecoder.decode st2 b) as [st3 o3].
    now rewrite app_assoc.
Qed.

Lemma extract_S (fuel : nat) (textBuffer : jsstring) :
  extract_lines (S fuel) textBuffer =
  match indexOf LF textBuffer with
  | None => ([], textBuffer, false)
  | Some newlineIndex =>
      let line := slice_to newlineIndex textBuffer in
      let textBuffer := slice_from (newlineIndex + 1) textBuffer in
      let line := if endsWith CR line then drop_last line else line in
      if startsWith (lit ":") line || eqb (trim line) [] then
        extract_lines fuel textBuffer
      else if negb (startsWith (lit "data: ") line) then
        extract_lines fuel textBuffer
      else
        let jsonStr := trim (slice_from 6 line) in
        if eqb jsonStr (lit "[DONE]") then ([], textBuffer, true)
        else
          match delta_content jsonStr with
          | Normal content =>
              let '(calls, buffer, done) := extract_lines fuel textBuffer in
              (deliver content ++ calls, buffer, done)
          | Throw _ => ([], line ++ [LF] ++ textBuffer, false)
          end
  end.
Proof. reflexivity. Qed.

(** The inner loop leaves a buffer without a line feed alone. *)
Lemma extract_no_LF (fuel : nat) (buf : jsstring) :
  ~ In LF buf -> extract_lines fuel buf = ([], buf, false).
Proof.
  intros H. destruct fuel; [reflexivity|].
  now rewrite extract_S, indexOf_None.
Qed.

(** One iteration of the inner loop on a complete line. *)
Lemma extract_line (fuel : nat) (l rest : jsstring) :
  ~ In LF l ->
  extract_lines (S fuel) (l ++ LF :: rest) =
  match line_verdict l with
  | Go calls =>
      let '(c, b, d) := extract_lines fuel rest in (calls ++ c, b, d)
  | Stop => ([], rest, true)
  | Retry => ([], strip_cr l ++ [LF] ++ rest, false)
  end.
Proof.
  intros H. rewrite extract_S, indexOf_app by exact H.
  cbv zeta. rewrite slice_to_app, slice_from_app.
  unfold line_verdict, strip_cr.
  set (line := if endsWith CR l then drop_last l else l).
  destruct (startsWith (lit ":") line || eqb (trim line) []).
  - now destruct (extract_lines fuel rest) as [[c b] d].
  - destruct (negb (startsWith (lit "data: ") line)).
    + now destruct (extract_lines fuel rest) as [[c b] d].
    + destruct (eqb (trim (slice_from 6 line)) (lit "[DONE]")); [reflexivity|].
      destruct (delta_content (trim (slice_from 6 line))); reflexivity.
Qed.

(** The fuel does not matter once it covers the buffer. *)
Lemma extract_fuel (f1 : nat) :
  forall f2 buf, length buf <= f1 -> length buf <= f2 ->
                 extract_lines f1 buf = extract_lines f2 buf.
Proof.
  induction f1 as [|f1 IH]; intros f2 buf H1 H2.
  - destruct buf; [|simpl in H1; lia]. now destruct f2.
  - destruct (in_dec N.eq_dec LF buf) as [Hin|Hno].
    2:{ now rewrite !extract_no_LF. }
    apply in_split in Hin.
    assert (exists l r, buf = l ++ LF :: r /\ ~ In LF l) as (l & r & -> & Hl).
    { clear -Hin. destruct Hin as (l1 & l2 & ->).
      induction l1 as [|x l1 IHl]; [exists [], l2; split; auto|].
      destruct (N.eq_dec x LF) as [->|Hx].
      - exists [], (l1 ++ LF :: l2). split; auto.
      - destruct IHl as (l & r & E & Hn). exists (x :: l), r. split.
        + simpl. now rewrite E.
        + intros [E1|E1]; [congruence|contradiction]. }
    rewrite length_app in H1, H2. simpl in H1, H2.
    destruct f2 as [|f2]; [lia|].
    rewrite !extract_line by exact Hl.
    destruct (line_verdict l); try reflexivity.
    rewrite (IH f2 r) by lia. reflexivity.
Qed.

Lemma strip_cr_app (l p : jsstring) :
  endsWith CR l = false ->
  strip_cr (l ++ p) = l ++ strip_cr p.
Proof.
  intros Hl. unfold strip_cr. destruct p as [|c p].
  - rewrite app_nil_r, Hl. simpl. now rewrite app_nil_r.
  - rewrite endsWith_app by discriminate.
    destruct (endsWith CR (c :: p)); [|reflexivity].
    unfold drop_last. now rewrite removelast_app by discriminate.
Qed.

Lemma trim_strip_cr (p : jsstring) : trim (strip_cr p) = trim p.
Proof.
  unfold strip_cr. destruct (endsWith CR p) eqn:E; [|reflexivity].
  apply endsWith_snoc in E as [q ->]. unfold drop_last.
  rewrite removelast_last. symmetry. now apply trim_snoc_space.
Qed.

Lemma strip_cr_space (p : jsstring) :
  forallb is_space p = true -> forallb is_space (strip_cr p) = true.
Proof.
  unfold strip_cr. destruct (endsWith CR p) eqn:E; [|auto].
  apply endsWith_snoc in E as [q ->]. unfold drop_last.
  rewrite removelast_last, forallb_app. intros H.
  now apply andb_true_iff in H as [H _].
Qed.

Lemma verdict_DONE (ws : jsstring) :
  forallb is_space ws = true -> line_verdict (lit "data: [DONE]" ++ ws) = Stop.
Proof.
  intros H. unfold line_verdict.
  rewrite strip_cr_app by reflexivity.
  apply strip_cr_space in H. set (w := strip_cr ws) in *.
  change (lit "data: [DONE]" ++ w) with (lit "data: " ++ (lit "[DONE]" ++ w)).
  rewrite startsWith_app.
  change (slice_from 6 (lit "data: " ++ lit "[DONE]" ++ w)) with (lit "[DONE]" ++ w).
  rewrite (trim_app_space _ _ H).
  change (lit "data: " ++ lit "[DONE]" ++ w) with (lit "data: [DONE]" ++ w).
  rewrite (trim_app_space _ _ H).
  reflexivity.
Qed.

Lemma verdict_data (p c : jsstring) :
  well_formed (p, c) ->
  line_verdict (data_line p) = Go (deliver (Some (JSON.Str c))).
Proof.
  intros [_ Hp]. simpl in Hp. unfold line_verdict, data_line.
  rewrite strip_cr_app by reflexivity.
  rewrite startsWith_app.
  change (slice_from 6 (lit "data: " ++ strip_cr p)) with (strip_cr p).
  rewrite trim_strip_cr, Hp.
  assert (Hd : eqb (trim p) (lit "[DONE]") = false).
  { apply eqb_neq. intros E. rewrite E in Hp. vm_compute in Hp. discriminate. }
  rewrite Hd.
  destruct (trim_cons_nonspace 100 (lit "ata: " ++ strip_cr p) eq_refl) as [t Ht].
  change (lit "data: " ++ strip_cr p) with (100%N :: lit "ata: " ++ strip_cr p).
  rewrite Ht. reflexivity.
Qed.

Lemma split_first (c : N) (s : jsstring) :
  In c s -> exists l r, s = l ++ c :: r /\ ~ In c l.
Proof.
  induction s as [|x s IH]; simpl; [tauto|].
  destruct (N.eq_dec x c) as [->|Hx].
  - intros _. exists [], s. split; auto.
  - intros [E|Hin]; [contradiction|].
    destruct (IH Hin) as (l & r & -> & Hn). exists (x :: l), r. split; auto.
    intros [E|E]; [congruence|contradiction].
Qed.

Lemma first_unique (c : N) (l l' a b : jsstring) :
  ~ In c l -> ~ In c l' -> l ++ c :: a = l' ++ c :: b -> l = l' /\ a = b.
Proof.
  revert l'. induction l as [|x l IH]; intros [|y l'] Hl Hl' E; simpl in *.
  - injection E as ->. auto.
  - injection E as <- _. tauto.
  - injection E as -> _. tauto.
  - injection E as -> E. destruct (IH l') as [-> ->]; auto.
Qed.

Lemma first_in_app (c : N) (a b l z : jsstring) :
  ~ In c a -> ~ In c l -> a ++ b = l ++ c :: z ->
  exists w, l = a ++ w /\ b = w ++ c :: z.
Proof.
  revert l. induction a as [|x a IH]; intros l Ha Hl E; simpl in *.
  - exists l. auto.
  - destruct l as [|y l]; simpl in E.
    + injection E as -> _. tauto.
    + injection E as -> E.
      assert (Ha' : ~ In c a) by tauto.
      assert (Hl' : ~ In c l) by (intros Hi; apply Hl; now right).
      destruct (IH l Ha' Hl' E) as (w & Hw1 & Hw2).
      exists w. subst. auto.
Qed.

Lemma extract_line_len (l rest : jsstring) :
  ~ In LF l ->
  extract_lines (length (l ++ LF :: rest)) (l ++ LF :: rest) =
  match line_verdict l with
  | Go calls =>
      let '(c, b, d) := extract_lines (length rest) rest in (calls ++ c, b, d)
  | Stop => ([], rest, true)
  | Retry => ([], strip_cr l ++ [LF] ++ rest, false)
  end.
Proof.
  intros H. rewrite length_app. simpl length. rewrite Nat.add_succ_r.
  rewrite extract_line by exact H.
  destruct (line_verdict l); try reflexivity.
  rewrite (extract_fuel (length l + length rest) (length rest) rest) by lia.
  reflexivity.
Qed.

Lemma unlines_cons l ls : unlines (l :: ls) = l ++ LF :: unlines ls.
Proof. unfold unlines. simpl. now rewrite <- app_assoc. Qed.

Lemma lines_prefix (ls : list (jsstring * list JSON.value)) (ws : jsstring) :
  Forall passes ls -> forallb is_space ws = true ->
  forall X Y,
    unlines (map fst ls) ++ sentinel ++ ws = X ++ Y ->
    (exists ls1 ls2 buf,
        ls = ls1 ++ ls2 /\ ~ In LF buf /\
        extract_lines (length X) X = (flat_map snd ls1, buf, false) /\
        buf ++ Y = unlines (map fst ls2) ++ sentinel ++ ws)
    \/ (exists rest,
           extract_lines (length X) X = (flat_map snd ls, rest, true) /\
           forallb is_space rest = true).
Proof.
  intros Hls Hws. induction Hls as [|[l calls] ls [Hl Hv] Hls IH]; intros X Y E.
  - destruct (in_dec N.eq_dec LF X) as [Hin|Hno].
    + right. apply split_first in Hin as (l & r & -> & Hl).
      change (sentinel ++ ws = (l ++ LF :: r) ++ Y) in E.
      rewrite <- app_assoc in E. change ((LF :: r) ++ Y) with (LF :: r ++ Y) in E.
      apply first_in_app in E as (w & -> & Ew); auto.
      2:{ vm_compute. intuition discriminate. }
      subst ws. rewrite forallb_app in Hws. apply andb_true_iff in Hws as [Hw Hr].
      simpl in Hr. rewrite forallb_app in Hr. apply andb_true_iff in Hr as [Hr _].
      exists r. split; [|exact Hr].
      rewrite extract_line_len by exact Hl.
      now rewrite verdict_DONE.
    + left. exists [], [], X. repeat split; auto.
      now apply extract_no_LF.
  - destruct (in_dec N.eq_dec LF X) as [Hin|Hno].
    + apply split_first in Hin as (l' & r & -> & Hl').
      simpl map in E. rewrite unlines_cons in E. simpl in Hl, Hv.
      rewrite <- !app_assoc in E.
      change ((LF :: unlines (map fst ls)) ++ sentinel ++ ws)
        with (LF :: unlines (map fst ls) ++ sentinel ++ ws) in E.
      change ((LF :: r) ++ Y) with (LF :: r ++ Y) in E.
      apply first_unique in E as [<- E]; auto.
      rewrite extract_line_len by exact Hl. rewrite Hv.
      destruct (IH r Y) as [(ls1 & ls2 & buf & -> & Hb & Hx & Hy)|(rest & Hx & Hr)].
      { now rewrite E. }
      * left. exists ((l, calls) :: ls1), ls2, buf. rewrite Hx.
        repeat split; auto.
      * right. exists rest. rewrite Hx. split; auto.
    + left. exists [], ((l, calls) :: ls), X. repeat split; auto.
      now apply extract_no_LF.
Qed.

Lemma split_no_sep (c : N) (s : jsstring) : ~ In c s -> split c s = [s].
Proof.
  induction s as [|x s IH]; simpl; [reflexivity|]. intros H.
  destruct (N.eqb_spec x c) as [->|_]; [tauto|].
  rewrite IH by tauto. reflexivity.
Qed.

Lemma trim_space (s : jsstring) : forallb is_space s = true -> trim s = [].
Proof. intros H. exact (trim_app_space [] s H). Qed.

Lemma flush_space (s : jsstring) : forallb is_space s = true -> flush s = [].
Proof. intros H. unfold flush. now rewrite trim_space. Qed.

Lemma flush_line_sentinel (ws : jsstring) :
  forallb is_space ws = true -> flush_line (sentinel ++ ws) = [].
Proof.
  intros H. unfold flush_line.
  change (sentinel ++ ws) with (lit "data: " ++ (lit "[DONE]" ++ ws)).
  rewrite startsWith_app.
  change (slice_from 6 (lit "data: " ++ lit "[DONE]" ++ ws)) with (lit "[DONE]" ++ ws).
  rewrite (trim_app_space _ _ H).
  change (lit "data: " ++ lit "[DONE]" ++ ws) with (sentinel ++ ws).
  rewrite (trim_app_space _ _ H).
  reflexivity.
Qed.

Lemma flush_sentinel (ws : jsstring) :
  forallb is_space ws = true -> ~ In LF ws -> flush (sentinel ++ ws) = [].
Proof.
  intros H Hn. unfold flush.
  rewrite split_no_sep.
  2:{ intros Hi. apply in_app_or in Hi as [Hi|Hi]; [|tauto].
      vm_compute in Hi. intuition discriminate. }
  destruct (nonempty (trim (sentinel ++ ws))); [|reflexivity].
  cbn [flat_map]. rewrite app_nil_r. now apply flush_line_sentinel.
Qed.

Lemma read_loop_good (chunks : list (list byte)) :
  forall d buf ls ws,
    Forall passes ls -> forallb is_space ws = true -> ~ In LF buf ->
    buf ++ snd (TextDecoder.decode d (concat chunks))
    = unlines (map fst ls) ++ sentinel ++ ws ->
    exists st',
      read_loop (mk_reader d buf false) chunks = (flat_map snd ls, st')
      /\ flush (textBuffer st') = [].
Proof.
  induction chunks as [|value chunks IH]; intros d buf ls ws Hls Hws Hbuf E.
  - change (buf ++ [] = unlines (map fst ls) ++ sentinel ++ ws) in E.
    rewrite app_nil_r in E. subst buf.
    destruct ls as [|[l c] ls].
    + exists (mk_reader d (sentinel ++ ws) false). split; [reflexivity|].
      cbn [textBuffer]. apply flush_sentinel; [exact Hws|].
      intros Hi. apply Hbuf. apply in_or_app. right. apply in_or_app. now right.
    + exfalso. apply Hbuf. cbn [map fst]. rewrite unlines_cons.
      apply in_or_app. left. apply in_or_app. right. now left.
  - cbn [concat] in E. rewrite decode_app in E.
    cbn [read_loop]. unfold feed. cbn [decoder textBuffer].
    destruct (TextDecoder.decode d value) as [d1 t].
    destruct (TextDecoder.decode d1 (concat chunks)) as [d2 t2] eqn:E2.
    cbn [snd] in E. rewrite app_assoc in E. symmetry in E.
    destruct (lines_prefix ls ws Hls Hws _ _ E)
      as [(ls1 & ls2 & b & -> & Hb & Hx & Hy)|(rest & Hx & Hr)].
    + rewrite Hx. cbn [streamDone].
      apply Forall_app in Hls as [_ Hls2].
      destruct (IH d1 b ls2 ws Hls2 Hws Hb) as (st' & Hrl & Hfl).
      { rewrite E2. exact Hy. }
      rewrite Hrl. exists st'. split; [|exact Hfl].
      now rewrite flat_map_app.
    + rewrite Hx. cbn [streamDone]. eexists. split; [reflexivity|].
      cbn [textBuffer]. now apply flush_space.
Qed.

Lemma passes_delta_line (p : jsstring * jsstring) :
  well_formed p -> passes (delta_line p).
Proof.
  intros H. split.
  - destruct H as [H _]. cbn [delta_line fst]. unfold data_line. intros Hi.
    apply in_app_or in Hi as [Hi|Hi]; [|tauto].
    vm_compute in Hi. intuition discriminate.
  - destruct p as [p c]. now apply verdict_data.
Qed.

Lemma calls_delta_lines (lines : list (jsstring * jsstring)) :
  flat_map snd (map delta_line lines)
  = map JSON.Str (filter nonempty (map snd lines)).
Proof.
  induction lines as [|[p c] lines IH]; [reflexivity|].
  cbn [map flat_map filter snd delta_line]. rewrite IH.
  unfold deliver. cbn [JSON.truthy]. now destruct (nonempty c).
Qed.

Lemma deltas_map_onDelta (cs : list JSON.value) :
  deltas (map onDelta cs ++ [onDone]) = cs.
Proof. induction cs as [|c cs IH]; simpl; congruence. Qed.

Lemma texts_map_Str (l : list jsstring) : texts (map JSON.Str l) = l.
Proof. induction l as [|s l IH]; simpl; congruence. Qed.

Lemma concat_filter_nonempty (l : list jsstring) :
  concat (filter nonempty l) = concat l.
Proof.
  induction l as [|s l IH]; [reflexivity|].
  destruct s; simpl; [exact IH|]. now rewrite IH.
Qed.

Lemma verdict_payload (p : jsstring) (content : option JSON.value) :
  delta_content (trim p) = Normal content ->
  line_verdict (data_line p) = Go (deliver content).
Proof.
  intros Hp. unfold line_verdict, data_line.
  rewrite strip_cr_app by reflexivity.
  rewrite startsWith_app.
  change (slice_from 6 (lit "data: " ++ strip_cr p)) with (strip_cr p).
  rewrite trim_strip_cr, Hp.
  assert (Hd : eqb (trim p) (lit "[DONE]") = false).
  { apply eqb_neq. intros E. rewrite E in Hp. vm_compute in Hp. discriminate. }
  rewrite Hd.
  destruct (trim_cons_nonspace 100 (lit "ata: " ++ strip_cr p) eq_refl) as [t Ht].
  change (lit "data: " ++ strip_cr p) with (100%N :: lit "ata: " ++ strip_cr p).
  rewrite Ht. reflexivity.
Qed.

Lemma verdict_throw (p : jsstring) (e : exn) :
  delta_content (trim p) = Throw e ->
  trim p <> lit "[DONE]" ->
  line_verdict (data_line p) = Retry.
Proof.
  intros Hp Hd. unfold line_verdict, data_line.
  rewrite strip_cr_app by reflexivity.
  rewrite startsWith_app.
  change (slice_from 6 (lit "data: " ++ strip_cr p)) with (strip_cr p).
  rewrite trim_strip_cr, Hp.
  apply eqb_neq in Hd. rewrite Hd.
  destruct (trim_cons_nonspace 100 (lit "ata: " ++ strip_cr p) eq_refl) as [t Ht].
  change (lit "data: " ++ strip_cr p) with (100%N :: lit "ata: " ++ strip_cr p).
  rewrite Ht. reflexivity.
Qed.

Lemma no_LF_data_line (p : jsstring) : ~ In LF p -> ~ In LF (data_line p).
Proof.
  intros H Hi. unfold data_line in Hi.
  apply in_app_or in Hi as [Hi|Hi]; [|tauto].
  vm_compute in Hi. intuition discriminate.
Qed.

Lemma no_LF_strip_cr (p : jsstring) : ~ In LF p -> ~ In LF (strip_cr p).
Proof.
  unfold strip_cr. destruct (endsWith CR p) eqn:E; [|auto].
  apply endsWith_snoc in E as [q ->]. unfold drop_last.
  rewrite removelast_last. intros H Hi. apply H. apply in_or_app. now left.
Qed.

Lemma flush_line_throw (p : jsstring) (e : exn) :
  delta_content (trim p) = Throw e -> flush_line (data_line p) = [].
Proof.
  intros Hp. unfold flush_line, data_line.
  rewrite startsWith_app.
  change (slice_from 6 (lit "data: " ++ p)) with p.
  rewrite Hp.
  repeat match goal with |- context [if ?b then _ else _] => destruct b end;
    reflexivity.
Qed.

Lemma flush_line_payload (p : jsstring) (content : option JSON.value) :
  delta_content (trim p) = Normal content ->
  flush_line (data_line p) = deliver content.
Proof.
  intros Hp. unfold flush_line, data_line.
  rewrite startsWith_app.
  change (slice_from 6 (lit "data: " ++ p)) with p.
  rewrite Hp.
  assert (Hd : eqb (trim p) (lit "[DONE]") = false).
  { apply eqb_neq. intros E. rewrite E in Hp. vm_compute in Hp. discriminate. }
  rewrite Hd.
  destruct (trim_cons_nonspace 100 (lit "ata: " ++ p) eq_refl) as [t Ht].
  change (lit "data: " ++ p) with (100%N :: lit "ata: " ++ p).
  rewrite Ht. reflexivity.
Qed.

Lemma lines_prefix_open (ls : list (jsstring * list JSON.value)) (tail : jsstring) :
  Forall passes ls -> ~ In LF tail ->
  forall X Y,
    unlines (map fst ls) ++ tail = X ++ Y ->
    exists ls1 ls2 buf,
      ls = ls1 ++ ls2 /\ ~ In LF buf /\
      extract_lines (length X) X = (flat_map snd ls1, buf, false) /\
      buf ++ Y = unlines (map fst ls2) ++ tail.
Proof.
  intros Hls Htail. induction Hls as [|[l calls] ls [Hl Hv] Hls IH]; intros X Y E.
  - exists [], [], X. repeat split; auto.
    + intros Hi. apply Htail. change (tail = X ++ Y) in E. rewrite E.
      apply in_or_app. now left.
    + apply extract_no_LF. intros Hi. apply Htail.
      change (tail = X ++ Y) in E. rewrite E. apply in_or_app. now left.
  - destruct (in_dec N.eq_dec LF X) as [Hin|Hno].
    + apply split_first in Hin as (l' & r & -> & Hl').
      cbn [map fst] in E. rewrite unlines_cons in E. cbn [fst snd] in Hl, Hv.
      rewrite <- !app_assoc in E.
      change ((LF :: unlines (map fst ls)) ++ tail)
        with (LF :: unlines (map fst ls) ++ tail) in E.
      change ((LF :: r) ++ Y) with (LF :: r ++ Y) in E.
      apply first_unique in E as [<- E]; auto.
      rewrite extract_line_len by exact Hl. rewrite Hv.
      destruct (IH r Y E) as (ls1 & ls2 & buf & -> & Hb & Hx & Hy).
      exists ((l, calls) :: ls1), ls2, buf. rewrite Hx.
      repeat split; auto.
    + exists [], ((l, calls) :: ls), X. repeat split; auto.
      now apply extract_no_LF.
Qed.

Lemma read_loop_open (chunks : list (list byte)) :
  forall d buf ls tail,
    Forall passes ls -> ~ In LF tail -> ~ In LF buf ->
    buf ++ snd (TextDecoder.decode d (concat chunks))
    = unlines (map fst ls) ++ tail ->
    exists st',
      read_loop (mk_reader d buf false) chunks = (flat_map snd ls, st')
      /\ textBuffer st' = tail.
Proof.
  induction chunks as [|value chunks IH]; intros d buf ls tail Hls Htail Hbuf E.
  - change (buf ++ [] = unlines (map fst ls) ++ tail) in E.
    rewrite app_nil_r in E. subst buf.
    destruct ls as [|[l c] ls].
    + exists (mk_reader d tail false). split; reflexivity.
    + exfalso. apply Hbuf. cbn [map fst]. rewrite unlines_cons.
      apply in_or_app. left. apply in_or_app. right. now left.
  - cbn [concat] in E. rewrite decode_app in E.
    cbn [read_loop]. unfold feed. cbn [decoder textBuffer].
    destruct (TextDecoder.decode d value) as [d1 t].
    destruct (TextDecoder.decode d1 (concat chunks)) as [d2 t2] eqn:E2.
    cbn [snd] in E. rewrite app_assoc in E. symmetry in E.
    destruct (lines_prefix_open ls tail Hls Htail _ _ E)
      as (ls1 & ls2 & b & -> & Hb & Hx & Hy).
    rewrite Hx. cbn [streamDone].
    apply Forall_app in Hls as [_ Hls2].
    destruct (IH d1 b ls2 tail Hls2 Htail Hb) as (st' & Hrl & Hfl).
    { rewrite E2. exact Hy. }
    rewrite Hrl. exists st'. split; [|exact Hfl].
    now rewrite flat_map_app.
Qed.

Lemma flush_single (raw : jsstring) :
  ~ In LF raw -> flush_line raw = [] -> flush raw = [].
Proof.
  intros H Hf. unfold flush. destruct (nonempty (trim raw)); [|reflexivity].
  rewrite split_no_sep by exact H. cbn [flat_map]. now rewrite Hf.
Qed.
Lemma deliver_truthy (content : option JSON.value) :
  Forall (fun c => JSON.truthy c = true) (deliver content).
Proof.
  destruct content as [c|]; cbn [deliver]; [|constructor].
  destruct (JSON.truthy c) eqn:E; repeat constructor. exact E.
Qed.

Lemma extract_lines_truthy (fuel : nat) :
  forall buf,
    Forall (fun c => JSON.truthy c = true) (fst (fst (extract_lines fuel buf))).
Proof.
  induction fuel as [|fuel IH]; intros buf; [constructor|].
  rewrite extract_S. destruct (indexOf LF buf) as [i|]; [|constructor].
  cbv zeta.
  repeat match goal with
         | |- context [if ?b then _ else _] => destruct b
         end; try apply IH; try (cbn [fst]; constructor).
  all: destruct (delta_content _) as [content|e]; [|constructor].
  all: specialize (IH (slice_from (i + 1) buf)).
  all: destruct (extract_lines fuel (slice_from (i + 1) buf)) as [[c b] d].
  all: cbn [fst] in *; apply Forall_app; split; [apply deliver_truthy|exact IH].
Qed.

Lemma flush_line_truthy (raw : jsstring) :
  Forall (fun c => JSON.truthy c = true) (flush_line raw).
Proof.
  unfold flush_line.
  repeat match goal with
         | |- context [if ?b then _ else _] => destruct b
         end; try constructor.
  destruct (delta_content _); [apply deliver_truthy|constructor].
Qed.

Lemma flush_truthy (buf : jsstring) :
  Forall (fun c => JSON.truthy c = true) (flush buf).
Proof.
  unfold flush. destruct (nonempty (trim buf)); [|constructor].
  induction (split LF buf) as [|raw l IH]; [constructor|].
  cbn [flat_map]. apply Forall_app. split; [apply flush_line_truthy|exact IH].
Qed.

Lemma feed_truthy (st : reader_state) (value : list byte) :
  Forall (fun c => JSON.truthy c = true) (fst (feed st value)).
Proof.
  unfold feed. destruct (TextDecoder.decode (decoder st) value) as [d t].
  pose proof (extract_lines_truthy (length (textBuffer st ++ t)) (textBuffer st ++ t)) as H.
  destruct (extract_lines _ _) as [[c b] dn]. exact H.
Qed.

Lemma read_loop_truthy (chunks : list (list byte)) :
  forall st, Forall (fun c => JSON.truthy c = true) (fst (read_loop st chunks)).
Proof.
  induction chunks as [|value chunks IH]; intros st; [constructor|].
  cbn [read_loop]. pose proof (feed_truthy st value) as H.
  destruct (feed st value) as [c st1]. cbn [fst] in H.
  destruct (streamDone st1); [exact H|].
  specialize (IH st1). destruct (read_loop st1 chunks) as [c' st2].
  cbn [fst] in *. apply Forall_app. now split.
Qed.

Lemma streamChat_calls_truthy (chunks : list (list byte)) (c : JSON.value) :
  In (onDelta c) (streamChat chunks) -> JSON.truthy c = true.
Proof.
  unfold streamChat. pose proof (read_loop_truthy chunks start) as H.
  destruct (read_loop start chunks) as [calls st]. cbn [fst] in H.
  intros Hi. apply in_app_or in Hi as [Hi|[Hi|[]]]; [|discriminate].
  apply in_map_iff in Hi as (x & Hx & Hin). injection Hx as ->.
  assert (Hall : Forall (fun c => JSON.truthy c = true) (calls ++ flush (textBuffer st))).
  { apply Forall_app. split; [exact H|apply flush_truthy]. }
  rewrite Forall_forall in Hall. now apply Hall.
Qed.

Lemma read_loop_done (chunks : list (list byte)) :
  forall st more,
    streamDone (snd (read_loop st chunks)) = true ->
    streamDone st = false ->
    read_loop st (chunks ++ more) = read_loop st chunks.
Proof.
  induction chunks as [|value chunks IH]; intros st more Hd Hs.
  - cbn in Hd. congruence.
  - cbn [app read_loop] in *. destruct (feed st value) as [calls st1].
    destruct (streamDone st1) eqn:E; [reflexivity|].
    destruct (read_loop st1 chunks) as [c2 st2] eqn:E2. cbn [snd] in Hd.
    rewrite (IH st1 more); [now rewrite E2|now rewrite E2|exact E].
Qed.

(** X3.  Once the read loop has met the sentinel, chunks that follow
    are never read: the calls made are those of the chunks up to the
    sentinel. *)
Lemma sentinel_stops_reading (chunks more : list (list byte)) :
  streamDone (snd (read_loop start chunks)) = true ->
  streamChat (chunks ++ more) = streamChat chunks.
Proof.
  intros H. unfold streamChat. now rewrite read_loop_done.
Qed.

(** *** A callback that throws *)

Lemma extract_with_S (throws : JSON.value -> bool) (fuel : nat)
      (textBuffer : jsstring) :
  extract_lines_with throws (S fuel) textBuffer =
  match indexOf LF textBuffer with
  | None => ([], textBuffer, false)
  | Some newlineIndex =>
      let line := slice_to newlineIndex textBuffer in
      let textBuffer := slice_from (newlineIndex + 1) textBuffer in
      let line := if endsWith CR line then drop_last line else line in
      if startsWith (lit ":") line || eqb (trim line) [] then
        extract_lines_with throws fuel textBuffer
      else if negb (startsWith (lit "data: ") line) then
        extract_lines_with throws fuel textBuffer
      else
        let jsonStr := trim (slice_from 6 line) in
        if eqb jsonStr (lit "[DONE]") then ([], textBuffer, true)
        else
          match delta_content jsonStr with
          | Normal content =>
              if existsb throws (deliver content)
              then ([], line ++ [LF] ++ textBuffer, false)
              else
                let '(calls, buffer, done) :=
                  extract_lines_with throws fuel textBuffer in
                (deliver content ++ calls, buffer, done)
          | Throw _ => ([], line ++ [LF] ++ textBuffer, false)
          end
  end.
Proof. reflexivity. Qed.


(** When no call of the loop throws, the loop is that of a callback
    that returns. *)
Lemma extract_with_plain (throws : JSON.value -> bool) (fuel : nat) :
  forall buf,
    Forall (fun c => throws c = false) (fst (fst (extract_lines fuel buf))) ->
    extract_lines_with throws fuel buf = extract_lines fuel buf.
Proof.
  induction fuel as [|fuel IH]; intros buf; [reflexivity|].
  rewrite extract_with_S, extract_S.
  destruct (indexOf LF buf) as [i|]; [|reflexivity]. cbv zeta.
  destruct (_ || _); [apply IH|].
  destruct (negb _); [apply IH|].
  destruct (eqb _ _); [reflexivity|].
  destruct (delta_content _) as [content|e]; [|reflexivity].
  specialize (IH (slice_from (i + 1) buf)).
  destruct (extract_lines fuel (slice_from (i + 1) buf)) as [[calls b] done].
  cbn [fst]. intros H. apply Forall_app in H. destruct H as [H1 H2].
  replace (existsb throws (deliver content)) with false.
  - cbn [fst] in IH. now rewrite (IH H2).
  - symmetry. apply not_true_is_false. intros X.
    apply existsb_exists in X. destruct X as (c & Hc & Ht).
    rewrite Forall_forall in H1. rewrite (H1 c Hc) in Ht. discriminate.
Qed.

Lemma extract_with_never (fuel : nat) (buf : jsstring) :
  extract_lines_with (fun _ => false) fuel buf = extract_lines fuel buf.
Proof.
  apply extract_with_plain. apply Forall_forall. reflexivity.
Qed.


Lemma feed_with_plain (throws : JSON.value -> bool) (st : reader_state)
      (value : list byte) :
  Forall (fun c => throws c = false) (fst (feed st value)) ->
  feed_with throws st value = feed st value.
Proof.
  unfold feed_with, feed.
  destruct (TextDecoder.decode (decoder st) value) as [d t]. intros H.
  rewrite extract_with_plain; [reflexivity|].
  now destruct (extract_lines _ _) as [[calls b] done].
Qed.

Lemma flush_with_returned (throws : JSON.value -> bool) (buf : jsstring) :
  Forall (fun c => throws c = false) (flush_with throws buf).
Proof.
  unfold flush_with. apply Forall_forall. intros c Hc.
  apply filter_In in Hc. destruct Hc as [_ Hc]. now apply negb_true_iff in Hc.
Qed.

Lemma flush_with_plain (throws : JSON.value -> bool) (buf : jsstring) :
  Forall (fun c => throws c = false) (flush buf) ->
  flush_with throws buf = flush buf.
Proof.
  unfold flush_with. induction (flush buf) as [|c l IH]; [reflexivity|].
  intros H. inversion H as [|? ? Hc Hl]; subst. cbn [filter].
  rewrite Hc. cbn [negb]. f_equal. now apply IH.
Qed.

End DecoderFacts.

(* ================================================================= *)
(** ** Facts about the transcript *)

Module TranscriptFacts.
Import JS JSFacts Transcript.

Lemma last_message_snoc (pre : list Message) (m : Message) :
  last_message (pre ++ [m]) = Some m.
Proof.
  induction pre as [|x pre IH]; [reflexivity|].
  cbn [app last_message]. rewrite IH.
  destruct (pre ++ [m]) eqn:E; [|reflexivity].
  destruct pre; discriminate.
Qed.

Lemma mapi_last (g : Message -> Message) (k : nat) (x : Message) :
  forall pre i,
    k = i + length pre ->
    mapi (fun m j => if Nat.eqb j k then g m else m) i (pre ++ [x])
    = pre ++ [g x].
Proof.
  induction pre as [|a pre IH]; intros i Hk; cbn [app mapi].
  - simpl in Hk. rewrite Nat.add_0_r in Hk. subst k. now rewrite Nat.eqb_refl.
  - simpl in Hk. destruct (Nat.eqb_spec i k) as [E|_]; [lia|].
    rewrite IH by lia. reflexivity.
Qed.

(** What [show_assistant] does, by the last message. *)
Lemma show_assistant_nil (a : jsstring) :
  show_assistant a [] = [mkMessage (lit "streaming") assistant a].
Proof. reflexivity. Qed.

Lemma show_assistant_snoc (a : jsstring) (pre : list Message) (m : Message) :
  show_assistant a (pre ++ [m]) =
  if Role_eqb (role m) assistant && is_streaming m
  then pre ++ [mkMessage (id m) (role m) a]
  else pre ++ [m; mkMessage (lit "streaming") assistant a].
Proof.
  unfold show_assistant, last_is_streaming. rewrite last_message_snoc.
  destruct (Role_eqb (role m) assistant && is_streaming m).
  - apply mapi_last. rewrite length_app. simpl. lia.
  - now rewrite <- app_assoc.
Qed.

Lemma show_assistant_not_last (a : jsstring) (prev : list Message) :
  last_is_streaming prev = false ->
  show_assistant a prev = prev ++ [mkMessage (lit "streaming") assistant a].
Proof. intros H. unfold show_assistant. now rewrite H. Qed.

Lemma show_assistant_again (a b : jsstring) (prev : list Message) :
  show_assistant b (show_assistant a prev) = show_assistant b prev.
Proof.
  destruct prev as [|x prev] using rev_ind.
  - reflexivity.
  - rewrite !show_assistant_snoc.
    destruct (Role_eqb (role x) assistant && is_streaming x) eqn:E.
    + rewrite show_assistant_snoc. cbn [role id]. unfold is_streaming in *.
      cbn [id]. now rewrite E.
    + change (prev ++ [x; mkMessage (lit "streaming") assistant a])
        with (prev ++ [x] ++ [mkMessage (lit "streaming") assistant a]).
      rewrite app_assoc, show_assistant_snoc. cbn. now rewrite <- app_assoc.
Qed.

Lemma streaming_id_fresh (now : Z) :
  eqb (Date_now_toString now) (lit "streaming") = false.
Proof.
  unfold Date_now_toString.
  destruct (Z.to_int now) as [d|d]; [|reflexivity].
  destruct d; reflexivity.
Qed.

Lemma finalize_not_streaming (now : Z) (prev : list Message) :
  Forall (fun m => is_streaming m = false) (finalize now prev).
Proof.
  induction prev as [|m prev IH]; [constructor|].
  cbn [finalize map]. constructor; [|exact IH].
  destruct (is_streaming m) eqn:E; [|exact E].
  unfold is_streaming. cbn [id]. apply streaming_id_fresh.
Qed.

Lemma finalize_id (now : Z) (prev : list Message) :
  Forall (fun m => is_streaming m = false) prev -> finalize now prev = prev.
Proof.
  induction 1 as [|m prev Hm _ IH]; [reflexivity|].
  cbn [finalize map]. rewrite Hm. f_equal. exact IH.
Qed.

End TranscriptFacts.

(* ================================================================= *)
(** ** Facts about the session *)

Module SessionFacts.
Import JS JSFacts StreamDecoder Props DecoderFacts Transcript TranscriptFacts Session.



Lemma apply_deltas_fst (N : Z -> Z -> jsstring) (calls : list JSON.value) :
  forall acc prev,
    fst (apply_deltas N calls acc prev) = acc ++ concat (applied_texts N calls).
Proof.
  induction calls as [|c calls IH]; intros acc prev.
  - cbn. now rewrite app_nil_r.
  - cbn [apply_deltas applied_texts]. destruct (ToString N c) as [text|e].
    + cbn [updateAssistant concat]. rewrite IH. now rewrite app_assoc.
    + apply IH.
Qed.

Lemma apply_deltas_snd (N : Z -> Z -> jsstring) (calls : list JSON.value) :
  forall acc prev,
    applied_texts N calls <> [] ->
    snd (apply_deltas N calls acc prev)
    = show_assistant (acc ++ concat (applied_texts N calls)) prev.
Proof.
  induction calls as [|c calls IH]; intros acc prev Hne; [now elim Hne|].
  cbn [apply_deltas applied_texts] in *.
  destruct (ToString N c) as [text|e]; [|now apply IH].
  cbn [updateAssistant concat].
  destruct (applied_texts N calls) as [|t ts] eqn:E.
  - assert (X : apply_deltas N calls (acc ++ text)
                  (show_assistant (acc ++ text) prev)
                = (acc ++ text, show_assistant (acc ++ text) prev)).
    { clear - E. revert E. generalize (acc ++ text).
      generalize (show_assistant (acc ++ text) prev).
      induction calls as [|x calls IH]; intros m a E; [reflexivity|].
      cbn [apply_deltas applied_texts] in *.
      destruct (ToString N x); [discriminate|]. now apply IH. }
    rewrite X. cbn. now rewrite app_nil_r.
  - rewrite IH by discriminate. rewrite show_assistant_again.
    now rewrite app_assoc.
Qed.

Lemma show_assistant_head (a : jsstring) (prev : list Message) :
  head_welcome prev -> head_welcome (show_assistant a prev).
Proof.
  intros [rest ->]. destruct rest as [|m rest _] using rev_ind.
  - eexists. reflexivity.
  - change (INITIAL_MESSAGE :: rest ++ [m]) with ((INITIAL_MESSAGE :: rest) ++ [m]).
    rewrite show_assistant_snoc.
    destruct (Role_eqb (role m) assistant && is_streaming m); eexists; reflexivity.
Qed.

Lemma apply_deltas_head (N : Z -> Z -> jsstring) (calls : list JSON.value) :
  forall acc prev,
    head_welcome prev -> head_welcome (snd (apply_deltas N calls acc prev)).
Proof.
  induction calls as [|c calls IH]; intros acc prev H; [exact H|].
  cbn [apply_deltas]. destruct (ToString N c); [|now apply IH].
  cbn [updateAssistant]. apply IH. now apply show_assistant_head.
Qed.

Lemma finalize_head (now : Z) (prev : list Message) :
  head_welcome prev -> head_welcome (finalize now prev).
Proof. intros [rest ->]. eexists. reflexivity. Qed.

Lemma deliver_all_spec (N : Z -> Z -> jsstring) (calls : list JSON.value)
      (c : call) (st : state) :
  deliver_all N calls c st
  = (mkCall (c_user c) (c_messages c) (input c) (userMessage c) (convId c)
       (fst (apply_deltas N calls (assistantContent c) (messages st)))
       (at_stage c),
     setMessages (snd (apply_deltas N calls (assistantContent c) (messages st))) st).
Proof.
  unfold deliver_all. now destruct (apply_deltas N calls (assistantContent c) (messages st)).
Qed.

Lemma sends_welcome_history (ms : list Message) (um : Message) :
  head_welcome ms -> sends_welcome (map (fun m => (role m, content m)) (ms ++ [um])).
Proof. intros [rest ->]. eexists. reflexivity. Qed.

Lemma post_welcome (c : call) (cid : option jsstring) (st : state) :
  head_welcome (messages st) -> head_welcome (c_messages c) ->
  Forall sends_welcome (requests st) ->
  welcome_first (post c cid st).
Proof.
  intros Hm Hc Hr. unfold post, welcome_first.
  destruct (c_user c), cid as [[|x cid]|]; cbn; repeat split; auto;
    try (intros c0 E; injection E as <-; exact Hc);
    apply Forall_app; split; auto; constructor; auto;
      now apply sends_welcome_history.
Qed.

Lemma activate_messages_head (a : option jsstring) (st : state) :
  head_welcome (messages st) -> head_welcome (messages (activate a st)).
Proof.
  intros H. unfold activate, messages_effect.
  destruct (opt_eqb a (activeConversationId st)); [exact H|].
  cbn. destruct (user st), a as [[|x a]|]; cbn; auto; eexists; reflexivity.
Qed.

Lemma activate_keeps (a : option jsstring) (st : state) :
  pending (activate a st) = pending st
  /\ requests (activate a st) = requests st
  /\ saved (activate a st) = saved st
  /\ toasts (activate a st) = toasts st
  /\ isLoading (activate a st) = isLoading st
  /\ user (activate a st) = user st
  /\ conversations (activate a st) = conversations st.
Proof.
  unfold activate, messages_effect.
  destruct (opt_eqb a (activeConversationId st)); [repeat split|].
  cbn. destruct (user st) eqn:E, a as [[|x a]|]; cbn; repeat split; auto.
Qed.

Lemma completed_welcome (now : Z) (c : call) (st : state) :
  head_welcome (messages st) -> Forall sends_welcome (requests st) ->
  welcome_first (completed now c st).
Proof.
  intros Hm Hr. unfold completed, welcome_first, saveMessage.
  destruct (c_user c), (convId c) as [[|x cid]|], (nonempty (assistantContent c)); cbn;
    repeat split; auto using finalize_head; discriminate.
Qed.

Lemma step_welcome (N : Z -> Z -> jsstring) (e : event) (st st' : state) :
  welcome_first st -> step N e st = Some st' -> welcome_first st'.
Proof.
  intros (Hm & Hc & Hr) H. destruct e; cbn [step] in H;
    try (destruct (pending st) as [c|] eqn:Ep; [|discriminate];
         destruct (at_stage c) as [| |r0] eqn:Es; try discriminate);
    try (injection H as <-).
  - (* Send *)
    unfold sendMessage.
    destruct (negb (nonempty (trim input0)) || isLoading st);
      [repeat split; auto|].
    destruct (is_some (user st) && negb (given (activeConversationId st))).
    + unfold welcome_first. cbn. repeat split; auto.
      * destruct Hm as [rest ->]. eexists. reflexivity.
      * intros c0 E. injection E as <-. exact Hm.
    + apply post_welcome; cbn; auto.
      destruct Hm as [rest ->]. eexists. reflexivity.
  - (* Created *)
    unfold createConversation. destruct row as [newConv|].
    + apply post_welcome; cbn; auto.
      * eexists. reflexivity.
      * destruct (activate_keeps (Some (conv_id newConv))
                    (setConversations (newConv :: conversations st) st))
          as (_ & -> & _). exact Hr.
    + apply post_welcome; cbn; auto.
  - (* Fetched *)
    unfold streamChat_response. destruct r as [e|status msg body].
    { unfold welcome_first. cbn. repeat split; auto. discriminate. }
    destruct (negb ((200 <=? status) && (status <=? 299))%N);
      [destruct (status =? 429)%N; [|destruct (status =? 402)%N]
      |destruct (negb body)];
      unfold welcome_first; cbn; repeat split; auto; try discriminate.
    intros c0 E. injection E as <-. cbn. auto.
  - (* Chunk *)
    unfold streamChat_chunk, streamChat_flush.
    destruct (StreamDecoder.feed_with (throws N) r0 value) as [calls r1].
    rewrite deliver_all_spec.
    destruct (streamDone r1).
    + rewrite deliver_all_spec.
      apply completed_welcome; cbn; auto.
      now apply apply_deltas_head, apply_deltas_head.
    + unfold welcome_first. cbn. repeat split; auto.
      * now apply apply_deltas_head.
      * intros c0 E. injection E as <-. cbn. auto.
  - (* EndOfStream *)
    unfold streamChat_flush. rewrite deliver_all_spec.
    apply completed_welcome; cbn; auto. now apply apply_deltas_head.
  - (* ReadFailed *)
    unfold welcome_first. cbn. repeat split; auto. discriminate.
  - (* Select *)
    unfold selectConversation.
    destruct (activate_keeps (Some conversationId) st) as (Hp & Hq & _).
    unfold welcome_first. rewrite Hp, Hq.
    repeat split; auto using activate_messages_head.
  - (* Loaded *)
    destruct (take_load conversationId (loads st)); [|discriminate].
    injection H as <-. unfold loadMessages.
    destruct rows; unfold welcome_first; cbn; repeat split; auto.
    eexists. reflexivity.
  - (* NewChat *)
    unfold startNewChat.
    destruct (activate_keeps None st) as (Hp & Hq & _).
    unfold welcome_first. cbn. rewrite Hp, Hq.
    repeat split; auto. eexists. reflexivity.
  - (* Delete *)
    unfold deleteConversation. destruct ok; cbn [negb].
    + destruct (opt_eqb (activeConversationId st) (Some conversationId)).
      * match goal with
        | |- context [activate None ?s] =>
            destruct (activate_keeps None s) as (Hp & Hq & _)
        end.
        unfold welcome_first. cbn. rewrite Hp, Hq. cbn.
        repeat split; auto. eexists. reflexivity.
      * unfold welcome_first. cbn. repeat split; auto.
    + unfold welcome_first. cbn. repeat split; auto.
  - (* ClearAll *)
    unfold clearAllHistory. destruct (user st); [|repeat split; auto].
    destruct ok; cbn [negb].
    + match goal with
      | |- context [activate None ?s] =>
          destruct (activate_keeps None s) as (Hp & Hq & _)
      end.
      unfold welcome_first. cbn. rewrite Hp, Hq. cbn.
      repeat split; auto. eexists. reflexivity.
    + unfold welcome_first. cbn. repeat split; auto.
  - (* Auth *)
    unfold auth_changed. destruct u.
    + unfold welcome_first, messages_effect. cbn.
      destruct (activeConversationId st) as [[|x a]|]; cbn; repeat split; auto;
        eexists; reflexivity.
    + unfold welcome_first. cbn. repeat split; auto. eexists. reflexivity.
  - (* ConversationsLoaded *)
    unfold loadConversations.
    destruct rows; unfold welcome_first; cbn; repeat split; auto.
Qed.

Lemma initial_welcome : welcome_first initial.
Proof.
  repeat split; try discriminate; try constructor. eexists. reflexivity.
Qed.

Lemma run_welcome (N : Z -> Z -> jsstring) (evs : list event) :
  forall st st', welcome_first st -> run N evs st = Some st' -> welcome_first st'.
Proof.
  induction evs as [|e evs IH]; intros st st' Hw H; cbn [run] in H.
  - now injection H as <-.
  - destruct (step N e st) as [st1|] eqn:E; [|discriminate].
    eapply IH; [|exact H]. eapply step_welcome; eauto.
Qed.





Lemma deliver_all_toasts (N : Z -> Z -> jsstring) calls c st :
  toasts (snd (deliver_all N calls c st)) = toasts st.
Proof. now rewrite deliver_all_spec. Qed.

Lemma completed_messages (now : Z) (c : call) (st : state) :
  messages (completed now c st) = finalize now (messages st).
Proof.
  unfold completed, saveMessage.
  destruct (c_user c), (convId c) as [[|x cid]|], (nonempty (assistantContent c));
    reflexivity.
Qed.

Lemma completed_end (now : Z) (c : call) (st : state) :
  toasts (completed now c st) = toasts st
  /\ isLoading (completed now c st) = false
  /\ pending (completed now c st) = None.
Proof.
  unfold completed, saveMessage.
  destruct (c_user c), (convId c) as [[|x cid]|], (nonempty (assistantContent c));
    repeat split.
Qed.

Lemma post_keeps (c : call) (a : option jsstring) (st : state) :
  isLoading (post c a st) = isLoading st
  /\ messages (post c a st) = messages st
  /\ toasts (post c a st) = toasts st
  /\ pending (post c a st)
     = Some (mkCall (c_user c) (c_messages c) (input c) (userMessage c) a
               (assistantContent c) AwaitFetch).
Proof.
  unfold post, saveMessage.
  destruct (c_user c), a as [[|x a]|]; repeat split.
Qed.




Lemma step_loading (N : Z -> Z -> jsstring) (e : event) (st st' : state) :
  loading_iff_pending st -> step N e st = Some st' -> loading_iff_pending st'.
Proof.
  unfold loading_iff_pending. intros Hl H. destruct e; cbn [step] in H;
    try (destruct (pending st) as [c|] eqn:Ep; [|discriminate];
         destruct (at_stage c) as [| |r0] eqn:Es; try discriminate);
    try (injection H as <-).
  - unfold sendMessage.
    destruct (negb (nonempty (trim input0)) || isLoading st); [exact Hl|].
    destruct (is_some (user st) && negb (given (activeConversationId st)));
      [reflexivity|].
    match goal with
    | |- context [post ?c ?a ?s] =>
        destruct (post_keeps c a s) as (-> & _ & _ & ->)
    end. reflexivity.
  - unfold createConversation. destruct row as [newConv|];
      match goal with
      | |- context [post ?c ?a ?s] =>
          destruct (post_keeps c a s) as (-> & _ & _ & ->)
      end; cbn.
    + destruct (activate_keeps (Some (conv_id newConv))
                  (setConversations (newConv :: conversations st) st))
        as (_ & _ & _ & _ & -> & _). exact Hl.
    + exact Hl.
  - unfold streamChat_response. destruct r as [e|status msg body];
      [reflexivity|].
    destruct (negb ((200 <=? status) && (status <=? 299))%N);
      [destruct (status =? 429)%N; [|destruct (status =? 402)%N]
      |destruct (negb body)]; try reflexivity. exact Hl.
  - unfold streamChat_chunk, streamChat_flush.
    destruct (StreamDecoder.feed_with (throws N) r0 value) as [calls r1].
    rewrite deliver_all_spec. destruct (streamDone r1).
    + rewrite deliver_all_spec.
      match goal with
      | |- context [completed ?n ?c ?s] =>
          destruct (completed_end n c s) as (_ & -> & ->)
      end. reflexivity.
    + exact Hl.
  - unfold streamChat_flush. rewrite deliver_all_spec.
    match goal with
    | |- context [completed ?n ?c ?s] =>
        destruct (completed_end n c s) as (_ & -> & ->)
    end. reflexivity.
  - reflexivity.
  - unfold selectConversation.
    destruct (activate_keeps (Some conversationId) st)
      as (-> & _ & _ & _ & -> & _). exact Hl.
  - destruct (take_load conversationId (loads st)); [|discriminate].
    injection H as <-. unfold loadMessages. destruct rows; exact Hl.
  - unfold startNewChat. cbn.
    destruct (activate_keeps None st) as (-> & _ & _ & _ & -> & _). exact Hl.
  - unfold deleteConversation. destruct ok; cbn [negb]; [|exact Hl].
    destruct (opt_eqb (activeConversationId st) (Some conversationId)); cbn;
      [|exact Hl].
    match goal with
    | |- context [activate None ?s] =>
        destruct (activate_keeps None s) as (-> & _ & _ & _ & -> & _)
    end. exact Hl.
  - unfold clearAllHistory. destruct (user st); [|exact Hl].
    destruct ok; cbn [negb]; cbn; [|exact Hl].
    match goal with
    | |- context [activate None ?s] =>
        destruct (activate_keeps None s) as (-> & _ & _ & _ & -> & _)
    end. exact Hl.
  - unfold auth_changed. destruct u; cbn; [|exact Hl].
    unfold messages_effect. cbn.
    destruct (activeConversationId st) as [[|x a]|]; exact Hl.
  - unfold loadConversations. destruct rows; exact Hl.
Qed.

(** At most one [sendMessage] call is in flight: [isLoading] is set
    exactly while there is one, and it rejects a second send. *)
Lemma one_call_in_flight (N : Z -> Z -> jsstring) (st : state) :
  reachable N st -> loading_iff_pending st.
Proof.
  intros [evs Hrun]. revert Hrun.
  assert (H0 : loading_iff_pending initial) by reflexivity.
  revert H0. generalize initial. induction evs as [|e evs IH]; intros s Hs H.
  - cbn in H. now injection H as <-.
  - cbn [run] in H. destruct (step N e s) as [s1|] eqn:E; [|discriminate].
    eapply IH; [|exact H]. eapply step_loading; eauto.
Qed.

Lemma streaming_count_app (a b : list Message) :
  streaming_count (a ++ b) = streaming_count a + streaming_count b.
Proof. unfold streaming_count. now rewrite filter_app, length_app. Qed.

Lemma streaming_count_finalize (now : Z) (l : list Message) :
  streaming_count (finalize now l) = 0.
Proof.
  unfold streaming_count. pose proof (finalize_not_streaming now l) as H.
  induction H as [|m l' Hm _ IH]; [reflexivity|]. cbn [filter]. now rewrite Hm.
Qed.

Lemma last_is_streaming_count0 (l : list Message) :
  streaming_count l = 0 -> last_is_streaming l = false.
Proof.
  destruct l as [|m pre _] using rev_ind; [reflexivity|].
  rewrite streaming_count_app. unfold last_is_streaming.
  rewrite last_message_snoc. unfold streaming_count at 2. cbn [filter].
  destruct (is_streaming m); cbn [length]; [lia|].
  intros _. apply andb_false_r.
Qed.

Lemma show_assistant_placeholder (a : jsstring) (l : list Message) :
  placeholder_last l -> placeholder_last (show_assistant a l).
Proof.
  intros [H0|(pre & m & -> & Hpre & Hm & Hr)]; right.
  - rewrite show_assistant_not_last by now apply last_is_streaming_count0.
    exists l, (mkMessage (lit "streaming") assistant a). repeat split; auto.
  - rewrite show_assistant_snoc, Hm, Hr. cbn [Role_eqb andb].
    exists pre, (mkMessage (id m) assistant a). repeat split; auto.
Qed.

Lemma apply_deltas_placeholder (N : Z -> Z -> jsstring) (calls : list JSON.value) :
  forall acc l,
    placeholder_last l -> placeholder_last (snd (apply_deltas N calls acc l)).
Proof.
  induction calls as [|c calls IH]; intros acc l H; [exact H|].
  cbn [apply_deltas]. destruct (ToString N c); [|now apply IH].
  cbn [updateAssistant]. apply IH.
  now apply show_assistant_placeholder.
Qed.

Lemma placeholder_last_le (l : list Message) :
  placeholder_last l -> streaming_count l <= 1.
Proof.
  intros [->|(pre & m & -> & Hpre & Hm & _)]; [lia|].
  rewrite streaming_count_app, Hpre. unfold streaming_count. cbn [filter].
  rewrite Hm. cbn. lia.
Qed.

Lemma placeholder_ok_same (st st' : state) :
  pending st' = pending st -> messages st' = messages st ->
  placeholder_ok st -> placeholder_ok st'.
Proof. unfold placeholder_ok. now intros -> ->. Qed.

Lemma placeholder_ok_zero (st : state) :
  streaming_count (messages st) = 0 -> placeholder_ok st.
Proof.
  intros H. unfold placeholder_ok.
  destruct (pending st) as [c|]; [|exact H].
  destruct (at_stage c); try exact H. now left.
Qed.

Lemma activate_messages (a : option jsstring) (st : state) :
  messages (activate a st) = messages st
  \/ messages (activate a st) = [INITIAL_MESSAGE].
Proof.
  unfold activate, messages_effect.
  destruct (opt_eqb a (activeConversationId st)); [now left|].
  cbn. destruct (user st), a as [[|x a]|]; cbn; auto.
Qed.

Lemma placeholder_ok_activate (a : option jsstring) (st : state) :
  placeholder_ok st -> placeholder_ok (activate a st).
Proof.
  intros H. destruct (activate_messages a st) as [E|E].
  - eapply placeholder_ok_same; [|exact E|exact H].
    now destruct (activate_keeps a st) as (-> & _).
  - apply placeholder_ok_zero. now rewrite E.
Qed.

Lemma step_placeholder (N : Z -> Z -> jsstring) (e : event) (st st' : state) :
  quiet e -> loading_iff_pending st -> placeholder_ok st ->
  step N e st = Some st' -> placeholder_ok st'.
Proof.
  intros Hq Hl Hp H. destruct e; cbn [step] in H;
    try (destruct (pending st) as [c|] eqn:Ep; [|discriminate];
         destruct (at_stage c) as [| |r0] eqn:Es; try discriminate);
    try (injection H as <-).
  - (* Send *)
    unfold sendMessage.
    destruct (isLoading st) eqn:El; [now rewrite orb_true_r|].
    destruct (negb (nonempty (trim input0))); [exact Hp|]. cbn [orb].
    unfold loading_iff_pending in Hl. rewrite El in Hl.
    unfold placeholder_ok in Hp.
    destruct (pending st) eqn:Ep; [discriminate|].
    apply placeholder_ok_zero.
    assert (H0 : streaming_count
                   (messages st
                    ++ [mkMessage (Date_now_toString now) Transcript.user
                          (trim input0)]) = 0).
    { rewrite streaming_count_app, Hp. unfold streaming_count. cbn [filter].
      unfold is_streaming. cbn [id]. now rewrite streaming_id_fresh. }
    destruct (is_some (user st) && negb (given (activeConversationId st)));
      [exact H0|].
    match goal with
    | |- context [post ?c ?a ?s] =>
        destruct (post_keeps c a s) as (_ & -> & _)
    end. exact H0.
  - (* Created *)
    apply placeholder_ok_zero. unfold createConversation.
    unfold placeholder_ok in Hp. rewrite Ep, Es in Hp.
    destruct row as [newConv|];
      match goal with
      | |- context [post ?c ?a ?s] =>
          destruct (post_keeps c a s) as (_ & -> & _)
      end; [reflexivity|exact Hp].
  - (* Fetched *)
    unfold placeholder_ok in Hp. rewrite Ep, Es in Hp.
    unfold streamChat_response. destruct r as [e|status msg body];
      [apply placeholder_ok_zero; exact Hp|].
    destruct (negb ((200 <=? status) && (status <=? 299))%N);
      [destruct (status =? 429)%N; [|destruct (status =? 402)%N]
      |destruct (negb body)]; apply placeholder_ok_zero; exact Hp.
  - (* Chunk *)
    unfold placeholder_ok in Hp. rewrite Ep, Es in Hp.
    unfold streamChat_chunk, streamChat_flush.
    destruct (StreamDecoder.feed_with (throws N) r0 value) as [calls r1].
    rewrite deliver_all_spec. destruct (streamDone r1).
    + rewrite deliver_all_spec. apply placeholder_ok_zero.
      rewrite completed_messages. apply streaming_count_finalize.
    + unfold placeholder_ok. cbn. now apply apply_deltas_placeholder.
  - (* EndOfStream *)
    unfold streamChat_flush. rewrite deliver_all_spec.
    apply placeholder_ok_zero.
    rewrite completed_messages. apply streaming_count_finalize.
  - (* ReadFailed *)
    destruct Hq.
  - (* Select *)
    now apply placeholder_ok_activate.
  - (* Loaded *)
    destruct (take_load conversationId (loads st)); [|discriminate].
    injection H as <-. unfold loadMessages. destruct rows as [data|].
    + apply placeholder_ok_zero.
      change (streaming_count ([INITIAL_MESSAGE] ++ data) = 0).
      cbn [quiet] in Hq. now rewrite streaming_count_app, Hq.
    + exact Hp.
  - (* NewChat *)
    apply placeholder_ok_zero. reflexivity.
  - (* Delete *)
    unfold deleteConversation. destruct ok; cbn [negb]; [|exact Hp].
    destruct (opt_eqb (activeConversationId st) (Some conversationId));
      [apply placeholder_ok_zero; reflexivity|exact Hp].
  - (* ClearAll *)
    unfold clearAllHistory. destruct (user st); [|exact Hp].
    destruct ok; cbn [negb]; [apply placeholder_ok_zero; reflexivity|exact Hp].
  - (* Auth *)
    unfold auth_changed. destruct u; [|apply placeholder_ok_zero; reflexivity].
    unfold messages_effect. cbn.
    destruct (activeConversationId st) as [[|x a]|];
      try (apply placeholder_ok_zero; reflexivity). exact Hp.
  - (* ConversationsLoaded *)
    unfold loadConversations. destruct rows; exact Hp.
Qed.

(** X16.  Where the placeholder stays unique: in a run in which no
    stream fails, and whose loaded rows do not carry the placeholder
    id, at most one message has the id ["streaming"], and none has it
    when no call is in flight. *)
Lemma one_placeholder_while_no_stream_fails (N : Z -> Z -> jsstring)
      (evs : list event) (st : state) :
  Forall quiet evs ->
  run N evs initial = Some st ->
  streaming_count (messages st) <= 1
  /\ (pending st = None -> streaming_count (messages st) = 0).
Proof.
  intros Hq Hrun.
  assert (H : loading_iff_pending st /\ placeholder_ok st).
  { revert Hrun.
    assert (H0 : loading_iff_pending initial /\ placeholder_ok initial)
      by (split; reflexivity).
    revert H0. generalize initial.
    induction Hq as [|e evs He _ IH]; intros s [Hl Hp] Hrun; cbn [run] in Hrun.
    - injection Hrun as <-. now split.
    - destruct (step N e s) as [s1|] eqn:E; [|discriminate].
      apply (IH s1); [|exact Hrun]. split.
      + eapply step_loading; eauto.
      + eapply step_placeholder; eauto. }
  destruct H as [_ Hp]. unfold placeholder_ok in Hp. split.
  - destruct (pending st) as [c|]; [|lia].
    destruct (at_stage c); try lia. now apply placeholder_last_le.
  - intros E. now rewrite E in Hp.
Qed.

End SessionFacts.

(* ================================================================= *)
(** ** Scenarios of the specification *)

Module Scenarios.
Import JS StreamDecoder Props Transcript Session.

(** A payload cut by a chunk boundary: no delta after the first chunk,
    the delta once both are fed. *)
Example payload_cut_by_chunk_boundary :
  fst (feed start (ascii_bytes (data_line cut_payload))) = []
  /\ fst (read_loop start
            [ascii_bytes (data_line cut_payload);
             ascii_bytes (js "ces':[{'delta':{'content':'x'}}]}" ++ [LF])])
     = [JSON.Str (lit "x")].
Proof. split; vm_compute; reflexivity. Qed.

(** The end-to-end scenario: the reply is the concatenation of the
    deltas under a durable id, and two rows are saved, the user's and
    then the assistant's. *)
Example end_to_end_scenario :
  map (fun m => (id m, role m, content m)) (messages (state_after end_to_end))
  = [ (lit "welcome", assistant, content INITIAL_MESSAGE);
      (lit "6f1c2d3e-0a4b-4c5d-8e9f-a1b2c3d4e5f6", Transcript.user, lit "Hi");
      (lit "1000", Transcript.user, lit "What tests do I need?");
      (lit "1004", assistant, lit "GRE, TOEFL, IELTS.") ]
  /\ saved (state_after end_to_end)
     = [ (Transcript.user, lit "What tests do I need?", lit "c1");
         (assistant, lit "GRE, TOEFL, IELTS.", lit "c1") ]
  /\ isLoading (state_after end_to_end) = false
  /\ toasts (state_after end_to_end) = [].
Proof. repeat split; vm_compute; reflexivity. Qed.

(** A send while a stream is active is rejected: nothing changes. *)
Example send_while_streaming_is_rejected :
  forall (N : Z -> Z -> jsstring) (st : state) (input : jsstring) (now : Z),
    isLoading st = true -> step N (Send input now) st = Some st.
Proof.
  intros N st input now H. cbn [step]. unfold sendMessage. rewrite H.
  now rewrite orb_true_r.
Qed.

(** A content on which [updateAssistant] throws is treated as a
    payload that does not parse: the read loop pushes its line back,
    so the chunk changes nothing and the line behind it waits; at
    the end of the stream the flush passes over the line and
    delivers the one behind it. *)
Example throwing_delta_is_pushed_back :
  messages (state_after [Send (lit "hi") 1; streaming_response;
                         Chunk throwing_chunk 2])
  = messages (state_after [Send (lit "hi") 1; streaming_response])
  /\ map (fun m => (id m, role m, content m))
       (messages (state_after [Send (lit "hi") 1; streaming_response;
                               Chunk throwing_chunk 2; EndOfStream 3]))
     = [ (lit "welcome", assistant, content INITIAL_MESSAGE);
         (lit "1", Transcript.user, lit "hi");
         (lit "3", assistant, lit "b") ]
  /\ toasts (state_after [Send (lit "hi") 1; streaming_response;
                          Chunk throwing_chunk 2; EndOfStream 3]) = [].
Proof. repeat split; vm_compute; reflexivity. Qed.

End Scenarios.

(* ================================================================= *)
(** ** The properties of the specification *)

Import JS JSFacts StreamDecoder Props DecoderFacts.
Import Transcript TranscriptFacts Session SessionFacts.

(** C1.  For a byte sequence that decodes to [N] well-formed delta
    lines followed by the sentinel line, every segmentation into
    chunks makes [streamChat] call [onDelta] with the same contents:
    the non-empty [content] strings of the lines in order, whose
    concatenation is the concatenation of the [N] contents; then
    [onDone].  The segmentation is arbitrary: a boundary may fall
    inside a multi-byte character, inside a JSON escape or inside the
    sentinel. *)
Theorem chunking_preserves_deltas :
  forall (lines : list (jsstring * jsstring)) (ending : jsstring)
         (chunks : list (list byte)),
    Forall well_formed lines ->
    forallb is_space ending = true ->
    snd (TextDecoder.decode TextDecoder.init (concat chunks))
    = unlines (map (fun p => data_line (fst p)) lines) ++ sentinel ++ ending ->
    streamChat chunks
    = map onDelta (map JSON.Str (filter nonempty (map snd lines))) ++ [onDone]
    /\ concat (texts (deltas (streamChat chunks))) = concat (map snd lines).
Proof.
  intros lines ending chunks Hwf Hend Hdec.
  assert (Hrun : streamChat chunks
                 = map onDelta (map JSON.Str (filter nonempty (map snd lines)))
                   ++ [onDone]).
  { destruct (read_loop_good chunks TextDecoder.init [] (map delta_line lines) ending)
      as (st' & Hrl & Hfl).
    - apply Forall_map. revert Hwf. apply Forall_impl. exact passes_delta_line.
    - exact Hend.
    - intros [].
    - rewrite map_map. exact Hdec.
    - unfold streamChat, start. rewrite Hrl, Hfl, app_nil_r.
      now rewrite calls_delta_lines. }
  split; [exact Hrun|].
  rewrite Hrun, deltas_map_onDelta, texts_map_Str.
  apply concat_filter_nonempty.
Qed.

Lemma chunking_preserves_deltas_witness :
  streamChat sample_chunks
  = map onDelta (map JSON.Str (filter nonempty (map snd sample_lines))) ++ [onDone]
  /\ concat (texts (deltas (streamChat sample_chunks))) = concat (map snd sample_lines).
Proof.
  apply (chunking_preserves_deltas sample_lines [LF] sample_chunks).
  - repeat constructor; try (vm_compute; intuition discriminate).
  - reflexivity.
  - vm_compute. reflexivity.
Defined.




(** C3, on the code.  A delta line that sits in the buffer behind the
    sentinel line is delivered by the final flush; the same line in a
    later chunk is never read. *)
Theorem line_buffered_after_sentinel_is_delivered :
  streamChat [sentinel_chunk ++ delta_chunk "late"]
  = [onDelta (JSON.Str (lit "late")); onDone]
  /\ streamChat [sentinel_chunk; delta_chunk "late"] = [onDone].
Proof. split; vm_compute; reflexivity. Qed.

(** C4.  When parsing the payload of an extracted [data: ] line
    throws in the read loop, the line is not discarded: the buffer
    becomes the line (without its carriage return), its line feed and
    the rest of the buffer, no [onDelta] call is made and extraction
    stops, whatever complete lines follow.  When more text arrives the
    same line is extracted and parsed again.  A well-formed line that
    a chunk boundary cuts is never parsed in part: nothing is
    delivered and nothing is removed from the buffer before its line
    feed arrives, and its delta is delivered once it has. *)
Theorem parse_failure_pushes_line_back :
  forall (p rest : jsstring) (e : exn),
    ~ In LF p ->
    delta_content (trim p) = Throw e ->
    trim p <> lit "[DONE]" ->
    extract_lines (length (data_line p ++ LF :: rest)) (data_line p ++ LF :: rest)
    = ([], data_line (strip_cr p) ++ [LF] ++ rest, false)
    /\ (forall more : jsstring,
           let buffer := (data_line (strip_cr p) ++ [LF] ++ rest) ++ more in
           extract_lines (length buffer) buffer
           = ([], data_line (strip_cr (strip_cr p)) ++ [LF] ++ rest ++ more, false))
    /\ (forall (q c a b : jsstring),
           well_formed (q, c) -> data_line q ++ [LF] = a ++ b -> b <> [] ->
           extract_lines (length a) a = ([], a, false)
           /\ extract_lines (length (a ++ b)) (a ++ b)
              = (deliver (Some (JSON.Str c)), [], false)).
Proof.
  intros p rest e Hp Hthrow Hdone. split; [|split].
  - rewrite extract_line_len by now apply no_LF_data_line.
    rewrite (verdict_throw p e) by assumption.
    unfold data_line. now rewrite strip_cr_app by reflexivity.
  - intros more buffer. subst buffer.
    rewrite <- !app_assoc. cbn [app].
    rewrite extract_line_len by now apply no_LF_data_line, no_LF_strip_cr.
    rewrite (verdict_throw (strip_cr p) e).
    + unfold data_line. now rewrite strip_cr_app by reflexivity.
    + now rewrite trim_strip_cr.
    + now rewrite trim_strip_cr.
  - intros q c a b Hwf E Hb. split.
    + apply extract_no_LF. intros Hi.
      apply split_first in Hi as (l & r & -> & Hl).
      rewrite <- app_assoc in E. cbn [app] in E.
      apply first_unique in E as [_ E]; auto.
      2:{ apply no_LF_data_line. apply Hwf. }
      destruct r; destruct b; try discriminate. congruence.
    + rewrite <- E. rewrite extract_line_len by (apply no_LF_data_line; apply Hwf).
      rewrite (verdict_data q c Hwf). cbn. now rewrite app_nil_r.
Qed.

Lemma parse_failure_pushes_line_back_witness :
  extract_lines (length (data_line cut_payload ++ LF :: next_line))
    (data_line cut_payload ++ LF :: next_line)
  = ([], data_line (strip_cr cut_payload) ++ [LF] ++ next_line, false)
  /\ (forall more : jsstring,
         let buffer := (data_line (strip_cr cut_payload) ++ [LF] ++ next_line) ++ more in
         extract_lines (length buffer) buffer
         = ([], data_line (strip_cr (strip_cr cut_payload)) ++ [LF] ++ next_line ++ more,
            false))
  /\ (forall (q c a b : jsstring),
         well_formed (q, c) -> data_line q ++ [LF] = a ++ b -> b <> [] ->
         extract_lines (length a) a = ([], a, false)
         /\ extract_lines (length (a ++ b)) (a ++ b)
            = (deliver (Some (JSON.Str c)), [], false)).
Proof.
  apply (parse_failure_pushes_line_back cut_payload next_line SyntaxError).
  - vm_compute. intuition discriminate.
  - reflexivity.
  - vm_compute. discriminate.
Defined.

(** C5.  When the response to the request of a [sendMessage] call
    has status 429, the call ends in its [catch] block: one error
    toast with the rate-limit message is added, the transcript is
    left as it is (no assistant message is added), [isLoading] is
    cleared, no call stays in flight and no further request is
    posted. *)
Theorem rate_limit_surfaced_once :
  forall (N : Z -> Z -> jsstring) (st : state) (c : call)
         (error_message : jsstring) (has_body : bool),
    pending st = Some c ->
    at_stage c = AwaitFetch ->
    exists st',
      step N (Fetched (Resp 429 error_message has_body)) st = Some st'
      /\ toasts st'
         = toasts st
           ++ [toast_error
                 (lit "Rate limit exceeded. Please wait a moment and try again.")]
      /\ messages st' = messages st
      /\ isLoading st' = false
      /\ pending st' = None
      /\ requests st' = requests st
      /\ saved st' = saved st.
Proof.
  intros N st c msg b Hp Hs. eexists. cbn [step]. rewrite Hp, Hs.
  unfold streamChat_response. cbn. repeat split.
Qed.

Lemma rate_limit_surfaced_once_witness :
  exists st',
    step integer_toString (Fetched (Resp 429 [] false))
      (state_after [Send (lit "What tests do I need?") 1]) = Some st'
    /\ toasts st'
       = toasts (state_after [Send (lit "What tests do I need?") 1])
         ++ [toast_error
               (lit "Rate limit exceeded. Please wait a moment and try again.")]
    /\ messages st' = messages (state_after [Send (lit "What tests do I need?") 1])
    /\ isLoading st' = false
    /\ pending st' = None
    /\ requests st' = requests (state_after [Send (lit "What tests do I need?") 1])
    /\ saved st' = saved (state_after [Send (lit "What tests do I need?") 1]).
Proof.
  eapply rate_limit_surfaced_once; reflexivity.
Defined.

(** C6, as stated, fails: on the fresh transcript, where no
    streaming message exists, [updateAssistant("")] adds a message. *)
Lemma empty_delta_appends :
  length (snd (updateAssistant [] [] [INITIAL_MESSAGE])) <> length [INITIAL_MESSAGE].
Proof. vm_compute. discriminate. Qed.

(** C6, amended.  [updateAssistant("")] leaves the accumulated
    content as it is; it leaves the transcript as it is when the last
    message is the streaming assistant message and holds the
    accumulated content; when the last message is not the streaming
    placeholder it appends a streaming message with the accumulated
    content.  [streamChat] never calls [onDelta] with the empty
    string. *)
Theorem empty_delta_amended :
  forall (acc : jsstring) (prev : list Message),
    (last_is_streaming prev = true ->
     option_map content (last_message prev) = Some acc ->
     updateAssistant [] acc prev = (acc, prev))
    /\ (last_is_streaming prev = false ->
        updateAssistant [] acc prev
        = (acc, prev ++ [mkMessage (lit "streaming") assistant acc]))
    /\ (forall chunks c,
           In (onDelta c) (streamChat chunks) -> c <> JSON.Str []).
Proof.
  intros acc prev. split; [|split].
  - intros Hl Hc. unfold updateAssistant. rewrite app_nil_r. f_equal.
    destruct prev as [|m pre _] using rev_ind; [discriminate|].
    unfold last_is_streaming in Hl. rewrite last_message_snoc in Hl, Hc.
    rewrite show_assistant_snoc, Hl. cbn [option_map] in Hc.
    injection Hc as <-. now destruct m.
  - intros Hl. unfold updateAssistant. rewrite app_nil_r.
    now rewrite show_assistant_not_last.
  - intros chunks c Hi ->. apply streamChat_calls_truthy in Hi. discriminate.
Qed.

Lemma empty_delta_amended_witness :
  updateAssistant [] (lit "ab")
    [INITIAL_MESSAGE; mkMessage (lit "streaming") assistant (lit "ab")]
  = (lit "ab", [INITIAL_MESSAGE; mkMessage (lit "streaming") assistant (lit "ab")])
  /\ updateAssistant [] [] [INITIAL_MESSAGE]
     = ([], [INITIAL_MESSAGE] ++ [mkMessage (lit "streaming") assistant []]).
Proof.
  split.
  - apply (proj1 (empty_delta_amended (lit "ab")
                    [INITIAL_MESSAGE;
                     mkMessage (lit "streaming") assistant (lit "ab")]));
      reflexivity.
  - apply (proj1 (proj2 (empty_delta_amended [] [INITIAL_MESSAGE]))).
    reflexivity.
Defined.

(** C7.  Finalization is idempotent: a second call of the completion
    updater leaves the transcript as the first call left it (same
    messages, same ids), the number of messages never changes, and on
    a transcript with no message whose id is ["streaming"] the updater
    changes nothing.  So does the transcript of the session under two
    calls of the completion handler. *)
Theorem finalize_idempotent :
  forall (now now' : Z) (prev : list Message),
    finalize now' (finalize now prev) = finalize now prev
    /\ length (finalize now prev) = length prev
    /\ (Forall (fun m => is_streaming m = false) prev -> finalize now prev = prev)
    /\ (forall (c c' : call) (st : state),
           messages (completed now' c' (completed now c st))
           = messages (completed now c st)).
Proof.
  intros now now' prev. split; [|split; [|split]].
  - apply finalize_id, finalize_not_streaming.
  - apply length_map.
  - apply finalize_id.
  - intros c c' st. rewrite !completed_messages.
    apply finalize_id, finalize_not_streaming.
Qed.

Lemma finalize_idempotent_witness :
  finalize 7 [INITIAL_MESSAGE; mkMessage (lit "5") Transcript.user (lit "hi")]
  = [INITIAL_MESSAGE; mkMessage (lit "5") Transcript.user (lit "hi")].
Proof.
  apply (proj1 (proj2 (proj2 (finalize_idempotent 7 7
                                [INITIAL_MESSAGE;
                                 mkMessage (lit "5") Transcript.user
                                   (lit "hi")])))).
  repeat constructor.
Defined.

(** C8, on the code.  A stream that fails after a delta leaves its
    message under the id ["streaming"]; the next send appends the
    user message behind it, and the first delta of its reply appends a
    second message with the id ["streaming"]. *)
Theorem failed_stream_leaves_second_placeholder :
  streaming_count (messages (state_after resend_after_failure)) = 2
  /\ map id (messages (state_after resend_after_failure))
     = [lit "welcome"; lit "1"; lit "streaming"; lit "3"; lit "streaming"].
Proof. split; vm_compute; reflexivity. Qed.

(** C9.  [streamChat] completes on every sequence of chunks: it makes
    its [onDelta] calls and then [onDone].  A line whose payload
    parses but has no [choices[0].delta.content] is passed over with
    no call, in the read loop and in the flush.  A trailing fragment
    whose payload still fails to parse at the end of input is ignored
    by the flush, and [onDone] is still called.  In the session no
    chunk and no end of input adds an error toast, and the end of
    input clears [isLoading]. *)
Theorem decoder_never_raises :
  (forall chunks : list (list byte),
      exists calls,
        streamChat chunks = map onDelta calls ++ [StreamDecoder.onDone])
  /\ (forall p rest : jsstring,
         ~ In LF p ->
         delta_content (trim p) = Normal None ->
         extract_lines (length (data_line p ++ LF :: rest)) (data_line p ++ LF :: rest)
         = extract_lines (length rest) rest
         /\ flush_line (data_line p) = [])
  /\ streamChat [ascii_bytes (data_line (js "{'choices':[{'delta':{}}]}") ++ [LF])]
     = [StreamDecoder.onDone]
  /\ (forall (lines : list (jsstring * jsstring)) (p : jsstring) (e : exn)
             (chunks : list (list byte)),
         Forall well_formed lines ->
         ~ In LF p ->
         delta_content (trim p) = Throw e ->
         snd (TextDecoder.decode TextDecoder.init (concat chunks))
         = unlines (map (fun l => data_line (fst l)) lines) ++ data_line p ->
         streamChat chunks
         = map onDelta (map JSON.Str (filter nonempty (map snd lines)))
           ++ [StreamDecoder.onDone])
  /\ (forall (N : Z -> Z -> jsstring) (st : state) (c : call)
             (r : StreamDecoder.reader_state),
         pending st = Some c ->
         at_stage c = Reading r ->
         (forall value now,
             exists st',
               step N (Chunk value now) st = Some st' /\ toasts st' = toasts st)
         /\ (forall now,
                exists st',
                  step N (EndOfStream now) st = Some st'
                  /\ toasts st' = toasts st
                  /\ isLoading st' = false
                  /\ pending st' = None)).
Proof.
  split; [|split; [|split; [|split]]].
  - intros chunks. unfold streamChat.
    destruct (read_loop start chunks) as [calls st]. eauto.
  - intros p rest Hp Hc. split.
    + rewrite extract_line_len by now apply no_LF_data_line.
      rewrite (verdict_payload p None Hc). cbn [deliver app].
      now destruct (extract_lines (length rest) rest) as [[c b] d].
    + now rewrite (flush_line_payload p None Hc).
  - vm_compute. reflexivity.
  - intros lines p e chunks Hwf Hp He Hdec.
    destruct (read_loop_open chunks TextDecoder.init [] (map delta_line lines)
                (data_line p)) as (st' & Hrl & Hbuf).
    + apply Forall_map. revert Hwf. apply Forall_impl. exact passes_delta_line.
    + now apply no_LF_data_line.
    + intros [].
    + rewrite map_map. exact Hdec.
    + unfold streamChat, start. rewrite Hrl, Hbuf.
      rewrite flush_single, app_nil_r, calls_delta_lines; auto.
      * now apply no_LF_data_line.
      * now apply (flush_line_throw p e).
  - intros N st c r Hp Hs. split.
    + intros value now. cbn [step]. rewrite Hp, Hs.
      unfold streamChat_chunk, streamChat_flush.
      destruct (feed_with (throws N) r value) as [calls r1].
      rewrite deliver_all_spec. destruct (streamDone r1).
      * rewrite deliver_all_spec. eexists. split; [reflexivity|].
        match goal with
        | |- context [completed ?n ?c ?s] =>
            destruct (completed_end n c s) as (-> & _)
        end. reflexivity.
      * eexists. split; reflexivity.
    + intros now. cbn [step]. rewrite Hp, Hs.
      unfold streamChat_flush. rewrite deliver_all_spec.
      eexists. split; [reflexivity|].
      match goal with
      | |- context [completed ?n ?c ?s] =>
          destruct (completed_end n c s) as (-> & -> & ->)
      end. repeat split.
Qed.

Lemma decoder_never_raises_witness :
  streamChat [delta_chunk "a" ++ ascii_bytes (data_line cut_payload)]
  = map onDelta (map JSON.Str (filter nonempty (map snd [(delta_payload "a", lit "a")])))
    ++ [StreamDecoder.onDone]
  /\ exists st',
      step integer_toString (EndOfStream 9)
        (state_after [Send (lit "hi") 1; streaming_response;
                      Chunk (ascii_bytes (data_line cut_payload)) 2]) = Some st'
      /\ toasts st' = []
      /\ isLoading st' = false
      /\ pending st' = None.
Proof.
  destruct decoder_never_raises as (_ & _ & _ & Hflush & Hsession). split.
  - apply (Hflush [(delta_payload "a", lit "a")] cut_payload SyntaxError).
    + repeat constructor; vm_compute; intuition discriminate.
    + vm_compute. intuition discriminate.
    + reflexivity.
    + vm_compute. reflexivity.
  - destruct (Hsession integer_toString
                (state_after [Send (lit "hi") 1; streaming_response;
                              Chunk (ascii_bytes (data_line cut_payload)) 2])
                _ _ eq_refl eq_refl) as [_ Hend].
    exact (Hend 9%Z).
Defined.



(* ================================================================= *)
(** * Further properties of the stream decoder *)

Import Notions.

Lemma verdict_ignored (l : jsstring) :
  ignored l = true -> line_verdict l = Go [].
Proof.
  unfold ignored, line_verdict. intros H.
  destruct (startsWith (lit ":") (strip_cr l) || eqb (trim (strip_cr l)) []);
    [reflexivity|].
  cbn [orb] in H. now rewrite H.
Qed.

Lemma passes_item (i : item) : item_ok i -> passes (item_calls i).
Proof.
  destruct i as [p c|p|l]; cbn [item_ok item_calls].
  - apply passes_delta_line.
  - intros (Hp & content & Hc & Hd). split; [now apply no_LF_data_line|].
    cbn [fst snd]. rewrite (verdict_payload p content Hc). now rewrite Hd.
  - intros [Hl Hi]. split; [exact Hl|]. now apply verdict_ignored.
Qed.

Lemma calls_items (items : list item) :
  flat_map snd (map item_calls items)
  = map JSON.Str (filter nonempty (flat_map item_content items)).
Proof.
  induction items as [|[p c|p|l] items IH]; [reflexivity| |exact IH|exact IH].
  cbn [map flat_map item_calls item_content delta_line snd app filter].
  rewrite IH. unfold deliver. cbn [JSON.truthy]. now destruct (nonempty c).
Qed.

Lemma lines_items (items : list item) :
  map fst (map item_calls items) = map item_line items.
Proof.
  rewrite map_map. apply map_ext. now intros [p c|p|l].
Qed.

(** X1.  Lines that carry no content do not matter: a stream of
    delta lines mixed with data lines whose payload holds no content,
    blank lines, comment lines and lines without the data prefix,
    ended by the sentinel, delivers the contents of the delta lines
    in order and then completes, however the reader cuts it into
    chunks. *)
Theorem other_lines_do_not_matter :
  forall (items : list item) (ending : jsstring) (chunks : list (list byte)),
    Forall item_ok items ->
    forallb is_space ending = true ->
    snd (TextDecoder.decode TextDecoder.init (concat chunks))
    = unlines (map item_line items) ++ sentinel ++ ending ->
    streamChat chunks
    = map onDelta (map JSON.Str (filter nonempty (flat_map item_content items)))
      ++ [StreamDecoder.onDone].
Proof.
  intros items ending chunks Hok Hend Hdec.
  destruct (read_loop_good chunks TextDecoder.init [] (map item_calls items) ending)
    as (st' & Hrl & Hfl).
  - apply Forall_map. revert Hok. apply Forall_impl. exact passes_item.
  - exact Hend.
  - intros [].
  - rewrite lines_items. exact Hdec.
  - unfold streamChat, start. rewrite Hrl, Hfl, app_nil_r.
    now rewrite calls_items.
Qed.

Lemma other_lines_do_not_matter_witness :
  streamChat sample_item_chunks
  = map onDelta
      (map JSON.Str (filter nonempty (flat_map item_content sample_items)))
    ++ [StreamDecoder.onDone].
Proof.
  apply (other_lines_do_not_matter sample_items [CR; LF; CR; LF]).
  - repeat constructor;
      try (vm_compute; intuition discriminate);
      try (eexists; split; vm_compute; reflexivity).
  - reflexivity.
  - vm_compute. reflexivity.
Defined.

Lemma flush_one (raw : jsstring) : ~ In LF raw -> flush raw = flush_line raw.
Proof.
  intros H. unfold flush. rewrite (split_no_sep _ _ H).
  cbn [flat_map]. rewrite app_nil_r.
  destruct (nonempty (trim raw)) eqn:E; [reflexivity|].
  unfold flush_line.
  replace (eqb (trim raw) []) with true.
  - now rewrite !orb_true_r.
  - destruct (trim raw); [reflexivity|discriminate].
Qed.

(** X2.  A stream that ends without the sentinel loses nothing: when
    the server closes the stream after some delta lines, the last of
    them possibly without its line feed, every content is delivered
    in order, the last one by the final flush, and the stream
    completes, however the reader cuts it into chunks. *)
Theorem stream_without_sentinel :
  forall (lines : list (jsstring * jsstring))
         (last : option (jsstring * jsstring)) (chunks : list (list byte)),
    Forall well_formed lines ->
    (forall l, last = Some l -> well_formed l) ->
    snd (TextDecoder.decode TextDecoder.init (concat chunks))
    = unlines (map data_line (map fst lines)) ++ open_line last ->
    streamChat chunks
    = map onDelta
        (map JSON.Str (filter nonempty (map snd lines ++ open_content last)))
      ++ [StreamDecoder.onDone].
Proof.
  intros lines last chunks Hl Hlast Hdec.
  assert (Hno : ~ In LF (open_line last)).
  { destruct last as [[p c]|]; [|intros []].
    apply no_LF_data_line. now destruct (Hlast _ eq_refl). }
  destruct (read_loop_open chunks TextDecoder.init [] (map delta_line lines)
              (open_line last)) as (st' & Hrl & Hbuf).
  - apply Forall_map. revert Hl. apply Forall_impl. exact passes_delta_line.
  - exact Hno.
  - intros [].
  - rewrite map_map. rewrite map_map in Hdec. exact Hdec.
  - unfold streamChat, start. rewrite Hrl, Hbuf, calls_delta_lines.
    rewrite (flush_one _ Hno). f_equal. rewrite filter_app, !map_app. f_equal.
    f_equal.
    destruct last as [[p c]|]; [|reflexivity].
    destruct (Hlast _ eq_refl) as [_ Hp]. cbn [open_line open_content fst snd] in *.
    rewrite (flush_line_payload _ _ Hp). unfold deliver. cbn [JSON.truthy filter].
    now destruct (nonempty c).
Qed.

Lemma stream_without_sentinel_witness :
  streamChat open_chunks
  = [onDelta (JSON.Str (lit "GRE")); onDelta (JSON.Str (lit ", TOEFL"));
     StreamDecoder.onDone].
Proof.
  apply (stream_without_sentinel open_lines (Some open_last) open_chunks).
  - repeat constructor; vm_compute; intuition discriminate.
  - intros l [= <-]. split; vm_compute; intuition discriminate.
  - vm_compute. reflexivity.
Defined.






Lemma sentinel_stops_reading_witness :
  streamChat ([delta_chunk "a"; sentinel_chunk] ++ [delta_chunk "late"])
  = streamChat [delta_chunk "a"; sentinel_chunk].
Proof.
  apply (sentinel_stops_reading [delta_chunk "a"; sentinel_chunk]
           [delta_chunk "late"]).
  vm_compute. reflexivity.
Defined.



Lemma hd_strip_cr (p : jsstring) (c : N) :
  hd_error p <> Some c -> hd_error (strip_cr p) <> Some c.
Proof.
  unfold strip_cr, drop_last. destruct (endsWith CR p); [|auto].
  destruct p as [|x [|y r]]; cbn; auto. discriminate.
Qed.

Lemma starts_data_space (q : jsstring) :
  hd_error q <> Some 32%N -> startsWith (lit "data: ") (lit "data:" ++ q) = false.
Proof.
  destruct q as [|x q]; [reflexivity|]. cbn [hd_error]. intros H.
  change (startsWith (lit "data: ") (lit "data:" ++ x :: q))
    with ((32 =? x)%N && true).
  destruct (N.eqb_spec 32 x) as [<-|_]; [now elim H|reflexivity].
Qed.

(** X5.  The data prefix needs its space: a line that starts with
    [data:] and no space behind the colon is passed over by the read
    loop and by the final flush, whatever its payload, a well-formed
    delta included. *)
Theorem data_prefix_needs_its_space :
  forall (p rest : jsstring),
    ~ In LF p ->
    hd_error p <> Some 32%N ->
    extract_lines (length (lit "data:" ++ p ++ LF :: rest))
                  (lit "data:" ++ p ++ LF :: rest)
    = extract_lines (length rest) rest
    /\ flush_line (lit "data:" ++ p) = [].
Proof.
  intros p rest Hp Hh. split.
  - rewrite app_assoc.
    rewrite extract_line_len.
    + assert (Hv : line_verdict (lit "data:" ++ p) = Go []).
      { apply verdict_ignored. unfold ignored.
        rewrite (strip_cr_app (lit "data:") p eq_refl).
        rewrite (starts_data_space _ (hd_strip_cr _ _ Hh)).
        apply orb_true_r. }
      rewrite Hv. now destruct (extract_lines (length rest) rest) as [[c b] d].
    + intros Hi. apply in_app_or in Hi. destruct Hi as [Hi|Hi]; [|auto].
      vm_compute in Hi. intuition discriminate.
  - unfold flush_line. rewrite (starts_data_space _ Hh). cbn [negb].
    now destruct (_ || _ || _).
Qed.

Lemma data_prefix_needs_its_space_witness :
  extract_lines (length (lit "data:" ++ delta_payload "x" ++ [LF]))
                (lit "data:" ++ delta_payload "x" ++ [LF])
  = extract_lines 0 []
  /\ flush_line (lit "data:" ++ delta_payload "x") = [].
Proof.
  apply (data_prefix_needs_its_space (delta_payload "x") []).
  - vm_compute. intuition discriminate.
  - vm_compute. discriminate.
Defined.

(* ================================================================= *)
(** * Contents of any kind *)

Import Stringify JSONFacts.


Lemma hex_hex_digit (n : N) : (n < 16)%N -> JSON.hex (hex_digit n) = Some n.
Proof.
  intros H. unfold hex_digit, JSON.hex.
  destruct (N.ltb_spec n 10) as [Hn|Hn].
  - replace (48 <=? 48 + n)%N with true by (symmetry; apply N.leb_le; lia).
    replace (48 + n <=? 57)%N with true by (symmetry; apply N.leb_le; lia).
    cbn [andb]. f_equal. lia.
  - replace (48 <=? 87 + n)%N with true by (symmetry; apply N.leb_le; lia).
    replace (87 + n <=? 57)%N with false by (symmetry; apply N.leb_gt; lia).
    replace (97 <=? 87 + n)%N with true by (symmetry; apply N.leb_le; lia).
    replace (87 + n <=? 102)%N with true by (symmetry; apply N.leb_le; lia).
    cbn [andb]. f_equal. lia.
Qed.

Lemma hex4 (c : N) :
  (c < 65536)%N ->
  (c / 4096 < 16 /\ (c / 256) mod 16 < 16 /\ (c / 16) mod 16 < 16
   /\ c mod 16 < 16
   /\ c / 4096 * 4096 + (c / 256) mod 16 * 256 + (c / 16) mod 16 * 16
      + c mod 16 = c)%N.
Proof.
  intros H. zify. Z.to_euclidean_division_equations. lia.
Qed.

Lemma string_body_escape (c : N) (X : jsstring) (t rest : jsstring) :
  (c < 65536)%N ->
  JSON.string_body X = Some (t, rest) ->
  JSON.string_body (unicode_escape c ++ X) = Some (c :: t, rest).
Proof.
  intros Hc HX. destruct (hex4 c Hc) as (H1 & H2 & H3 & H4 & E).
  unfold unicode_escape. cbn [app JSON.string_body].
  change (92 =? 34)%N with false. change (92 =? 92)%N with true.
  change (117 =? 117)%N with true. cbv iota.
  rewrite !hex_hex_digit by assumption. now rewrite HX, E.
Qed.

Lemma string_body_plain (c : N) (X t rest : jsstring) :
  (c =? 34)%N = false -> (c =? 92)%N = false -> (c <? 32)%N = false ->
  JSON.string_body X = Some (t, rest) ->
  JSON.string_body (c :: X) = Some (c :: t, rest).
Proof. intros H1 H2 H3 HX. cbn [JSON.string_body]. now rewrite H1, H2, H3, HX. Qed.

Lemma string_body_short (e x : N) (X t rest : jsstring) :
  JSON.escape e = Some x -> (e =? 117)%N = false ->
  JSON.string_body X = Some (t, rest) ->
  JSON.string_body ([92; e]%N ++ X) = Some (x :: t, rest).
Proof.
  intros He Hu HX. cbn [app JSON.string_body].
  change (92 =? 34)%N with false. change (92 =? 92)%N with true. cbv iota.
  now rewrite Hu, He, HX.
Qed.

Lemma surrogate_plain (c : N) :
  is_lead c = true \/ is_trail c = true ->
  (c =? 34)%N = false /\ (c =? 92)%N = false /\ (c <? 32)%N = false
  /\ (c < 65536)%N.
Proof.
  unfold is_lead, is_trail. intros H.
  assert (55296 <= c <= 57343)%N.
  { destruct H as [H|H]; apply andb_prop in H; destruct H as [H1 H2];
      apply N.leb_le in H1; apply N.leb_le in H2; lia. }
  repeat split; try (apply N.eqb_neq; lia); try (apply N.ltb_ge; lia); lia.
Qed.

Lemma string_body_quote (n : nat) :
  forall s rest,
    length s <= n ->
    JSON.string_body (quote_body s ++ 34%N :: rest) = Some (s, rest).
Proof.
  induction n as [|n IH]; intros s rest Hn.
  - destruct s; [reflexivity|cbn in Hn; lia].
  - destruct s as [|c r]; [reflexivity|]. cbn [length] in Hn.
    assert (Hr : JSON.string_body (quote_body r ++ 34%N :: rest) = Some (r, rest))
      by (apply IH; lia).
    cbn [quote_body].
    destruct (N.eqb_spec c 8) as [->|H8];
      [rewrite <- app_assoc; now apply string_body_short|].
    destruct (N.eqb_spec c 9) as [->|H9];
      [rewrite <- app_assoc; now apply string_body_short|].
    destruct (N.eqb_spec c 10) as [->|H10];
      [rewrite <- app_assoc; now apply string_body_short|].
    destruct (N.eqb_spec c 12) as [->|H12];
      [rewrite <- app_assoc; now apply string_body_short|].
    destruct (N.eqb_spec c 13) as [->|H13];
      [rewrite <- app_assoc; now apply string_body_short|].
    destruct (N.eqb_spec c 34) as [->|H34];
      [rewrite <- app_assoc; now apply string_body_short|].
    destruct (N.eqb_spec c 92) as [->|H92];
      [rewrite <- app_assoc; now apply string_body_short|].
    destruct (N.ltb_spec c 32) as [H32|H32].
    { rewrite <- app_assoc. apply string_body_escape; [lia|exact Hr]. }
    assert (P34 : (c =? 34)%N = false) by now apply N.eqb_neq.
    assert (P92 : (c =? 92)%N = false) by now apply N.eqb_neq.
    assert (P32 : (c <? 32)%N = false) by now apply N.ltb_ge.
    destruct (is_lead c) eqn:El.
    { destruct (surrogate_plain c (or_introl El)) as (_ & _ & _ & Hc).
      destruct r as [|d r'].
      - now apply (string_body_escape c (34%N :: rest) [] rest).
      - destruct (is_trail d) eqn:Et.
        + destruct (surrogate_plain d (or_intror Et)) as (D1 & D2 & D3 & _).
          cbn [app]. apply string_body_plain; auto.
          apply string_body_plain; auto. apply IH. cbn [length] in Hn. lia.
        + rewrite <- app_assoc. now apply string_body_escape. }
    destruct (is_trail c) eqn:Et.
    { destruct (surrogate_plain c (or_intror Et)) as (_ & _ & _ & Hc).
      rewrite <- app_assoc. now apply string_body_escape. }
    cbn [app]. now apply string_body_plain.
Qed.

Lemma parse_value_delta (s : jsstring) (f : nat) :
  JSON.parse_value (9 + f) (stringify_delta s) = JSON.Ok (delta_value s, []).
Proof.
  unfold stringify_delta, quote.
  rewrite <- !app_assoc.
  change (js "}}]}") with [125; 125; 93; 125]%N.
  change ([34%N] ++ quote_body s ++ [34%N] ++ [125; 125; 93; 125]%N)
    with (34%N :: (quote_body s ++ 34%N :: [125; 125; 93; 125]%N)).
  set (Q := quote_body s ++ 34%N :: [125; 125; 93; 125]%N).
  assert (HQ : JSON.string_body Q = Some (s, [125; 125; 93; 125]%N))
    by (apply (string_body_quote (length s)); lia).
  cbn. rewrite HQ. reflexivity.
Qed.

Lemma parse_delta (s : jsstring) :
  JSON.parse (stringify_delta s) = Normal (delta_value s).
Proof.
  unfold JSON.parse.
  assert (H : 32 <= length (stringify_delta s)).
  { unfold stringify_delta. rewrite length_app.
    change (length (js "{'choices':[{'delta':{'content':")) with 32. lia. }
  replace (2 * length (stringify_delta s) + 2)
    with (9 + (2 * length (stringify_delta s) - 7)) by lia.
  now rewrite parse_value_delta.
Qed.

Lemma delta_content_stringify (s : jsstring) :
  delta_content (stringify_delta s) = Normal (Some (JSON.Str s)).
Proof. unfold delta_content. now rewrite parse_delta. Qed.

Lemma hex_digit_not_LF (n : N) : hex_digit n <> LF.
Proof.
  unfold hex_digit, LF. destruct (N.ltb_spec n 10); lia.
Qed.

Lemma unicode_escape_no_LF (c : N) : ~ In LF (unicode_escape c).
Proof.
  unfold unicode_escape. cbn [In]. intros H.
  repeat (destruct H as [H|H];
          [first [discriminate H|now apply hex_digit_not_LF in H]|]).
  exact H.
Qed.

Lemma quote_body_no_LF (n : nat) :
  forall s, length s <= n -> ~ In LF (quote_body s).
Proof.
  induction n as [|n IH]; intros s Hn.
  - destruct s; [intros []|cbn in Hn; lia].
  - destruct s as [|c r]; [intros []|]. cbn [length] in Hn.
    assert (Hr : ~ In LF (quote_body r)) by (apply IH; lia).
    assert (Hs : forall e, e <> LF -> ~ In LF ([92%N; e] ++ quote_body r)).
    { intros e He [H|[H|H]]; [discriminate H|now apply He|now apply Hr]. }
    assert (Hu : ~ In LF (unicode_escape c ++ quote_body r)).
    { intros H. apply in_app_or in H. destruct H as [H|H]; [|now apply Hr].
      now apply (unicode_escape_no_LF c). }
    cbn [quote_body].
    destruct (N.eqb_spec c 8); [apply Hs; discriminate|].
    destruct (N.eqb_spec c 9); [apply Hs; discriminate|].
    destruct (N.eqb_spec c 10) as [|H10]; [apply Hs; discriminate|].
    destruct (N.eqb_spec c 12); [apply Hs; discriminate|].
    destruct (N.eqb_spec c 13); [apply Hs; discriminate|].
    destruct (N.eqb_spec c 34); [apply Hs; discriminate|].
    destruct (N.eqb_spec c 92); [apply Hs; discriminate|].
    destruct (c <? 32)%N; [exact Hu|].
    destruct (is_lead c).
    { destruct r as [|d r']; [apply unicode_escape_no_LF|].
      destruct (is_trail d) eqn:Et; [|exact Hu].
      destruct (surrogate_plain d (or_intror Et)) as (_ & _ & D3 & _).
      apply N.ltb_ge in D3.
      intros [H|[H|H]]; [now apply H10|unfold LF in H; lia|].
      revert H. apply IH. cbn [length] in Hn. lia. }
    destruct (is_trail c); [exact Hu|].
    intros [H|H]; [now apply H10|now apply Hr].
Qed.

Lemma trim_braces (m : jsstring) :
  trim (123%N :: m ++ [125%N]) = 123%N :: m ++ [125%N].
Proof.
  unfold trim. cbn [trimStart]. change (is_space 123) with false. cbv iota.
  unfold trimEnd. change (123%N :: m ++ [125%N]) with ((123%N :: m) ++ [125%N]).
  rewrite rev_app_distr. cbn [rev app trimStart].
  change (is_space 125) with false. cbv iota.
  change (125%N :: rev m ++ [123%N]) with ([125%N] ++ rev (123%N :: m)).
  rewrite rev_app_distr, rev_involutive. reflexivity.
Qed.

Lemma well_formed_stringify (s : jsstring) : well_formed (stringify_delta s, s).
Proof.
  unfold well_formed. cbn [fst snd].
  assert (E : stringify_delta s
              = 123%N :: (js "'choices':[{'delta':{'content':" ++ quote s
                          ++ js "}}]") ++ [125%N]).
  { unfold stringify_delta. rewrite <- !app_assoc. reflexivity. }
  split.
  - unfold stringify_delta, quote. intros H.
    repeat (apply in_app_or in H; destruct H as [H|H]);
      try (vm_compute in H; intuition discriminate).
    now apply (quote_body_no_LF (length s) s) in H.
  - rewrite E, trim_braces, <- E. apply delta_content_stringify.
Qed.

(** X19.  Any content can be streamed: whatever code units the
    contents hold, quotes, backslashes, line feeds, control
    characters, surrogates in pairs or alone, a stream of delta lines
    whose payloads are the contents as [JSON.stringify] writes them
    delivers exactly these contents, the empty ones apart, in order
    and then completes, however the reader cuts it into chunks. *)
Theorem any_content_can_be_streamed :
  forall (contents : list jsstring) (ending : jsstring)
         (chunks : list (list byte)),
    forallb is_space ending = true ->
    snd (TextDecoder.decode TextDecoder.init (concat chunks))
    = unlines (map (fun s => data_line (stringify_delta s)) contents)
      ++ sentinel ++ ending ->
    streamChat chunks
    = map onDelta (map JSON.Str (filter nonempty contents))
      ++ [StreamDecoder.onDone].
Proof.
  intros contents ending chunks Hend Hdec.
  set (lines := map (fun s => (stringify_delta s, s)) contents).
  destruct (read_loop_good chunks TextDecoder.init [] (map delta_line lines) ending)
    as (st' & Hrl & Hfl).
  - apply Forall_map. apply Forall_map. apply Forall_forall.
    intros s _. apply passes_delta_line. apply well_formed_stringify.
  - exact Hend.
  - intros [].
  - unfold lines. rewrite !map_map. cbn [delta_line fst]. exact Hdec.
  - unfold streamChat, start. rewrite Hrl, Hfl, app_nil_r, calls_delta_lines.
    replace (map snd lines) with contents; [reflexivity|].
    unfold lines. rewrite map_map. symmetry. apply map_id.
Qed.

Lemma any_content_can_be_streamed_witness :
  streamChat awkward_chunks
  = map onDelta (map JSON.Str (filter nonempty awkward_contents))
    ++ [StreamDecoder.onDone].
Proof.
  apply (any_content_can_be_streamed awkward_contents [LF] awkward_chunks).
  - reflexivity.
  - vm_compute. reflexivity.
Defined.

(* ================================================================= *)
(** * Further properties of the transcript and the session *)


Lemma Role_eqb_eq (a b : Role) : Role_eqb a b = true -> a = b.
Proof. destruct a, b; cbn; congruence. Qed.

(** X6.  A delta touches only the end of the transcript: after
    [updateAssistant] the transcript ends with the assistant message
    of id ["streaming"] whose content is all the text received so
    far, and the messages before it are those of the transcript
    before, in which at most a last streaming message was replaced. *)
Theorem updateAssistant_touches_only_the_end :
  forall (chunk acc : jsstring) (prev : list Message),
    fst (updateAssistant chunk acc prev) = acc ++ chunk
    /\ exists pre,
        snd (updateAssistant chunk acc prev)
        = pre ++ [mkMessage (lit "streaming") assistant (acc ++ chunk)]
        /\ (pre = prev
            \/ exists m, prev = pre ++ [m] /\ role m = assistant
                         /\ id m = lit "streaming").
Proof.
  intros chunk acc prev. split; [reflexivity|].
  unfold updateAssistant. cbn [snd].
  destruct prev as [|x l] using rev_ind.
  - exists []. split; [apply show_assistant_nil|now left].
  - clear IHl. rewrite show_assistant_snoc.
    destruct (Role_eqb (role x) assistant) eqn:Er;
      [destruct (is_streaming x) eqn:Es|]; cbn [andb].
    + exists l. apply Role_eqb_eq in Er. apply eqb_eq in Es.
      split; [now rewrite Er, Es|]. right. now exists x.
    + exists (l ++ [x]). split; [now rewrite <- app_assoc|now left].
    + exists (l ++ [x]). split; [now rewrite <- app_assoc|now left].
Qed.

(** X7.  Deltas compose: delivering several deltas on which
    [updateAssistant] returns, one after the other, leaves the
    accumulated text and the transcript as delivering the
    concatenation of their texts at once does. *)
Theorem deltas_compose :
  forall (N : Z -> Z -> jsstring) (calls : list JSON.value)
         (texts : list jsstring) (acc : jsstring) (prev : list Message),
    calls <> [] ->
    map (ToString N) calls = map Normal texts ->
    apply_deltas N calls acc prev = updateAssistant (concat texts) acc prev.
Proof.
  intros N calls texts acc prev Hne Ht.
  assert (Ha : applied_texts N calls = texts).
  { clear Hne. revert texts Ht.
    induction calls as [|c calls IH]; intros [|t texts] Ht; try discriminate;
      [reflexivity|].
    cbn [map] in Ht. injection Ht as Hc Ht. cbn [applied_texts].
    rewrite Hc. f_equal. now apply IH. }
  assert (Hx : applied_texts N calls <> []).
  { rewrite Ha. destruct calls, texts; try discriminate. now elim Hne. }
  rewrite (surjective_pairing (apply_deltas N calls acc prev)).
  now rewrite apply_deltas_fst, (apply_deltas_snd N calls acc prev Hx), Ha.
Qed.

Lemma deltas_compose_witness :
  apply_deltas integer_toString [JSON.Str (lit "GRE"); JSON.Str (lit ", TOEFL")]
    [] [INITIAL_MESSAGE]
  = updateAssistant (lit "GRE, TOEFL") [] [INITIAL_MESSAGE].
Proof.
  apply (deltas_compose integer_toString
           [JSON.Str (lit "GRE"); JSON.Str (lit ", TOEFL")]
           [lit "GRE"; lit ", TOEFL"] [] [INITIAL_MESSAGE]).
  - discriminate.
  - reflexivity.
Defined.

Lemma apply_deltas_app (N : Z -> Z -> jsstring) (a b : list JSON.value) :
  forall acc prev,
    apply_deltas N (a ++ b) acc prev
    = apply_deltas N b (fst (apply_deltas N a acc prev))
        (snd (apply_deltas N a acc prev)).
Proof.
  induction a as [|x a IH]; intros acc prev; [reflexivity|].
  cbn [app apply_deltas]. destruct (ToString N x); [|apply IH].
  unfold updateAssistant. apply IH.
Qed.

Lemma deliver_all_app (N : Z -> Z -> jsstring) (a b : list JSON.value)
      (c : call) (st : state) :
  deliver_all N (a ++ b) c st
  = deliver_all N b (fst (deliver_all N a c st)) (snd (deliver_all N a c st)).
Proof.
  rewrite !deliver_all_spec. cbn [fst snd assistantContent messages setMessages
    c_user c_messages input userMessage convId at_stage].
  rewrite apply_deltas_app. reflexivity.
Qed.

Lemma completed_stage (N : Z -> Z -> jsstring) (now : Z)
      (calls : list JSON.value) (s : stage) (c : call) (st : state) :
  completed now (fst (deliver_all N calls (set_stage s c)
                        (set_pending (Some (set_stage s c)) st)))
    (snd (deliver_all N calls (set_stage s c)
            (set_pending (Some (set_stage s c)) st)))
  = completed now (fst (deliver_all N calls c st))
      (snd (deliver_all N calls c st)).
Proof.
  rewrite !deliver_all_spec. cbn [fst snd]. unfold completed.
  cbn [c_user convId assistantContent set_stage messages setMessages set_pending].
  destruct (c_user c); [|reflexivity].
  destruct (convId c); [|reflexivity].
  destruct (_ && _); reflexivity.
Qed.

Lemma run_stream (N : Z -> Z -> jsstring) (now : Z) (chunks : list (list byte)) :
  forall r c st,
    pending st = Some c -> at_stage c = Reading r ->
    Forall (fun v => throws N v = false)
      (fst (read_loop r chunks)
       ++ flush (textBuffer (snd (read_loop r chunks)))) ->
    run N (stream_events now r chunks) st
    = Some (let calls := fst (read_loop r chunks)
                         ++ flush (textBuffer (snd (read_loop r chunks))) in
            completed now (fst (deliver_all N calls c st))
              (snd (deliver_all N calls c st))).
Proof.
  induction chunks as [|v chunks IH]; intros r c st Hp Hs Hn.
  - cbn [stream_events run step]. rewrite Hp, Hs.
    unfold streamChat_flush. cbn [read_loop fst snd app] in *.
    rewrite (flush_with_plain _ _ Hn).
    now destruct (deliver_all N _ c st).
  - cbn [stream_events run step]. rewrite Hp, Hs.
    unfold streamChat_chunk. cbn [read_loop] in *.
    assert (Hf : Forall (fun v => throws N v = false) (fst (feed r v))).
    { destruct (feed r v) as [calls r1]. cbn [fst].
      destruct (streamDone r1).
      - cbn [fst] in Hn. apply Forall_app in Hn. tauto.
      - destruct (read_loop r1 chunks) as [calls' r2]. cbn [fst] in Hn.
        rewrite <- app_assoc in Hn. apply Forall_app in Hn. tauto. }
    rewrite (feed_with_plain _ _ _ Hf).
    destruct (feed r v) as [calls r1]. cbn [snd].
    destruct (deliver_all N calls c st) as [c1 st1] eqn:Ed.
    destruct (streamDone r1) eqn:Edone.
    + cbn [run fst snd] in *. unfold streamChat_flush.
      apply Forall_app in Hn. destruct Hn as [_ Hn].
      rewrite (flush_with_plain _ _ Hn).
      rewrite deliver_all_app, Ed. cbn [fst snd].
      now destruct (deliver_all N _ c1 st1).
    + rewrite (IH r1 (set_stage (Reading r1) c1)
                 (set_pending (Some (set_stage (Reading r1) c1)) st1));
        [|reflexivity|reflexivity|].
      * destruct (read_loop r1 chunks) as [calls' r2]. cbn [fst snd].
        cbv zeta. rewrite completed_stage.
        rewrite <- app_assoc, (deliver_all_app N calls), Ed. reflexivity.
      * destruct (read_loop r1 chunks) as [calls' r2]. cbn [fst snd] in *.
        rewrite <- app_assoc in Hn. apply Forall_app in Hn. tauto.
Qed.

(** X8.  The session follows the decoder: when [updateAssistant]
    throws on none of the contents that [streamChat] delivers for a
    body, handling its chunks one event at a time, up to the chunk
    that completes the sentinel line or to the end of the stream,
    ends in the state that delivering these contents and then
    completing gives. *)
Theorem session_follows_streamChat :
  forall (N : Z -> Z -> jsstring) (now : Z) (chunks : list (list byte))
         (c : call) (st : state),
    pending st = Some c ->
    at_stage c = Reading start ->
    Forall (fun v => throws N v = false) (deltas (streamChat chunks)) ->
    run N (stream_events now start chunks) st
    = Some (completed now
              (fst (deliver_all N (deltas (streamChat chunks)) c st))
              (snd (deliver_all N (deltas (streamChat chunks)) c st))).
Proof.
  intros N now chunks c st Hp Hs Hn.
  unfold streamChat in *. destruct (read_loop start chunks) as [calls r] eqn:E.
  rewrite deltas_map_onDelta in *.
  rewrite (run_stream N now chunks start c st Hp Hs); rewrite E; [reflexivity|].
  exact Hn.
Qed.

Lemma session_follows_streamChat_witness :
  run integer_toString (stream_events 1009 start sample_item_chunks) reading_state
  = Some (completed 1009
            (fst (deliver_all integer_toString
                    (deltas (streamChat sample_item_chunks))
                    reading_call reading_state))
            (snd (deliver_all integer_toString
                    (deltas (streamChat sample_item_chunks))
                    reading_call reading_state))).
Proof.
  apply (session_follows_streamChat integer_toString 1009 sample_item_chunks
           reading_call reading_state).
  - vm_compute. reflexivity.
  - vm_compute. reflexivity.
  - vm_compute. repeat constructor.
Defined.


Lemma streaming_count_zero (l : list Message) :
  streaming_count l = 0 -> Forall (fun m => is_streaming m = false) l.
Proof.
  unfold streaming_count. induction l as [|m l IH]; [constructor|].
  cbn [filter]. destruct (is_streaming m) eqn:E; [discriminate|].
  intros H. constructor; auto.
Qed.

Lemma finalize_reply (now : Z) (reply : jsstring) (l : list Message) :
  streaming_count l = 0 ->
  finalize now (l ++ [mkMessage (lit "streaming") assistant reply])
  = l ++ [mkMessage (Date_now_toString now) assistant reply].
Proof.
  intros H. unfold finalize. rewrite map_app.
  fold (finalize now l). rewrite (finalize_id now l (streaming_count_zero l H)).
  reflexivity.
Qed.

Lemma apply_contents (N : Z -> Z -> jsstring) (cs : list jsstring)
      (l : list Message) :
  streaming_count l = 0 ->
  apply_deltas N (map JSON.Str (filter nonempty cs)) [] l
  = (concat cs,
     if nonempty (concat cs)
     then l ++ [mkMessage (lit "streaming") assistant (concat cs)]
     else l).
Proof.
  intros H.
  destruct (filter nonempty cs) as [|x r] eqn:E.
  - rewrite <- (concat_filter_nonempty cs), E. reflexivity.
  - assert (Ea : forall ts, applied_texts N (map JSON.Str ts) = ts).
    { induction ts as [|t ts IH]; [reflexivity|].
      cbn [map applied_texts ToString]. now rewrite IH. }
    rewrite (surjective_pairing (apply_deltas N _ [] l)).
    rewrite apply_deltas_fst, apply_deltas_snd; [|rewrite Ea; discriminate].
    cbn [app]. rewrite Ea.
    assert (Ec : concat (x :: r) = concat cs).
    { rewrite <- E. apply concat_filter_nonempty. }
    rewrite Ec.
    rewrite (show_assistant_not_last _ _ (last_is_streaming_count0 _ H)).
    assert (Hx : nonempty x = true).
    { assert (Hi : In x (filter nonempty cs)) by (rewrite E; now left).
      now apply filter_In in Hi. }
    rewrite <- (concat_filter_nonempty cs), E. cbn [concat].
    destruct x; [discriminate|reflexivity].
Qed.

(** X9.  The reply is the concatenation of the contents: when a
    response streams delta lines, other lines and the sentinel, the
    call ends with one new assistant message, under the id of the
    time of completion, whose content is the contents in order; that
    text is what is saved for a signed-in user with a conversation;
    loading is over and nothing is reported.  When the contents are
    all empty no message is added and none is saved.  This holds for
    every way of cutting the body into chunks. *)
Theorem reply_is_concatenation :
  forall (N : Z -> Z -> jsstring) (now : Z) (items : list item)
         (ending : jsstring) (chunks : list (list byte))
         (c : call) (st : state),
    pending st = Some c ->
    at_stage c = Reading start ->
    assistantContent c = [] ->
    streaming_count (messages st) = 0 ->
    Forall item_ok items ->
    forallb is_space ending = true ->
    snd (TextDecoder.decode TextDecoder.init (concat chunks))
    = unlines (map item_line items) ++ sentinel ++ ending ->
    let reply := concat (flat_map item_content items) in
    exists st',
      run N (stream_events now start chunks) st = Some st'
      /\ messages st'
         = messages st
           ++ (if nonempty reply
               then [mkMessage (Date_now_toString now) assistant reply]
               else [])
      /\ saved st'
         = saved st ++ (if nonempty reply then reply_row c reply else [])
      /\ isLoading st' = false
      /\ pending st' = None
      /\ toasts st' = toasts st.
Proof.
  intros N now items ending chunks c st Hp Hs Ha Hc Hok Hend Hdec reply.
  destruct (read_loop_good chunks TextDecoder.init [] (map item_calls items) ending)
    as (r' & Hrl & Hfl).
  { apply Forall_map. revert Hok. apply Forall_impl. exact passes_item. }
  { exact Hend. }
  { intros []. }
  { rewrite lines_items. exact Hdec. }
  eexists. split.
  { apply (run_stream N now chunks start c st Hp Hs).
    unfold start. rewrite Hrl. cbn [fst snd]. rewrite Hfl, app_nil_r.
    rewrite calls_items. apply Forall_forall. intros v Hv.
    apply in_map_iff in Hv. now destruct Hv as (s & <- & _). }
  unfold start. cbv zeta. rewrite Hrl. cbn [fst snd]. rewrite Hfl, app_nil_r.
  rewrite calls_items, deliver_all_spec, Ha.
  rewrite (apply_contents N _ _ Hc). fold reply. cbn [fst snd].
  unfold completed, reply_row.
  cbn [c_user convId assistantContent messages setMessages setIsLoading
       set_pending saved toasts isLoading pending].
  destruct (nonempty reply) eqn:En.
  - rewrite (finalize_reply now reply _ Hc).
    split; [|split; [|split; [|split]]]; try reflexivity;
      try (destruct (c_user c); [destruct (convId c) as [cid|];
        [destruct (nonempty cid)|]|];
           cbn; rewrite ?app_nil_r; reflexivity).
  - rewrite (finalize_id now _ (streaming_count_zero _ Hc)), !app_nil_r.
    split; [|split; [|split; [|split]]]; try reflexivity;
      try (destruct (c_user c); [destruct (convId c) as [cid|];
        [destruct (nonempty cid)|]|];
           cbn; rewrite ?app_nil_r; reflexivity).
Qed.

Lemma reply_is_concatenation_witness :
  exists st',
    run integer_toString (stream_events 1009 start sample_item_chunks)
      reading_state = Some st'
    /\ messages st'
       = messages reading_state
         ++ [mkMessage (lit "1009") assistant (lit "GRE, TOEFL")]
    /\ saved st'
       = saved reading_state ++ [(assistant, lit "GRE, TOEFL", lit "c1")]
    /\ isLoading st' = false
    /\ pending st' = None
    /\ toasts st' = toasts reading_state.
Proof.
  refine (reply_is_concatenation integer_toString 1009 sample_items
            [CR; LF; CR; LF] sample_item_chunks reading_call reading_state
            _ _ _ _ _ _ _).
  - vm_compute. reflexivity.
  - vm_compute. reflexivity.
  - vm_compute. reflexivity.
  - vm_compute. reflexivity.
  - repeat constructor;
      try (vm_compute; intuition discriminate);
      try (eexists; split; vm_compute; reflexivity).
  - reflexivity.
  - vm_compute. reflexivity.
Defined.


(** X10.  One call at a time: in every state the session can reach,
    [isLoading] is set exactly while a [sendMessage] call is in
    flight, and a send during that time changes nothing. *)
Theorem send_while_a_call_is_in_flight_is_ignored :
  forall (N : Z -> Z -> jsstring) (st : state),
    reachable N st ->
    (isLoading st = true <-> pending st <> None)
    /\ (pending st <> None ->
        forall input now, step N (Send input now) st = Some st).
Proof.
  intros N st Hr.
  assert (H := one_call_in_flight N st Hr). unfold loading_iff_pending in H.
  split; [split|].
  - intros E. rewrite E in H. now destruct (pending st).
  - intros Hp. destruct (pending st); [exact H|now elim Hp].
  - intros Hp input0 now. cbn [step]. unfold sendMessage.
    destruct (pending st); [|now elim Hp].
    now rewrite H, orb_true_r.
Qed.

Lemma send_while_a_call_is_in_flight_is_ignored_witness :
  (isLoading waiting_state = true <-> pending waiting_state <> None)
  /\ (pending waiting_state <> None ->
      forall input now,
        step integer_toString (Send input now) waiting_state
        = Some waiting_state).
Proof.
  apply (send_while_a_call_is_in_flight_is_ignored integer_toString
           waiting_state).
  exists [Send (lit "  hi ") 1]. vm_compute. reflexivity.
Defined.

(** X11.  Every failure ends the call: when [fetch] rejects, the
    response is not ok or has no body, or reading the stream fails,
    one error is reported, loading is over and the call is gone; the
    transcript, the rows saved and the requests posted are as
    before. *)
Theorem every_failure_ends_the_call :
  forall (N : Z -> Z -> jsstring) (e : event) (st st' : state),
    failure e = true ->
    step N e st = Some st' ->
    (exists message, toasts st' = toasts st ++ [toast_error message])
    /\ isLoading st' = false
    /\ pending st' = None
    /\ messages st' = messages st
    /\ saved st' = saved st
    /\ requests st' = requests st.
Proof.
  intros N e st st' Hf Hstep.
  assert (Hc : exists x, st' = catch x st).
  { destruct e as [| |r| | |x| | | | | | |]; try discriminate Hf;
      cbn [step] in Hstep;
      destruct (pending st) as [c|]; try discriminate Hstep;
      destruct (at_stage c); try discriminate Hstep;
      injection Hstep as <-.
    - destruct r as [x|status m body]; [now exists x|].
      cbn [failure] in Hf. unfold streamChat_response.
      destruct (negb ((200 <=? status) && (status <=? 299))%N).
      + destruct (status =? 429)%N; [eexists; reflexivity|].
        destruct (status =? 402)%N; eexists; reflexivity.
      + cbn [orb] in Hf. rewrite Hf. eexists; reflexivity.
    - now exists x. }
  destruct Hc as (x & ->). unfold catch.
  repeat split. eexists. reflexivity.
Qed.

Lemma every_failure_ends_the_call_witness :
  (exists message,
      toasts (catch (Error (lit "Failed to get AI response")) waiting_state)
      = toasts waiting_state ++ [toast_error message])
  /\ isLoading (catch (Error (lit "Failed to get AI response")) waiting_state)
     = false
  /\ pending (catch (Error (lit "Failed to get AI response")) waiting_state)
     = None
  /\ messages (catch (Error (lit "Failed to get AI response")) waiting_state)
     = messages waiting_state
  /\ saved (catch (Error (lit "Failed to get AI response")) waiting_state)
     = saved waiting_state
  /\ requests (catch (Error (lit "Failed to get AI response")) waiting_state)
     = requests waiting_state.
Proof.
  apply (every_failure_ends_the_call integer_toString
           (Fetched (Resp 500 (lit "Failed to get AI response") true))
           waiting_state).
  - reflexivity.
  - vm_compute. reflexivity.
Defined.


Lemma step_signed_out (N : Z -> Z -> jsstring) (e : event) (st st' : state) :
  signs_in e = false -> signed_out st -> step N e st = Some st' ->
  signed_out st'.
Proof.
  intros He (Hu & Hs & Hp) Hstep.
  destruct e as [input0 now|row|r|v now|now|x|cid|cid rows| |cid ok|ok|u|rows];
    cbn [step] in Hstep.
  - injection Hstep as <-. unfold sendMessage.
    destruct (negb (nonempty (trim input0)) || isLoading st);
      [now split; [|split]|].
    rewrite Hu. cbn [is_some andb]. unfold post. cbn [c_user].
    split; [exact Hu|split; [exact Hs|]].
    intros c [= <-]. split; [reflexivity|discriminate].
  - destruct (pending st) as [c|] eqn:Ec; [|discriminate].
    destruct (Hp c eq_refl) as [_ Hn].
    destruct (at_stage c) eqn:Ea; try discriminate. now elim (Hn title0).
  - destruct (pending st) as [c|] eqn:Ec; [|discriminate].
    destruct (Hp c eq_refl) as [Hcu _].
    destruct (at_stage c) eqn:Ea; try discriminate. injection Hstep as <-.
    unfold streamChat_response, catch.
    destruct r as [x|status m body]; [now split; [|split]|].
    destruct (negb ((200 <=? status) && (status <=? 299))%N);
      [destruct (status =? 429)%N; [|destruct (status =? 402)%N]
      |destruct (negb body)];
      (split; [exact Hu|split; [exact Hs|]]); try discriminate.
    intros c' [= <-]. split; [exact Hcu|discriminate].
  - destruct (pending st) as [c|] eqn:Ec; [|discriminate].
    destruct (Hp c eq_refl) as [Hcu _].
    destruct (at_stage c) eqn:Ea; try discriminate. injection Hstep as <-.
    unfold streamChat_chunk, streamChat_flush.
    destruct (feed_with (throws N) r v) as [calls r1].
    rewrite deliver_all_spec.
    destruct (streamDone r1).
    + rewrite deliver_all_spec. unfold completed. cbn [c_user].
      rewrite Hcu. now split; [|split].
    + split; [exact Hu|split; [exact Hs|]].
      intros c' [= <-]. split; [exact Hcu|discriminate].
  - destruct (pending st) as [c|] eqn:Ec; [|discriminate].
    destruct (Hp c eq_refl) as [Hcu _].
    destruct (at_stage c) eqn:Ea; try discriminate. injection Hstep as <-.
    unfold streamChat_flush. rewrite deliver_all_spec.
    unfold completed. cbn [c_user]. rewrite Hcu. now split; [|split].
  - destruct (pending st) as [c|] eqn:Ec; [|discriminate].
    destruct (at_stage c) eqn:Ea; try discriminate. injection Hstep as <-.
    now split; [|split].
  - injection Hstep as <-. unfold selectConversation.
    destruct (activate_keeps (Some cid) st) as (E1 & _ & E2 & _ & _ & E3 & _).
    unfold signed_out. now rewrite E1, E2, E3.
  - destruct (take_load cid (loads st)); [|discriminate].
    injection Hstep as <-. destruct rows; now split; [|split].
  - injection Hstep as <-. unfold startNewChat.
    destruct (activate_keeps None st) as (E1 & _ & E2 & _ & _ & E3 & _).
    unfold signed_out. cbn [user saved pending setMessages].
    now rewrite E1, E2, E3.
  - injection Hstep as <-. unfold deleteConversation.
    destruct (negb ok); [now split; [|split]|].
    destruct (opt_eqb (activeConversationId st) (Some cid)).
    + match goal with |- context [activate None ?s] =>
        destruct (activate_keeps None s) as (E1 & _ & E2 & _ & _ & E3 & _) end.
      unfold signed_out. cbn [user saved pending setMessages add_toast].
      now rewrite E1, E2, E3.
    + now split; [|split].
  - injection Hstep as <-. unfold clearAllHistory. rewrite Hu.
    now split; [|split].
  - injection Hstep as <-. destruct u; [discriminate|now split; [|split]].
  - injection Hstep as <-. destruct rows; now split; [|split].
Qed.

Lemma run_signed_out (N : Z -> Z -> jsstring) (evs : list event) :
  forall st st',
    Forall (fun e => signs_in e = false) evs -> signed_out st ->
    run N evs st = Some st' -> signed_out st'.
Proof.
  induction evs as [|e evs IH]; intros st st' Hq Hi Hr.
  - cbn in Hr. now injection Hr as <-.
  - cbn [run] in Hr. destruct (step N e st) as [st1|] eqn:E; [|discriminate].
    inversion Hq; subst.
    apply (IH st1 st'); auto. now apply (step_signed_out N e st st1).
Qed.

(** X12.  A session in which nobody signs in persists nothing: no
    message row is saved and no conversation is ever created. *)
Theorem signed_out_session_saves_nothing :
  forall (N : Z -> Z -> jsstring) (evs : list event) (st : state),
    Forall (fun e => signs_in e = false) evs ->
    run N evs initial = Some st ->
    saved st = [] /\ forall row, step N (Created row) st = None.
Proof.
  intros N evs st Hq Hr.
  destruct (run_signed_out N evs initial st Hq) as (_ & Hs & Hp);
    [now split; [|split]|exact Hr|].
  split; [exact Hs|]. intros row. cbn [step].
  destruct (pending st) as [c|]; [|reflexivity].
  destruct (Hp c eq_refl) as [_ Hn].
  destruct (at_stage c) eqn:Ea; try reflexivity. now elim (Hn title0).
Qed.

Lemma signed_out_session_saves_nothing_witness :
  saved (state_after signed_out_run) = []
  /\ forall row,
      step integer_toString (Created row) (state_after signed_out_run) = None.
Proof.
  apply (signed_out_session_saves_nothing integer_toString signed_out_run).
  - repeat constructor.
  - vm_compute. reflexivity.
Defined.


Lemma trimStart_idem (s : jsstring) : trimStart (trimStart s) = trimStart s.
Proof.
  induction s as [|c r IH]; [reflexivity|].
  cbn [trimStart]. destruct (is_space c) eqn:E; [exact IH|].
  cbn [trimStart]. now rewrite E.
Qed.

Lemma trimEnd_idem (s : jsstring) : trimEnd (trimEnd s) = trimEnd s.
Proof. unfold trimEnd. now rewrite rev_involutive, trimStart_idem. Qed.

Lemma trimStart_trimEnd (s : jsstring) :
  trimStart s = s -> trimStart (trimEnd s) = trimEnd s.
Proof.
  destruct s as [|c r]; [reflexivity|].
  cbn [trimStart]. destruct (is_space c) eqn:E.
  - intros H. exfalso.
    assert (Hl : length (trimStart r) <= length r).
    { clear. induction r as [|x r IH]; cbn; [lia|].
      destruct (is_space x); cbn; lia. }
    rewrite H in Hl. cbn in Hl. lia.
  - intros _. rewrite trimEnd_cons.
    destruct (trimEnd r); rewrite ?E; cbn [trimStart]; now rewrite E.
Qed.

Lemma trim_idem (s : jsstring) : trim (trim s) = trim s.
Proof.
  unfold trim.
  rewrite (trimStart_trimEnd _ (trimStart_idem s)). apply trimEnd_idem.
Qed.

Lemma post_asks (c : call) (a : option jsstring) (st : state) :
  Forall user_turn_last (requests st) ->
  role (userMessage c) = Transcript.user ->
  user_turn (content (userMessage c)) ->
  asks (post c a st).
Proof.
  intros Hr Hrole Ht. unfold post, asks.
  cbn [requests pending set_pending add_request userMessage].
  split.
  - apply Forall_app. split.
    + destruct (c_user c); [destruct a as [cid|]; [destruct (nonempty cid)|]|];
        exact Hr.
    + constructor; [|constructor].
      exists (map (fun m => (role m, content m)) (c_messages c)),
        (content (userMessage c)).
      rewrite map_app. cbn [map]. now rewrite Hrole.
  - intros c' [= <-]. now split.
Qed.

Lemma step_asks (N : Z -> Z -> jsstring) (e : event) (st st' : state) :
  asks st -> step N e st = Some st' -> asks st'.
Proof.
  intros (Hr & Hp) Hstep.
  destruct e as [input0 now|row|r|v now|now|x|cid|cid rows| |cid ok|ok|u|rows];
    cbn [step] in Hstep.
  - injection Hstep as <-. unfold sendMessage.
    destruct (negb (nonempty (trim input0)) || isLoading st) eqn:Eg;
      [now split|].
    apply orb_false_elim in Eg. destruct Eg as [Eg _].
    apply negb_false_iff in Eg.
    destruct (is_some (user st) && negb (given (activeConversationId st))).
    + split; [exact Hr|]. intros c [= <-]. cbn.
      repeat split; [exact Eg|apply trim_idem].
    + apply post_asks; [exact Hr|reflexivity|].
      split; [exact Eg|apply trim_idem].
  - destruct (pending st) as [c|] eqn:Ec; [|discriminate].
    destruct (Hp c eq_refl) as [H1 H2].
    destruct (at_stage c) eqn:Ea; try discriminate. injection Hstep as <-.
    unfold createConversation. destruct row as [conv|].
    + apply post_asks; auto. cbn [requests setMessages].
      destruct (activate_keeps (Some (conv_id conv))
                  (setConversations (conv :: conversations st) st))
        as (_ & E & _). now rewrite E.
    + apply post_asks; auto.
  - destruct (pending st) as [c|] eqn:Ec; [|discriminate].
    destruct (Hp c eq_refl) as [H1 H2].
    destruct (at_stage c) eqn:Ea; try discriminate. injection Hstep as <-.
    unfold streamChat_response, catch.
    destruct r as [x|status m body]; [now split|].
    destruct (negb ((200 <=? status) && (status <=? 299))%N);
      [destruct (status =? 429)%N; [|destruct (status =? 402)%N]
      |destruct (negb body)];
      (split; [exact Hr|]); try discriminate.
    intros c' [= <-]. now split.
  - destruct (pending st) as [c|] eqn:Ec; [|discriminate].
    destruct (Hp c eq_refl) as [H1 H2].
    destruct (at_stage c) eqn:Ea; try discriminate. injection Hstep as <-.
    unfold streamChat_chunk, streamChat_flush.
    destruct (feed_with (throws N) r v) as [calls r1].
    rewrite deliver_all_spec.
    destruct (streamDone r1).
    + rewrite deliver_all_spec. unfold completed. cbn [c_user convId].
      split; [|discriminate].
      destruct (c_user c); [destruct (convId c) as [k|];
        [destruct (_ && _)|]|]; exact Hr.
    + split; [exact Hr|]. intros c' [= <-]. now split.
  - destruct (pending st) as [c|] eqn:Ec; [|discriminate].
    destruct (at_stage c) eqn:Ea; try discriminate. injection Hstep as <-.
    unfold streamChat_flush. rewrite deliver_all_spec.
    unfold completed. cbn [c_user convId].
    split; [|discriminate].
    destruct (c_user c); [destruct (convId c) as [k|];
      [destruct (_ && _)|]|]; exact Hr.
  - destruct (pending st) as [c|] eqn:Ec; [|discriminate].
    destruct (at_stage c) eqn:Ea; try discriminate. injection Hstep as <-.
    split; [exact Hr|discriminate].
  - injection Hstep as <-. unfold selectConversation.
    destruct (activate_keeps (Some cid) st) as (E1 & E2 & _).
    unfold asks. now rewrite E1, E2.
  - destruct (take_load cid (loads st)); [|discriminate].
    injection Hstep as <-. destruct rows; now split.
  - injection Hstep as <-. unfold startNewChat.
    destruct (activate_keeps None st) as (E1 & E2 & _).
    unfold asks. cbn [requests pending setMessages]. now rewrite E1, E2.
  - injection Hstep as <-. unfold deleteConversation.
    destruct (negb ok); [now split|].
    destruct (opt_eqb (activeConversationId st) (Some cid)).
    + match goal with |- context [activate None ?s] =>
        destruct (activate_keeps None s) as (E1 & E2 & _) end.
      unfold asks. cbn [requests pending setMessages add_toast].
      now rewrite E1, E2.
    + now split.
  - injection Hstep as <-. unfold clearAllHistory.
    destruct (user st); [|now split]. destruct (negb ok); [now split|].
    match goal with |- context [activate None ?s] =>
      destruct (activate_keeps None s) as (E1 & E2 & _) end.
    unfold asks. cbn [requests pending setMessages add_toast].
    now rewrite E1, E2.
  - injection Hstep as <-. unfold auth_changed, messages_effect.
    destruct u as [u|]; [|now split]. cbn [user setUser activeConversationId].
    destruct (activeConversationId st) as [a|]; [destruct (nonempty a)|];
      now split.
  - injection Hstep as <-. destruct rows; now split.
Qed.

(** X13.  Every request posted ends with the turn of the user, and
    its text is trimmed and not empty: a blank input is never
    posted. *)
Theorem every_request_ends_with_the_user_turn :
  forall (N : Z -> Z -> jsstring) (st : state) (req : list (Role * jsstring)),
    reachable N st ->
    In req (requests st) ->
    exists pre text,
      req = pre ++ [(Transcript.user, text)]
      /\ nonempty text = true /\ trim text = text.
Proof.
  intros N st req [evs Hrun] Hin.
  assert (H : asks st).
  { assert (G : forall evs st0 st1, asks st0 -> run N evs st0 = Some st1 -> asks st1).
    { clear. induction evs as [|e evs IH]; intros st0 st1 Ha Hr.
      - cbn in Hr. now injection Hr as <-.
      - cbn [run] in Hr. destruct (step N e st0) as [s|] eqn:E; [|discriminate].
        apply (IH s st1); auto. now apply (step_asks N e st0 s). }
    apply (G evs initial st); [|exact Hrun]. split; [constructor|discriminate]. }
  destruct H as [Hr _]. rewrite Forall_forall in Hr. exact (Hr req Hin).
Qed.

Lemma every_request_ends_with_the_user_turn_witness :
  exists pre text,
    [(assistant, content INITIAL_MESSAGE); (Transcript.user, lit "hi")]
    = pre ++ [(Transcript.user, text)]
    /\ nonempty text = true /\ trim text = text.
Proof.
  apply (every_request_ends_with_the_user_turn integer_toString waiting_state).
  - exists [Send (lit "  hi ") 1]. vm_compute. reflexivity.
  - vm_compute. left. reflexivity.
Defined.


Lemma trimStart_length (s : jsstring) : length (trimStart s) <= length s.
Proof.
  induction s as [|x r IH]; cbn; [lia|]. destruct (is_space x); cbn; lia.
Qed.

Lemma trim_length (s : jsstring) : length (trim s) <= length s.
Proof.
  unfold trim, trimEnd. rewrite length_rev.
  etransitivity; [apply trimStart_length|]. rewrite length_rev.
  apply trimStart_length.
Qed.

(** X14.  The first message of a signed-in user opens a
    conversation: once the conversation is created it heads the
    list and is the active one, its messages are being loaded, and
    the transcript is reset to the welcome message, so the message
    just typed is no longer shown; the message is saved under the
    new conversation and posted behind the transcript the call
    started from. *)
Theorem first_message_opens_a_conversation :
  forall (N : Z -> Z -> jsstring) (input : jsstring) (now : Z)
         (conv : Conversation) (u : jsstring) (st : state),
    user st = Some u ->
    given (activeConversationId st) = false ->
    isLoading st = false ->
    nonempty (trim input) = true ->
    nonempty (conv_id conv) = true ->
    exists st',
      run N [Send input now; Created (Some conv)] st = Some st'
      /\ conversations st' = conv :: conversations st
      /\ activeConversationId st' = Some (conv_id conv)
      /\ messages st' = [INITIAL_MESSAGE]
      /\ saved st' = saved st ++ [(Transcript.user, trim input, conv_id conv)]
      /\ requests st'
         = requests st
           ++ [map (fun m => (role m, content m))
                 (messages st
                  ++ [mkMessage (Date_now_toString now) Transcript.user
                        (trim input)])]
      /\ loads st' = loads st ++ [conv_id conv]
      /\ isLoading st' = true.
Proof.
  intros N input0 now conv u st Hu Hg Hl Hi Hc.
  assert (Hs : sendMessage input0 now st
               = set_pending
                   (Some (mkCall (Some u) (messages st) input0
                            (mkMessage (Date_now_toString now) Transcript.user
                               (trim input0))
                            (activeConversationId st) []
                            (AwaitCreate
                               (slice_to 40 (trim input0)
                                ++ (if Nat.ltb 40 (length input0)
                                    then lit "..." else [])))))
                   (setIsLoading true
                      (setMessages
                         (messages st
                          ++ [mkMessage (Date_now_toString now) Transcript.user
                                (trim input0)]) st))).
  { unfold sendMessage. rewrite Hl, Hi, Hu, Hg. reflexivity. }
  cbn [run step]. rewrite Hs.
  cbn [pending set_pending at_stage].
  eexists. split; [reflexivity|].
  unfold createConversation, post, activate.
  cbn [c_user set_stage activeConversationId setConversations setMessages
       setIsLoading set_pending].
  assert (Hne : opt_eqb (Some (conv_id conv)) (activeConversationId st) = false).
  { destruct (activeConversationId st) as [a|]; [|reflexivity].
    cbn [given] in Hg. destruct a; [|discriminate].
    destruct (conv_id conv); [discriminate|reflexivity]. }
  rewrite Hne. unfold messages_effect.
  cbn [user activeConversationId setActiveConversationId setConversations
       setMessages setIsLoading set_pending].
  rewrite Hu, Hc. cbn [c_user saveMessage]. repeat split.
Qed.

Lemma first_message_opens_a_conversation_witness :
  exists st',
    run integer_toString [Send (lit "hello") 5; Created (Some new_conversation)]
      signed_in_state = Some st'
    /\ conversations st' = new_conversation :: conversations signed_in_state
    /\ activeConversationId st' = Some (conv_id new_conversation)
    /\ messages st' = [INITIAL_MESSAGE]
    /\ saved st'
       = saved signed_in_state
         ++ [(Transcript.user, trim (lit "hello"), conv_id new_conversation)]
    /\ requests st'
       = requests signed_in_state
         ++ [map (fun m => (role m, content m))
               (messages signed_in_state
                ++ [mkMessage (Date_now_toString 5) Transcript.user
                      (trim (lit "hello"))])]
    /\ loads st' = loads signed_in_state ++ [conv_id new_conversation]
    /\ isLoading st' = true.
Proof.
  apply (first_message_opens_a_conversation integer_toString (lit "hello") 5
           new_conversation (lit "u") signed_in_state); reflexivity.
Defined.

(** X15.  The title of a new conversation is not empty and at most 43
    code units long: it is the trimmed input when the input has at
    most 40 code units, and otherwise the first 40 code units of the
    trimmed input followed by three dots, the length being counted
    before trimming. *)
Theorem conversation_title_is_short :
  forall (input : jsstring) (now : Z) (u : jsstring) (st : state),
    user st = Some u ->
    given (activeConversationId st) = false ->
    isLoading st = false ->
    nonempty (trim input) = true ->
    exists c t,
      pending (sendMessage input now st) = Some c
      /\ at_stage c = AwaitCreate t
      /\ nonempty t = true
      /\ length t <= 43
      /\ (length input <= 40 -> t = trim input)
      /\ (40 < length input -> t = slice_to 40 (trim input) ++ lit "...").
Proof.
  intros input0 now u st Hu Hg Hl Hi.
  unfold sendMessage. rewrite Hl, Hi, Hu, Hg.
  cbn [negb orb is_some andb pending set_pending at_stage set_stage].
  eexists. eexists. split; [reflexivity|]. split; [reflexivity|].
  assert (Ht := trim_length input0). unfold slice_to.
  split; [|split; [|split]].
  - destruct (trim input0); [discriminate|reflexivity].
  - rewrite length_app, length_firstn.
    destruct (Nat.ltb 40 (length input0));
      [change (length (lit "...")) with 3|change (@length N []) with 0]; lia.
  - intros H. destruct (Nat.ltb_spec 40 (length input0)) as [H'|_]; [lia|].
    rewrite app_nil_r. apply firstn_all2. lia.
  - intros H. destruct (Nat.ltb_spec 40 (length input0)) as [_|H']; [|lia].
    reflexivity.
Qed.

Lemma conversation_title_is_short_witness :
  exists c t,
    pending (sendMessage (lit "hello") 5 signed_in_state) = Some c
    /\ at_stage c = AwaitCreate t
    /\ nonempty t = true
    /\ length t <= 43
    /\ (length (lit "hello") <= 40 -> t = trim (lit "hello"))
    /\ (40 < length (lit "hello") ->
        t = slice_to 40 (trim (lit "hello")) ++ lit "...").
Proof.
  apply (conversation_title_is_short (lit "hello") 5 (lit "u") signed_in_state);
    reflexivity.
Defined.


Lemma answers_snoc_user (rows : list (Role * jsstring * jsstring))
      (q cid : jsstring) :
  answers_a_question rows ->
  answers_a_question (rows ++ [(Transcript.user, q, cid)]).
Proof.
  intros H pre text c post E.
  destruct post as [|x post] using rev_ind.
  - apply app_inj_tail in E. destruct E as [_ E]. discriminate.
  - clear IHpost. rewrite app_comm_cons, app_assoc in E.
    apply app_inj_tail in E. destruct E as [E _]. exact (H _ _ _ _ E).
Qed.

Lemma answers_snoc_reply (rows : list (Role * jsstring * jsstring))
      (t q cid : jsstring) :
  answers_a_question rows ->
  In (Transcript.user, q, cid) rows ->
  answers_a_question (rows ++ [(assistant, t, cid)]).
Proof.
  intros H Hin pre text c post E.
  destruct post as [|x post] using rev_ind.
  - apply app_inj_tail in E. destruct E as [<- [= <- <-]]. now exists q.
  - clear IHpost. rewrite app_comm_cons, app_assoc in E.
    apply app_inj_tail in E. destruct E as [E _]. exact (H _ _ _ _ E).
Qed.

Lemma post_orphans (c : call) (a : option jsstring) (st : state) :
  answers_a_question (saved st) -> no_orphans (post c a st).
Proof.
  intros H. unfold post, no_orphans, question_saved.
  destruct (c_user c) as [u|] eqn:Eu.
  - destruct a as [cid|].
    + destruct (nonempty cid) eqn:En.
      * cbn [saveMessage saved pending set_pending add_request add_saved].
        split; [now apply answers_snoc_user|].
        intros c' u' cid' [= <-]. cbn [c_user convId]. intros _ [= <-] _.
        exists (trim (input c)). apply in_or_app. right. now left.
      * cbn [saved pending set_pending add_request]. split; [exact H|].
        intros c' u' cid' [= <-]. cbn [convId]. intros _ [= <-] E. congruence.
    + cbn [saved pending set_pending add_request]. split; [exact H|].
      intros c' u' cid' [= <-]. cbn [convId]. discriminate.
  - cbn [saved pending set_pending add_request]. split; [exact H|].
    intros c' u' cid' [= <-]. cbn [c_user]. congruence.
Qed.

Lemma completed_orphans (now : Z) (c : call) (st : state) :
  answers_a_question (saved st) ->
  (forall u cid,
      c_user c = Some u -> convId c = Some cid -> nonempty cid = true ->
      exists question, In (Transcript.user, question, cid) (saved st)) ->
  no_orphans (completed now c st).
Proof.
  intros H Hq.
  unfold completed, no_orphans, question_saved.
  destruct (c_user c) as [u|] eqn:Eu; [destruct (convId c) as [cid|] eqn:Ec|];
    try (split; [exact H|discriminate]).
  destruct (nonempty cid) eqn:En; [|split; [exact H|discriminate]].
  destruct (nonempty (assistantContent c)); [|split; [exact H|discriminate]].
  cbn [andb saveMessage saved add_saved setIsLoading setMessages set_pending
       pending].
  split; [|discriminate].
  destruct (Hq u cid eq_refl eq_refl En) as (q & Hin).
  now apply (answers_snoc_reply _ _ q).
Qed.

Lemma no_orphans_same (st st' : state) :
  saved st' = saved st -> pending st' = pending st ->
  no_orphans st -> no_orphans st'.
Proof.
  intros E1 E2 [H Hq]. unfold no_orphans, question_saved.
  rewrite E1, E2. now split.
Qed.

Lemma no_orphans_idle (st st' : state) :
  saved st' = saved st -> pending st' = None ->
  no_orphans st -> no_orphans st'.
Proof.
  intros E1 E2 [H _]. unfold no_orphans, question_saved.
  rewrite E1, E2. split; [exact H|discriminate].
Qed.

Lemma flush_orphans (N : Z -> Z -> jsstring) (now : Z)
      (r : reader_state) (c c0 : call) (st st0 : state) :
  no_orphans st0 -> pending st0 = Some c0 ->
  c_user c = c_user c0 -> convId c = convId c0 -> saved st = saved st0 ->
  no_orphans (streamChat_flush N now r c st).
Proof.
  intros [H Hq] Hp Eu Ec Es. unfold streamChat_flush.
  rewrite deliver_all_spec. apply completed_orphans.
  - cbn [saved setMessages]. now rewrite Es.
  - cbn [c_user convId saved setMessages]. rewrite Eu, Ec, Es.
    intros u cid. now apply Hq.
Qed.

Lemma step_orphans (N : Z -> Z -> jsstring) (e : event) (st st' : state) :
  no_orphans st -> step N e st = Some st' -> no_orphans st'.
Proof.
  intros Hi Hstep. assert (Hi' := Hi). destruct Hi' as [H Hq].
  destruct e as [input0 now|row|r|v now|now|x|cid|cid rows| |cid ok|ok|u|rows];
    cbn [step] in Hstep.
  - injection Hstep as <-. unfold sendMessage.
    destruct (negb (nonempty (trim input0)) || isLoading st); [exact Hi|].
    destruct (is_some (user st) && negb (given (activeConversationId st)))
      eqn:Eg.
    + split; [exact H|]. intros c u cid [= <-]. cbn [convId set_stage].
      intros _ Ea En. apply andb_prop in Eg. destruct Eg as [_ Eg].
      rewrite Ea in Eg. cbn [given] in Eg. now rewrite En in Eg.
    + now apply post_orphans.
  - destruct (pending st) as [c|] eqn:Ec; [|discriminate].
    destruct (at_stage c) eqn:Ea; try discriminate. injection Hstep as <-.
    unfold createConversation. destruct row as [conv|].
    + apply post_orphans. cbn [saved setMessages].
      destruct (activate_keeps (Some (conv_id conv))
                  (setConversations (conv :: conversations st) st))
        as (_ & _ & E & _). now rewrite E.
    + now apply post_orphans.
  - destruct (pending st) as [c|] eqn:Ec; [|discriminate].
    destruct (at_stage c) eqn:Ea; try discriminate. injection Hstep as <-.
    unfold streamChat_response, catch.
    destruct r as [x|status m body];
      [now apply (no_orphans_idle st)|].
    destruct (negb ((200 <=? status) && (status <=? 299))%N);
      [destruct (status =? 429)%N; [|destruct (status =? 402)%N]
      |destruct (negb body)];
      try (now apply (no_orphans_idle st)).
    split; [exact H|]. intros c' u cid [= <-]. cbn [c_user convId set_stage].
    now apply Hq.
  - destruct (pending st) as [c|] eqn:Ec; [|discriminate].
    destruct (at_stage c) eqn:Ea; try discriminate. injection Hstep as <-.
    unfold streamChat_chunk.
    destruct (feed_with (throws N) r v) as [calls r1].
    rewrite deliver_all_spec.
    destruct (streamDone r1).
    + now apply (flush_orphans N now r1 _ c _ st).
    + split; [exact H|]. intros c' u cid [= <-]. cbn [c_user convId set_stage].
      now apply Hq.
  - destruct (pending st) as [c|] eqn:Ec; [|discriminate].
    destruct (at_stage c) eqn:Ea; try discriminate. injection Hstep as <-.
    now apply (flush_orphans N now r c c st st).
  - destruct (pending st) as [c|] eqn:Ec; [|discriminate].
    destruct (at_stage c) eqn:Ea; try discriminate. injection Hstep as <-.
    now apply (no_orphans_idle st).
  - injection Hstep as <-. unfold selectConversation.
    destruct (activate_keeps (Some cid) st) as (E1 & _ & E2 & _).
    now apply (no_orphans_same st).
  - destruct (take_load cid (loads st)); [|discriminate].
    injection Hstep as <-. destruct rows; now apply (no_orphans_same st).
  - injection Hstep as <-. unfold startNewChat.
    destruct (activate_keeps None st) as (E1 & _ & E2 & _).
    now apply (no_orphans_same st).
  - injection Hstep as <-. unfold deleteConversation.
    destruct (negb ok); [now apply (no_orphans_same st)|].
    destruct (opt_eqb (activeConversationId st) (Some cid)).
    + match goal with |- context [activate None ?s] =>
        destruct (activate_keeps None s) as (E1 & _ & E2 & _) end.
      now apply (no_orphans_same st).
    + now apply (no_orphans_same st).
  - injection Hstep as <-. unfold clearAllHistory.
    destruct (user st); [|exact Hi]. destruct (negb ok);
      [now apply (no_orphans_same st)|].
    match goal with |- context [activate None ?s] =>
      destruct (activate_keeps None s) as (E1 & _ & E2 & _) end.
    now apply (no_orphans_same st).
  - injection Hstep as <-. unfold auth_changed, messages_effect.
    destruct u as [u|]; [|now apply (no_orphans_same st)].
    cbn [user setUser activeConversationId].
    destruct (activeConversationId st) as [a|]; [destruct (nonempty a)|];
      now apply (no_orphans_same st).
  - injection Hstep as <-. destruct rows; now apply (no_orphans_same st).
Qed.

(** X20.  No reply is saved without its question: in every state the
    session can reach, each row of the assistant that [saveMessage]
    was asked to insert comes after a row of the user for the same
    conversation. *)
Theorem every_saved_reply_follows_its_question :
  forall (N : Z -> Z -> jsstring) (st : state)
         (pre post : list (Role * jsstring * jsstring)) (text cid : jsstring),
    reachable N st ->
    saved st = pre ++ (assistant, text, cid) :: post ->
    exists question, In (Transcript.user, question, cid) pre.
Proof.
  intros N st pre post text cid [evs Hrun] E.
  assert (H : no_orphans st).
  { assert (G : forall evs st0 st1,
               no_orphans st0 -> run N evs st0 = Some st1 -> no_orphans st1).
    { clear. induction evs as [|e evs IH]; intros st0 st1 Ha Hr.
      - cbn in Hr. now injection Hr as <-.
      - cbn [run] in Hr. destruct (step N e st0) as [s|] eqn:E; [|discriminate].
        apply (IH s st1); auto. now apply (step_orphans N e st0 s). }
    apply (G evs initial st); [|exact Hrun]. split.
    - intros p t c q Hp. cbn in Hp. destruct p; discriminate.
    - discriminate. }
  destruct H as [H _]. exact (H pre text cid post E).
Qed.

Lemma every_saved_reply_follows_its_question_witness :
  exists question,
    In (Transcript.user, question, lit "c1")
       [(Transcript.user, lit "What tests do I need?", lit "c1")].
Proof.
  apply (every_saved_reply_follows_its_question integer_toString
           (state_after end_to_end)
           [(Transcript.user, lit "What tests do I need?", lit "c1")] []
           (lit "GRE, TOEFL, IELTS.") (lit "c1")).
  - exists end_to_end. vm_compute. reflexivity.
  - vm_compute. reflexivity.
Defined.

Lemma opt_eqb_neq (a : jsstring) (b : option jsstring) :
  b <> Some a -> opt_eqb (Some a) b = false.
Proof.
  destruct b as [x|]; [|reflexivity]. intros H. cbn [opt_eqb].
  apply eqb_neq. intros ->. now apply H.
Qed.

Lemma select_loads (u c : jsstring) (st : state) :
  user st = Some u -> nonempty c = true ->
  activeConversationId st <> Some c ->
  selectConversation c st
  = set_loads (loads st ++ [c]) (setActiveConversationId (Some c) st).
Proof.
  intros Hu Hc Ha. unfold selectConversation, activate.
  rewrite (opt_eqb_neq c _ Ha). unfold messages_effect.
  cbn [user activeConversationId setActiveConversationId]. now rewrite Hu, Hc.
Qed.

(** X21.  A stale load overwrites the transcript: when a signed-in
    user selects a conversation and then another one, and the
    messages of the first arrive after those of the second, the
    transcript shows the messages of the first while the second is
    the active conversation. *)
Theorem stale_load_overwrites_the_transcript :
  forall (N : Z -> Z -> jsstring) (u c1 c2 : jsstring)
         (rows1 rows2 : list Message) (st : state),
    user st = Some u ->
    nonempty c1 = true -> nonempty c2 = true -> c1 <> c2 ->
    activeConversationId st <> Some c1 ->
    loads st = [] ->
    exists st',
      run N [Select c1; Select c2; Loaded c2 (Some rows2); Loaded c1 (Some rows1)]
        st = Some st'
      /\ activeConversationId st' = Some c2
      /\ messages st' = INITIAL_MESSAGE :: rows1
      /\ loads st' = [].
Proof.
  intros N u c1 c2 rows1 rows2 st Hu H1 H2 Hne Ha Hl.
  assert (E12 : eqb c1 c2 = false) by now apply eqb_neq.
  cbn [run step]. rewrite (select_loads u c1 st Hu H1 Ha), Hl.
  rewrite (select_loads u c2); [|exact Hu|exact H2|cbn; congruence].
  cbn [loads set_loads setActiveConversationId app take_load].
  rewrite E12, eqb_refl.
  cbn [option_map loadMessages loads set_loads setMessages take_load].
  rewrite eqb_refl. eexists. split; [reflexivity|]. repeat split.
Qed.

Lemma stale_load_overwrites_the_transcript_witness :
  exists st',
    run integer_toString
      [Select (lit "c1"); Select (lit "c2");
       Loaded (lit "c2") (Some []); Loaded (lit "c1") (Some [stored_message])]
      signed_in_state = Some st'
    /\ activeConversationId st' = Some (lit "c2")
    /\ messages st' = [INITIAL_MESSAGE; stored_message]
    /\ loads st' = [].
Proof.
  apply (stale_load_overwrites_the_transcript integer_toString (lit "u")
           (lit "c1") (lit "c2") [stored_message] [] signed_in_state);
    try reflexivity; discriminate.
Defined.

Lemma parse_value_error (m : jsstring) (f : nat) :
  JSON.parse_value (3 + f) (stringify_error m)
  = JSON.Ok (JSON.Obj [(lit "error", JSON.Str m)], []).
Proof.
  unfold stringify_error, quote. rewrite <- !app_assoc.
  change (js "}") with [125%N].
  change ([34%N] ++ quote_body m ++ [34%N] ++ [125%N])
    with (34%N :: (quote_body m ++ 34%N :: [125%N])).
  set (Q := quote_body m ++ 34%N :: [125%N]).
  assert (HQ : JSON.string_body Q = Some (m, [125%N]))
    by (apply (string_body_quote (length m)); lia).
  cbn. rewrite HQ. reflexivity.
Qed.

Lemma error_message_stringify (N : Z -> Z -> jsstring) (nm pm m : jsstring) :
  error_message N nm pm (stringify_error m)
  = if nonempty m then m else lit "Failed to connect to AI".
Proof.
  unfold error_message, JSON.parse.
  assert (H : 9 <= length (stringify_error m)).
  { unfold stringify_error. rewrite length_app.
    change (length (js "{'error':")) with 9. lia. }
  replace (2 * length (stringify_error m) + 2)
    with (3 + (2 * length (stringify_error m) - 1)) by lia.
  rewrite parse_value_error. cbn. now destruct m.
Qed.

(** X22.  The error of the chat function reaches the user: when the
    response is not ok, with a status other than 429 and 402, and
    its body is the text [JSON.stringify({ error: message })], the
    call ends in the [catch] block with that message, whatever code
    units it holds, or with ["Failed to connect to AI"] when the
    message is empty. *)
Theorem server_error_reaches_the_user :
  forall (toStr : Z -> Z -> jsstring)
         (null_message primitive_message message : jsstring)
         (status : N) (has_body : bool) (c : call) (st : state),
    pending st = Some c ->
    at_stage c = AwaitFetch ->
    (status < 200 \/ 299 < status)%N ->
    status <> 429%N -> status <> 402%N ->
    step toStr (Fetched (Resp status
                       (error_message toStr null_message primitive_message
                          (stringify_error message))
                       has_body)) st
    = Some (catch (Error (if nonempty message then message
                          else lit "Failed to connect to AI")) st).
Proof.
  intros toStr nm pm m status body c st Hp Hs Hok H429 H402.
  cbn [step]. rewrite Hp, Hs. unfold streamChat_response.
  rewrite error_message_stringify.
  replace ((200 <=? status) && (status <=? 299))%N with false.
  - cbn [negb]. apply N.eqb_neq in H429. apply N.eqb_neq in H402.
    now rewrite H429, H402.
  - symmetry. apply andb_false_iff.
    destruct Hok as [H|H]; [left; apply N.leb_gt|right; apply N.leb_gt]; lia.
Qed.

Lemma server_error_reaches_the_user_witness :
  step integer_toString
    (Fetched (Resp 500
                (error_message integer_toString [] []
                   (stringify_error (lit "Failed to get AI response")))
                true)) waiting_state
  = Some (catch (Error (lit "Failed to get AI response")) waiting_state).
Proof.
  apply (server_error_reaches_the_user integer_toString [] []
           (lit "Failed to get AI response") 500 true waiting_call
           waiting_state).
  - vm_compute. reflexivity.
  - vm_compute. reflexivity.
  - right. reflexivity.
  - discriminate.
  - discriminate.
Defined.

(* ================================================================= *)
(** * The components that render the session *)

Import ChatInterface ChatSidebar.


Lemma last_message_some (l : list Message) :
  l <> [] -> exists pre m, l = pre ++ [m] /\ last_message l = Some m.
Proof.
  intros H. destruct (exists_last H) as (pre & m & ->).
  exists pre, m. split; [reflexivity|apply last_message_snoc].
Qed.

(** X17.  The chat pane follows the session: in every state the
    session can reach, the quick actions are shown exactly when the
    transcript is the welcome message alone, and the typing indicator
    is shown only while a call is in flight and the transcript ends
    with a message of the user. *)
Theorem chat_pane_follows_the_session :
  forall (N : Z -> Z -> jsstring) (st : state),
    reachable N st ->
    (quick_actions st = true <-> messages st = [INITIAL_MESSAGE])
    /\ (typing_indicator st = true ->
        pending st <> None
        /\ exists pre m, messages st = pre ++ [m] /\ role m = Transcript.user).
Proof.
  intros N st Hr.
  assert (Hl := one_call_in_flight N st Hr).
  destruct Hr as [evs Hrun].
  destruct (run_welcome N evs initial st initial_welcome Hrun)
    as ((rest & Hm) & _).
  split.
  - unfold quick_actions. rewrite Hm. split.
    + destruct rest; [reflexivity|discriminate].
    + now intros [= ->].
  - unfold typing_indicator. intros H. apply andb_prop in H.
    destruct H as [H1 H2]. split.
    + unfold loading_iff_pending in Hl. rewrite H1 in Hl.
      destruct (pending st); [discriminate|discriminate].
    + destruct (last_message_some (messages st)) as (pre & m & E1 & E2).
      { rewrite Hm. discriminate. }
      exists pre, m. split; [exact E1|].
      rewrite E2 in H2. now destruct (role m).
Qed.

Lemma chat_pane_follows_the_session_witness :
  typing_indicator waiting_state = true
  /\ quick_actions waiting_state = false
  /\ pending waiting_state <> None
  /\ (exists pre m,
         messages waiting_state = pre ++ [m] /\ role m = Transcript.user)
  /\ (quick_actions waiting_state = true
      <-> messages waiting_state = [INITIAL_MESSAGE]).
Proof.
  destruct (chat_pane_follows_the_session integer_toString waiting_state)
    as [Hq Ht].
  - exists [Send (lit "  hi ") 1]. vm_compute. reflexivity.
  - split; [reflexivity|]. split; [reflexivity|].
    destruct (Ht eq_refl) as [Hp Hm]. repeat split; auto; apply Hq.
Defined.

(** X18.  The sidebar labels a conversation by the whole days
    elapsed, not by the calendar: [Today] up to 24 hours back,
    [Yesterday] from 24 to 48 hours, the count of days up to a week,
    the local date from a week on; a date ahead of the clock gets a
    negative count of days. *)
Theorem formatDate_counts_whole_days :
  forall (toLocaleDateString : Z -> jsstring) (now date : Z),
    let label := formatDate toLocaleDateString now date in
    let days := ((now - date) / day)%Z in
    ((0 <= now - date < day)%Z -> label = lit "Today")
    /\ ((day <= now - date < 2 * day)%Z -> label = lit "Yesterday")
    /\ ((2 * day <= now - date < 7 * day)%Z ->
        (2 <= days < 7)%Z
        /\ label = lit (NilZero.string_of_int (Z.to_int days)) ++ lit " days ago")
    /\ ((7 * day <= now - date)%Z -> label = toLocaleDateString date)
    /\ ((now < date)%Z ->
        (days < 0)%Z
        /\ label = lit (NilZero.string_of_int (Z.to_int days)) ++ lit " days ago").
Proof.
  intros f now date label days. subst label. unfold formatDate. fold days.
  assert (Hd : (0 < day)%Z) by reflexivity.
  assert (Hq := Z.div_mod (now - date) day ltac:(lia)).
  assert (Hr := Z.mod_pos_bound (now - date) day Hd).
  fold days in Hq.
  unfold day in *.
  split; [|split; [|split; [|split]]]; intros H.
  - assert (E : (days = 0)%Z) by lia. now rewrite E.
  - assert (E : (days = 1)%Z) by lia. now rewrite E.
  - assert (E : (2 <= days < 7)%Z) by lia. split; [exact E|].
    destruct (Z.eqb_spec days 0); [lia|]. destruct (Z.eqb_spec days 1); [lia|].
    destruct (Z.ltb_spec days 7); [reflexivity|lia].
  - assert (E : (7 <= days)%Z) by lia.
    destruct (Z.eqb_spec days 0); [lia|]. destruct (Z.eqb_spec days 1); [lia|].
    destruct (Z.ltb_spec days 7); [lia|reflexivity].
  - assert (E : (days < 0)%Z) by lia. split; [exact E|].
    destruct (Z.eqb_spec days 0); [lia|]. destruct (Z.eqb_spec days 1); [lia|].
    destruct (Z.ltb_spec days 7); [reflexivity|lia].
Qed.

Lemma formatDate_counts_whole_days_witness :
  formatDate (fun _ => []) 1000 1001 = lit "-1 days ago".
Proof.
  apply (proj2 (proj2 (proj2 (proj2
           (formatDate_counts_whole_days (fun _ => []) 1000 1001))))).
  reflexivity.
Defined.

Lemma one_placeholder_while_no_stream_fails_witness :
  streaming_count (messages (state_after end_to_end)) <= 1
  /\ (pending (state_after end_to_end) = None ->
      streaming_count (messages (state_after end_to_end)) = 0).
Proof.
  apply (one_placeholder_while_no_stream_fails integer_toString end_to_end).
  - repeat constructor.
  - vm_compute. reflexivity.
Defined.
